(** * DataQueue: per-channel circular sample buffer with block timestamps

    A shallow embedding of [Source/DataQueue.cpp] and the properties of its
    write path, read sessions and reconfiguration guards.

    Conventions of the embedding.
    - C++ [int] and [int64] values are integers of [Z]; signed overflow is
      undefined in the source and is not modelled, so every quantity is
      assumed to stay in range.
    - [/] and [%] on [int] are [Z.quot] and [Z.rem] (truncation towards
      zero, as in C++).
    - An operation returns [None] where the source has undefined
      behaviour: a null [OwnedArray] element dereferenced, an unchecked
      array access out of range, a copy outside a sample row, a division
      by zero, a loop that cannot terminate.
    - The overflow message that [writeChannel] prints is not part of the
      queue and is left out.
    - A [for] loop over the channels is [for_chans]; its body threads the
      queue (and the caller's output arrays) explicitly. *)

From stdpp Require Import base tactics option list numbers.

Open Scope Z_scope.

(** ** JUCE containers *)

(** [Array<T>] and [OwnedArray<T>] are lists indexed by [int]. *)
Section Arrays.
Context {A : Type}.

(** Checked element access: [None] outside [0, size).  For an
    [OwnedArray] this is the null pointer that [operator[]] returns; for
    [getUnchecked] it is the out-of-range access. *)
Definition Array_get (a : list A) (i : Z) : option A :=
  if i <? 0 then None else a !! Z.to_nat i.

(** [Array::operator[]]: the element, or a default-constructed value when
    the index is out of range. *)
Definition Array_at (d : A) (a : list A) (i : Z) : A :=
  default d (Array_get a i).

(** [Array::set]: replaces the element; a negative index does nothing and
    an index at or beyond the end appends the value. *)
Definition Array_set (a : list A) (i : Z) (v : A) : list A :=
  if i <? 0 then a
  else if i <? Z.of_nat (length a) then <[Z.to_nat i := v]> a
  else a ++ [v].

(** [Array::resize]: truncates, or pads at the end with default-constructed
    values. *)
Definition Array_resize (d : A) (a : list A) (n : Z) : list A :=
  take (Z.to_nat n) a ++ replicate (Z.to_nat n - length a)%nat d.
End Arrays.

(** ** The ring index allocator *)

Module AbstractFifo.

(** Modelled from the spec: the ring index allocator, class [AbstractFifo],
    which [DataQueue] holds one of per channel and whose source is not part
    of the repository.  The spec (section 3) describes it as tracking read
    and write cursors over [[0, maxSize)] with wraparound, exposing the
    counts of samples ready to read and writable, and returning for a
    requested length up to two [(startIndex, length)] windows, the second
    non-empty only on wraparound, whose total is at most the request and at
    most what is available; finishing a write or a read advances the
    respective cursor by exactly the total.  The definitions are the usual
    realisation of that contract, in which one position is always kept free
    so that a full ring differs from an empty one. *)
Record t : Type := mk {
  bufferSize : Z;
  validStart : Z;
  validEnd : Z
}.

Definition create (capacity : Z) : t := mk capacity 0 0.

Definition getTotalSize (f : t) : Z := bufferSize f.

Definition getNumReady (f : t) : Z :=
  let vs := validStart f in
  let ve := validEnd f in
  if vs <=? ve then ve - vs else bufferSize f - (vs - ve).

Definition getFreeSpace (f : t) : Z := bufferSize f - getNumReady f - 1.

Definition reset (f : t) : t := mk (bufferSize f) 0 0.

Definition setTotalSize (f : t) (newSize : Z) : t :=
  mk newSize 0 0.

(** The four results are [(startIndex1, blockSize1, startIndex2,
    blockSize2)]. *)
Definition prepareToWrite (f : t) (numToWrite : Z) : Z * Z * Z * Z :=
  let vs := validStart f in
  let ve := validEnd f in
  let freeSpace := if vs <=? ve then bufferSize f - (ve - vs) else vs - ve in
  let numToWrite := Z.min numToWrite (freeSpace - 1) in
  if numToWrite <=? 0 then (0, 0, 0, 0)
  else
    let blockSize1 := Z.min (bufferSize f - ve) numToWrite in
    let numToWrite := numToWrite - blockSize1 in
    let blockSize2 := if numToWrite <=? 0 then 0 else Z.min numToWrite vs in
    (ve, blockSize1, 0, blockSize2).

Definition finishedWrite (f : t) (numWritten : Z) : t :=
  let newEnd := validEnd f + numWritten in
  let newEnd := if bufferSize f <=? newEnd then newEnd - bufferSize f else newEnd in
  mk (bufferSize f) (validStart f) newEnd.

Definition prepareToRead (f : t) (numWanted : Z) : Z * Z * Z * Z :=
  let vs := validStart f in
  let ve := validEnd f in
  let numReady := if vs <=? ve then ve - vs else bufferSize f - (vs - ve) in
  let numWanted := Z.min numWanted numReady in
  if numWanted <=? 0 then (0, 0, 0, 0)
  else
    let blockSize1 := Z.min (bufferSize f - vs) numWanted in
    let numWanted := numWanted - blockSize1 in
    let blockSize2 := if numWanted <=? 0 then 0 else Z.min numWanted ve in
    (vs, blockSize1, 0, blockSize2).

Definition finishedRead (f : t) (numRead : Z) : t :=
  let newStart := validStart f + numRead in
  let newStart := if bufferSize f <=? newStart then newStart - bufferSize f else newStart in
  mk (bufferSize f) newStart (validEnd f).

(** Both cursors lie inside the ring. *)
Definition wf (f : t) : Prop :=
  0 <= validStart f < bufferSize f /\ 0 <= validEnd f < bufferSize f.

End AbstractFifo.

(** ** The sample store *)

(** Samples are 32-bit floats in the source.  The queue only moves them, so a
    sample is represented by an integer standing for its bit pattern. *)
Definition sample : Type := Z.

(** [AudioSampleBuffer]: one row of samples per channel. *)
Abbreviation AudioSampleBuffer := (list (list sample)).

Definition AudioSampleBuffer_new (nChans size : Z) : AudioSampleBuffer :=
  replicate (Z.to_nat nChans) (replicate (Z.to_nat size) 0).

(** [AudioSampleBuffer::setSize] without keeping the content: a buffer that
    already has the requested dimensions is left as it is; otherwise it is
    reallocated, and its content, unspecified in the source, is taken as
    cleared. *)
Definition AudioSampleBuffer_setSize (buf : AudioSampleBuffer) (nChans size : Z)
    : AudioSampleBuffer :=
  if (Z.of_nat (length buf) =? nChans)
       && forallb (fun row => Z.of_nat (length row) =? size) buf
  then buf
  else AudioSampleBuffer_new nChans size.

(** The row [dst] with [n] samples of [src], from [srcStart] on, stored at
    [dstStart]. *)
Definition copy_range (dst : list sample) (dstStart : nat)
    (src : list sample) (srcStart n : nat) : list sample :=
  take dstStart dst ++ take n (drop srcStart src) ++ drop (dstStart + n) dst.

(** [AudioSampleBuffer::copyFrom]: nothing is copied for a count that is not
    positive; otherwise both ranges must lie inside their rows. *)
Definition copyFrom (dest : AudioSampleBuffer) (destChannel destStartSample : Z)
    (source : AudioSampleBuffer) (sourceChannel sourceStartSample numSamples : Z)
    : option AudioSampleBuffer :=
  if numSamples <=? 0 then Some dest
  else
    drow ← Array_get dest destChannel;
    srow ← Array_get source sourceChannel;
    if (0 <=? destStartSample)
         && (destStartSample + numSamples <=? Z.of_nat (length drow))
         && (0 <=? sourceStartSample)
         && (sourceStartSample + numSamples <=? Z.of_nat (length srow))
    then Some (<[Z.to_nat destChannel :=
                   copy_range drow (Z.to_nat destStartSample)
                              srow (Z.to_nat sourceStartSample)
                              (Z.to_nat numSamples)]> dest)
    else None.

(** ** The queue *)

Record CircularBufferIndexes : Type := mkIndexes {
  index1 : Z;
  size1 : Z;
  index2 : Z;
  size2 : Z
}.

Record DataQueue : Type := mkDataQueue {
  m_buffer : AudioSampleBuffer;
  m_fifos : list AbstractFifo.t;
  m_timestamps : list (list Z);
  m_lastReadTimestamps : list Z;
  m_readSamples : list Z;
  m_numChans : Z;
  m_blockSize : Z;
  m_readInProgress : bool;
  m_numBlocks : Z;
  m_maxSize : Z
}.

Definition with_buffer (b : AudioSampleBuffer) (q : DataQueue) : DataQueue :=
  mkDataQueue b (m_fifos q) (m_timestamps q) (m_lastReadTimestamps q)
    (m_readSamples q) (m_numChans q) (m_blockSize q) (m_readInProgress q)
    (m_numBlocks q) (m_maxSize q).

Definition with_fifos (f : list AbstractFifo.t) (q : DataQueue) : DataQueue :=
  mkDataQueue (m_buffer q) f (m_timestamps q) (m_lastReadTimestamps q)
    (m_readSamples q) (m_numChans q) (m_blockSize q) (m_readInProgress q)
    (m_numBlocks q) (m_maxSize q).

Definition with_timestamps (t : list (list Z)) (q : DataQueue) : DataQueue :=
  mkDataQueue (m_buffer q) (m_fifos q) t (m_lastReadTimestamps q)
    (m_readSamples q) (m_numChans q) (m_blockSize q) (m_readInProgress q)
    (m_numBlocks q) (m_maxSize q).

Definition with_lastReadTimestamps (l : list Z) (q : DataQueue) : DataQueue :=
  mkDataQueue (m_buffer q) (m_fifos q) (m_timestamps q) l
    (m_readSamples q) (m_numChans q) (m_blockSize q) (m_readInProgress q)
    (m_numBlocks q) (m_maxSize q).

Definition with_readSamples (r : list Z) (q : DataQueue) : DataQueue :=
  mkDataQueue (m_buffer q) (m_fifos q) (m_timestamps q) (m_lastReadTimestamps q)
    r (m_numChans q) (m_blockSize q) (m_readInProgress q)
    (m_numBlocks q) (m_maxSize q).

Definition with_readInProgress (b : bool) (q : DataQueue) : DataQueue :=
  mkDataQueue (m_buffer q) (m_fifos q) (m_timestamps q) (m_lastReadTimestamps q)
    (m_readSamples q) (m_numChans q) (m_blockSize q) b
    (m_numBlocks q) (m_maxSize q).

(** [for (int chan = start; ...; ++chan)] run for [n] rounds. *)
Fixpoint for_chans {S : Type} (n : nat) (chan : Z)
    (body : Z -> S -> option S) (s : S) : option S :=
  match n with
  | O => Some s
  | Datatypes.S k => s' ← body chan s; for_chans k (chan + 1) body s'
  end.

(** The constructor [DataQueue(blockSize, nBlocks)]. *)
Definition DataQueue_new (blockSize nBlocks : Z) : DataQueue :=
  mkDataQueue (AudioSampleBuffer_new 0 (blockSize * nBlocks))
    [] [] [] [] 0 blockSize false nBlocks (blockSize * nBlocks).

Definition setChannels (nChans : Z) (q : DataQueue) : DataQueue :=
  if m_readInProgress q then q
  else
    let n := Z.to_nat nChans in
    mkDataQueue
      (AudioSampleBuffer_setSize (m_buffer q) nChans (m_maxSize q))
      (replicate n (AbstractFifo.create (m_maxSize q)))
      (replicate n (Array_resize 0 [] (m_numBlocks q)))
      (replicate n 0)
      (replicate n 0)
      nChans (m_blockSize q) false (m_numBlocks q) (m_maxSize q).

Definition getNumChannels (q : DataQueue) : Z := m_numChans q.

(** One round of the loop of [resize]. *)
Definition resize_chan (size nBlocks : Z) (i : Z) (q : DataQueue)
    : option DataQueue :=
  fifo ← Array_get (m_fifos q) i;
  let fifo := AbstractFifo.reset (AbstractFifo.setTotalSize fifo size) in
  let q := with_fifos (<[Z.to_nat i := fifo]> (m_fifos q)) q in
  let q := with_readSamples (Array_set (m_readSamples q) i 0) q in
  tab ← Array_get (m_timestamps q) i;
  let q := with_timestamps
             (<[Z.to_nat i := Array_resize 0 tab nBlocks]> (m_timestamps q)) q in
  Some (with_lastReadTimestamps (Array_set (m_lastReadTimestamps q) i 0) q).

Definition resize (nBlocks : Z) (q : DataQueue) : option DataQueue :=
  if m_readInProgress q then Some q
  else
    let size := m_blockSize q * nBlocks in
    let q := mkDataQueue (m_buffer q) (m_fifos q) (m_timestamps q)
               (m_lastReadTimestamps q) (m_readSamples q) (m_numChans q)
               (m_blockSize q) (m_readInProgress q) nBlocks size in
    q ← for_chans (Z.to_nat (m_numChans q)) 0 (resize_chan size nBlocks) q;
    Some (with_buffer
            (AudioSampleBuffer_setSize (m_buffer q) (m_numChans q) size) q).

(** The loop of [fillTimestamps]: [i] runs over [0, blockSize, 2*blockSize,
    ...] while [i < size].  With a positive [blockSize] it ends within [size]
    rounds, which is the fuel [fillTimestamps] gives it. *)
Fixpoint fill_loop (fuel : nat) (blockSize index size startTimestamp
    blockStartPos blockIdx : Z) (i : Z) (tab : list Z) : list Z :=
  match fuel with
  | O => tab
  | Datatypes.S k =>
      if i <? size then
        let tab :=
          if blockStartPos + i <? index + size
          then Array_set tab blockIdx (startTimestamp + i * blockSize)
          else tab in
        fill_loop k blockSize index size startTimestamp blockStartPos blockIdx
          (i + blockSize) tab
      else tab
  end.

(** The body of [fillTimestamps] on the timestamp table of the channel. *)
Definition fill_table (blockSize index size timestamp : Z) (tab : list Z)
    : list Z :=
  let blockMod := Z.rem index blockSize in
  let blockIdx := Z.quot index blockSize in
  let '(startTimestamp, blockStartPos, blockIdx) :=
    if blockMod =? 0 then (timestamp, index, blockIdx)
    else (timestamp + (blockSize - blockMod),
          index + (blockSize - blockMod),
          blockIdx + 1) in
  fill_loop (Z.to_nat size) blockSize index size startTimestamp blockStartPos
    blockIdx 0 tab.

(** [fillTimestamps].  A [blockSize] of zero divides by zero; a negative one
    never ends the loop of a non-empty window.  The table of the channel is
    fetched once, before the loop, so a missing table is reported for every
    non-empty window, also for one in which no block would be stamped. *)
Definition fillTimestamps (channel index size timestamp : Z) (q : DataQueue)
    : option DataQueue :=
  if m_blockSize q =? 0 then None
  else if (m_blockSize q <? 0) && (0 <? size) then None
  else if size <=? 0 then Some q
  else
    tab ← Array_get (m_timestamps q) channel;
    Some (with_timestamps
            (<[Z.to_nat channel :=
                 fill_table (m_blockSize q) index size timestamp tab]>
               (m_timestamps q)) q).

Definition writeChannel (buffer : AudioSampleBuffer) (channel nSamples
    timestamp : Z) (q : DataQueue) : option DataQueue :=
  fifo ← Array_get (m_fifos q) channel;
  let '(index1, size1, index2, size2) :=
    AbstractFifo.prepareToWrite fifo nSamples in
  buf ← copyFrom (m_buffer q) channel index1 buffer channel 0 size1;
  q ← fillTimestamps channel index1 size1 timestamp (with_buffer buf q);
  q ← (if 0 <? size2 then
         buf ← copyFrom (m_buffer q) channel index2 buffer channel size1 size2;
         fillTimestamps channel index2 size2 (timestamp + size1)
           (with_buffer buf q)
       else Some q);
  Some (with_fifos
          (<[Z.to_nat channel := AbstractFifo.finishedWrite fifo (size1 + size2)]>
             (m_fifos q)) q).

(** The state threaded through the loop of [startRead]: the queue and the
    caller's two output arrays. *)
Definition read_state : Type :=
  DataQueue * list CircularBufferIndexes * list Z.

(** One round of the loop of [startRead]. *)
Definition startRead_chan (nMax : Z) (chan : Z) (st : read_state)
    : option read_state :=
  let '(q, indexes, timestamps) := st in
  fifo ← Array_get (m_fifos q) chan;
  let readyToRead := AbstractFifo.getNumReady fifo in
  let samplesToRead :=
    if (nMax <? readyToRead) && (0 <? nMax) then nMax else readyToRead in
  let '(i1, s1, i2, s2) := AbstractFifo.prepareToRead fifo samplesToRead in
  let idx := mkIndexes i1 s1 i2 s2 in
  let indexes := indexes ++ [idx] in
  let q := with_readSamples
             (Array_set (m_readSamples q) chan (size1 idx + size2 idx)) q in
  if m_blockSize q =? 0 then None
  else
    let blockMod := Z.rem (index1 idx) (m_blockSize q) in
    let blockDiff := if blockMod =? 0 then 0 else m_blockSize q - blockMod in
    if blockDiff <? size1 idx + size2 idx then
      if m_numBlocks q =? 0 then None
      else
        let blockIdx :=
          Z.rem (Z.quot (index1 idx + blockDiff) (m_blockSize q))
                (m_numBlocks q) in
        tab ← Array_get (m_timestamps q) chan;
        stamp ← Array_get tab blockIdx;
        let ts := stamp - blockDiff in
        Some (with_lastReadTimestamps
                (Array_set (m_lastReadTimestamps q) chan
                   (ts + size1 idx + size2 idx)) q,
              indexes, timestamps ++ [ts])
    else
      let ts := Array_at 0 (m_lastReadTimestamps q) chan in
      Some (with_lastReadTimestamps
              (Array_set (m_lastReadTimestamps q) chan
                 (ts + size1 idx + size2 idx)) q,
            indexes, timestamps ++ [ts]).

(** [startRead]: the result is the returned flag, the two output arrays as
    the caller finds them afterwards, and the queue. *)
Definition startRead (indexes : list CircularBufferIndexes)
    (timestamps : list Z) (nMax : Z) (q : DataQueue)
    : option (bool * list CircularBufferIndexes * list Z * DataQueue) :=
  if m_readInProgress q then Some (false, indexes, timestamps, q)
  else
    let q := with_readInProgress true q in
    '(q, indexes, timestamps) ←
      for_chans (Z.to_nat (m_numChans q)) 0 (startRead_chan nMax) (q, [], []);
    Some (true, indexes, timestamps, q).

(** One round of the loop of [stopRead]. *)
Definition stopRead_chan (i : Z) (q : DataQueue) : option DataQueue :=
  fifo ← Array_get (m_fifos q) i;
  let fifo := AbstractFifo.finishedRead fifo (Array_at 0 (m_readSamples q) i) in
  let q := with_fifos (<[Z.to_nat i := fifo]> (m_fifos q)) q in
  Some (with_readSamples (Array_set (m_readSamples q) i 0) q).

Definition stopRead (q : DataQueue) : option DataQueue :=
  if negb (m_readInProgress q) then Some q
  else
    q ← for_chans (Z.to_nat (m_numChans q)) 0 stopRead_chan q;
    Some (with_readInProgress false q).

(** [getTimestampsForBlock]: the raw table entry of every channel. *)
Definition getTimestampsForBlock_chan (idx : Z) (q : DataQueue) (chan : Z)
    (timestamps : list Z) : option (list Z) :=
  tab ← Array_get (m_timestamps q) chan;
  Some (timestamps ++ [Array_at 0 tab idx]).

Definition getTimestampsForBlock (idx : Z) (q : DataQueue) : option (list Z) :=
  for_chans (Z.to_nat (m_numChans q)) 0 (getTimestampsForBlock_chan idx q) [].

(** ** Calls and traces *)

(** A call of one of the five state-changing methods. *)
Inductive Op : Type :=
  | OpSetChannels (nChans : Z)
  | OpResize (nBlocks : Z)
  | OpWriteChannel (buffer : AudioSampleBuffer) (channel nSamples timestamp : Z)
  | OpStartRead (nMax : Z)
  | OpStopRead.

(** What a call hands back to its caller: nothing for the [void] methods,
    the flag and the two filled arrays for [startRead]. *)
Inductive Result : Type :=
  | RVoid
  | RStartRead (ok : bool) (indexes : list CircularBufferIndexes)
      (timestamps : list Z).

Definition exec (op : Op) (q : DataQueue) : option (Result * DataQueue) :=
  match op with
  | OpSetChannels nChans => Some (RVoid, setChannels nChans q)
  | OpResize nBlocks => q ← resize nBlocks q; Some (RVoid, q)
  | OpWriteChannel buffer channel nSamples timestamp =>
      q ← writeChannel buffer channel nSamples timestamp q; Some (RVoid, q)
  | OpStartRead nMax =>
      '(ok, indexes, timestamps, q) ← startRead [] [] nMax q;
      Some (RStartRead ok indexes timestamps, q)
  | OpStopRead => q ← stopRead q; Some (RVoid, q)
  end.

(** A sequence of calls, with the results in call order. *)
Fixpoint run (ops : list Op) (q : DataQueue) : option (list Result * DataQueue) :=
  match ops with
  | [] => Some ([], q)
  | op :: ops =>
      '(r, q) ← exec op q;
      '(rs, q) ← run ops q;
      Some (r :: rs, q)
  end.

(** ** Derived quantities of a read window *)

(** The consumed length of a session on one channel. *)
Definition consumed (idx : CircularBufferIndexes) : Z := size1 idx + size2 idx.

(** The distance from the first read index to the next block boundary. *)
Definition blockOffset (blockSize : Z) (idx : CircularBufferIndexes) : Z :=
  let blockMod := Z.rem (index1 idx) blockSize in
  if blockMod =? 0 then 0 else blockSize - blockMod.

(** The table slot of the block that starts at that boundary. *)
Definition boundarySlot (blockSize numBlocks : Z) (idx : CircularBufferIndexes)
    : Z :=
  Z.rem (Z.quot (index1 idx + blockOffset blockSize idx) blockSize) numBlocks.

(** ** Well-formed queues *)

Record queue_wf (q : DataQueue) : Prop := mk_queue_wf {
  wf_blockSize : 0 < m_blockSize q;
  wf_numBlocks : 0 < m_numBlocks q;
  wf_maxSize : m_maxSize q = m_blockSize q * m_numBlocks q;
  wf_len_buffer : Z.of_nat (length (m_buffer q)) = m_numChans q;
  wf_len_fifos : Z.of_nat (length (m_fifos q)) = m_numChans q;
  wf_len_timestamps : Z.of_nat (length (m_timestamps q)) = m_numChans q;
  wf_len_last : Z.of_nat (length (m_lastReadTimestamps q)) = m_numChans q;
  wf_len_readSamples : Z.of_nat (length (m_readSamples q)) = m_numChans q;
  wf_rows :
    Forall (fun row => Z.of_nat (length row) = m_maxSize q) (m_buffer q);
  wf_fifo :
    Forall (fun f => AbstractFifo.wf f /\ AbstractFifo.bufferSize f = m_maxSize q)
      (m_fifos q);
  wf_tabs :
    Forall (fun tab => Z.of_nat (length tab) = m_numBlocks q) (m_timestamps q);
  wf_reads :
    forall chan f, Array_get (m_fifos q) chan = Some f ->
      0 <= Array_at 0 (m_readSamples q) chan <= AbstractFifo.getNumReady f
}.

(** ** Ring positions *)

(** Ring position [p] holds a sample that was written and not yet read. *)
Definition holds_unread (f : AbstractFifo.t) (p : Z) : Prop :=
  if AbstractFifo.validStart f <=? AbstractFifo.validEnd f
  then AbstractFifo.validStart f <= p < AbstractFifo.validEnd f
  else AbstractFifo.validStart f <= p < AbstractFifo.bufferSize f
       \/ 0 <= p < AbstractFifo.validEnd f.

(** Position [p] lies in the window [(index, size)]. *)
Definition in_window (index size p : Z) : Prop := index <= p < index + size.

(** ** Vocabulary of the properties *)

(** The queue after a write: the row, the table and the allocator of the
    written channel are replaced, nothing else changes. *)
Definition written (q : DataQueue) (channel : Z) (row : list sample)
    (fifo : AbstractFifo.t) (tab : list Z) : DataQueue :=
  mkDataQueue
    (<[Z.to_nat channel := row]> (m_buffer q))
    (<[Z.to_nat channel := fifo]> (m_fifos q))
    (<[Z.to_nat channel := tab]> (m_timestamps q))
    (m_lastReadTimestamps q) (m_readSamples q) (m_numChans q) (m_blockSize q)
    (m_readInProgress q) (m_numBlocks q) (m_maxSize q).

(** What a round of the loop of [startRead] computes for channel [chan] of
    the queue [q]: the window [idx] granted by the allocator and the
    reconciled timestamp [ts]. *)
Definition chan_session (q : DataQueue) (nMax chan : Z)
    (idx : CircularBufferIndexes) (ts : Z) : Prop :=
  exists fifo,
    Array_get (m_fifos q) chan = Some fifo /\
    (let readyToRead := AbstractFifo.getNumReady fifo in
     let samplesToRead :=
       if (nMax <? readyToRead) && (0 <? nMax) then nMax else readyToRead in
     AbstractFifo.prepareToRead fifo samplesToRead
     = (index1 idx, size1 idx, index2 idx, size2 idx)) /\
    (blockOffset (m_blockSize q) idx < consumed idx ->
     exists tab stamp,
       Array_get (m_timestamps q) chan = Some tab /\
       Array_get tab (boundarySlot (m_blockSize q) (m_numBlocks q) idx)
       = Some stamp /\
       ts = stamp - blockOffset (m_blockSize q) idx) /\
    (consumed idx <= blockOffset (m_blockSize q) idx ->
     ts = Array_at 0 (m_lastReadTimestamps q) chan).

(** The fields that the loop of [startRead] never writes. *)
Definition read_frame (q q' : DataQueue) : Prop :=
  m_buffer q' = m_buffer q /\ m_fifos q' = m_fifos q /\
  m_timestamps q' = m_timestamps q /\ m_numChans q' = m_numChans q /\
  m_blockSize q' = m_blockSize q /\ m_numBlocks q' = m_numBlocks q /\
  m_maxSize q' = m_maxSize q.

(** The invariant of the loop of [startRead], entered with the queue [q0],
    before the round of channel [chan]. *)
Definition read_inv (q0 : DataQueue) (nMax : Z) (chan : Z) (st : read_state)
    : Prop :=
  let '(q, indexes, timestamps) := st in
  read_frame q0 q /\
  m_readInProgress q = m_readInProgress q0 /\
  length (m_lastReadTimestamps q) = length (m_lastReadTimestamps q0) /\
  length (m_readSamples q) = length (m_readSamples q0) /\
  Z.of_nat (length indexes) = chan /\
  Z.of_nat (length timestamps) = chan /\
  (forall j, chan <= j ->
     Array_get (m_lastReadTimestamps q) j = Array_get (m_lastReadTimestamps q0) j /\
     Array_get (m_readSamples q) j = Array_get (m_readSamples q0) j) /\
  (forall ch, 0 <= ch < chan ->
     exists idx ts,
       chan_session q0 nMax ch idx ts /\
       Array_get indexes ch = Some idx /\
       Array_get timestamps ch = Some ts /\
       Array_get (m_lastReadTimestamps q) ch = Some (ts + consumed idx) /\
       Array_get (m_readSamples q) ch = Some (consumed idx)).

(** The invariant of the loop of [stopRead], entered with the queue [q0],
    before the round of channel [chan]. *)
Definition stop_inv (q0 : DataQueue) (chan : Z) (q : DataQueue) : Prop :=
  m_buffer q = m_buffer q0 /\ m_timestamps q = m_timestamps q0 /\
  m_lastReadTimestamps q = m_lastReadTimestamps q0 /\
  m_numChans q = m_numChans q0 /\ m_blockSize q = m_blockSize q0 /\
  m_readInProgress q = m_readInProgress q0 /\
  m_numBlocks q = m_numBlocks q0 /\ m_maxSize q = m_maxSize q0 /\
  length (m_fifos q) = length (m_fifos q0) /\
  length (m_readSamples q) = length (m_readSamples q0) /\
  (forall j, chan <= j ->
     Array_get (m_fifos q) j = Array_get (m_fifos q0) j /\
     Array_get (m_readSamples q) j = Array_get (m_readSamples q0) j) /\
  (forall ch, 0 <= ch < chan ->
     exists f,
       Array_get (m_fifos q0) ch = Some f /\
       Array_get (m_fifos q) ch
       = Some (AbstractFifo.finishedRead f (Array_at 0 (m_readSamples q0) ch)) /\
       Array_get (m_readSamples q) ch = Some 0).

(** The invariant of the loop of [resize], entered with the queue [q0],
    before the round of channel [chan]. *)
Definition resize_inv (size nBlocks : Z) (q0 : DataQueue) (chan : Z)
    (q : DataQueue) : Prop :=
  m_buffer q = m_buffer q0 /\ m_numChans q = m_numChans q0 /\
  m_blockSize q = m_blockSize q0 /\
  m_readInProgress q = m_readInProgress q0 /\
  m_numBlocks q = m_numBlocks q0 /\ m_maxSize q = m_maxSize q0 /\
  length (m_fifos q) = length (m_fifos q0) /\
  length (m_timestamps q) = length (m_timestamps q0) /\
  length (m_lastReadTimestamps q) = length (m_lastReadTimestamps q0) /\
  length (m_readSamples q) = length (m_readSamples q0) /\
  (forall j, chan <= j ->
     Array_get (m_fifos q) j = Array_get (m_fifos q0) j /\
     Array_get (m_timestamps q) j = Array_get (m_timestamps q0) j) /\
  (forall ch, 0 <= ch < chan ->
     Array_get (m_fifos q) ch = Some (AbstractFifo.mk size 0 0) /\
     Array_get (m_readSamples q) ch = Some 0 /\
     Array_get (m_lastReadTimestamps q) ch = Some 0 /\
     exists tab,
       Array_get (m_timestamps q) ch = Some tab /\
       Z.of_nat (length tab) = nBlocks).

(** Whenever no read session is in progress, the recorded consumed length of
    every channel is zero. *)
Definition idle_inv (q : DataQueue) : Prop :=
  m_readInProgress q = false ->
  forall chan, 0 <= chan < m_numChans q -> Array_at 0 (m_readSamples q) chan = 0.

(** The recorded lengths of the channels below [chan] are zero. *)
Definition zeroed_upto (numChans : Z) (chan : Z) (q : DataQueue) : Prop :=
  m_numChans q = numChans /\
  forall ch, 0 <= ch < chan -> Array_at 0 (m_readSamples q) ch = 0.

(** What a call returned for channel [chan], if it was a successful
    [startRead]: the window and the reconciled timestamp. *)
Definition session_of (chan : Z) (r : Result)
    : option (CircularBufferIndexes * Z) :=
  match r with
  | RStartRead true indexes timestamps =>
      idx ← Array_get indexes chan;
      ts ← Array_get timestamps chan;
      Some (idx, ts)
  | _ => None
  end.

(** The sessions of channel [chan] in a trace, in call order. *)
Definition sessions (chan : Z) (rs : list Result)
    : list (CircularBufferIndexes * Z) :=
  omap (session_of chan) rs.

(** The calls of the steady state: writes and read sessions. *)
Definition session_op (op : Op) : bool :=
  match op with
  | OpWriteChannel _ _ _ _ | OpStartRead _ | OpStopRead => true
  | OpSetChannels _ | OpResize _ => false
  end.

(** The calls whose arguments respect the assertions of the source: a
    channel count that is not negative, a positive number of blocks. *)
Definition valid_op (op : Op) : Prop :=
  match op with
  | OpSetChannels nChans => 0 <= nChans
  | OpResize nBlocks => 0 < nBlocks
  | _ => True
  end.

(** A session's read window touches no block boundary. *)
Definition no_boundary (blockSize : Z) (idx : CircularBufferIndexes) : Prop :=
  consumed idx <= blockOffset blockSize idx.

(** The sessions [ss] carry the last-read timestamp from [l0] to [l1]: a
    session without a boundary starts at the carried value, and every
    session leaves its timestamp plus its consumed length. *)
Fixpoint chained (blockSize : Z) (l0 : Z)
    (ss : list (CircularBufferIndexes * Z)) (l1 : Z) : Prop :=
  match ss with
  | [] => l1 = l0
  | (idx, ts) :: ss =>
      0 <= consumed idx /\
      (no_boundary blockSize idx -> ts = l0) /\
      chained blockSize (ts + consumed idx) ss l1
  end.

(** A call reports its rejection when something it hands back tells a
    rejected call from an accepted one. *)
Definition reports_rejection (op : Op) (rejected accepted : DataQueue) : Prop :=
  exists failed : Result -> bool,
    (forall r q', exec op rejected = Some (r, q') -> failed r = true) /\
    (forall r q', exec op accepted = Some (r, q') -> failed r = false).

(** The exact state of the loop of [resize], entered with the queue [q0],
    before the round of channel [chan]: the channels below [chan] are reset,
    the others are as they were. *)
Definition resize_exact_inv (size nBlocks : Z) (q0 : DataQueue) (chan : Z)
    (q : DataQueue) : Prop :=
  m_buffer q = m_buffer q0 /\ m_numChans q = m_numChans q0 /\
  m_blockSize q = m_blockSize q0 /\
  m_readInProgress q = m_readInProgress q0 /\
  m_numBlocks q = m_numBlocks q0 /\ m_maxSize q = m_maxSize q0 /\
  length (m_fifos q) = length (m_fifos q0) /\
  length (m_timestamps q) = length (m_timestamps q0) /\
  length (m_lastReadTimestamps q) = length (m_lastReadTimestamps q0) /\
  length (m_readSamples q) = length (m_readSamples q0) /\
  (forall j, chan <= j ->
     Array_get (m_fifos q) j = Array_get (m_fifos q0) j /\
     Array_get (m_timestamps q) j = Array_get (m_timestamps q0) j) /\
  (forall ch, 0 <= ch < chan ->
     Array_get (m_fifos q) ch = Some (AbstractFifo.mk size 0 0) /\
     Array_get (m_readSamples q) ch = Some 0 /\
     Array_get (m_lastReadTimestamps q) ch = Some 0 /\
     exists tab,
       Array_get (m_timestamps q0) ch = Some tab /\
       Array_get (m_timestamps q) ch = Some (Array_resize 0 tab nBlocks)).

(** The distance of ring position [p] from the read cursor of [f], going
    round the ring. *)
Definition ring_dist (f : AbstractFifo.t) (p : Z) : Z :=
  if AbstractFifo.validStart f <=? p then p - AbstractFifo.validStart f
  else p - AbstractFifo.validStart f + AbstractFifo.bufferSize f.

(** The sample timestamps after a write of timestamp [timestamp] through the
    windows [(i1, s1)] and [(i2, s2)]: the written positions carry the
    timestamps of their samples, one unit per sample; the others keep
    theirs. *)
Definition write_tau (tau : Z -> Z) (timestamp i1 s1 i2 s2 : Z) (p : Z) : Z :=
  if (i1 <=? p) && (p <? i1 + s1) then timestamp + (p - i1)
  else if (i2 <=? p) && (p <? i2 + s2) then timestamp + s1 + (p - i2)
  else tau p.

(** What links the tables of channel [chan] to the samples it holds, for a
    writer whose timestamps never go back.  [tau] gives the timestamp of the
    sample at each unread position and [frontier] bounds the timestamps
    written so far: along the unread data [tau] grows by at least one per
    sample, the slot of every unread block start holds the timestamp of its
    sample, the last-read timestamp has not passed the first sample that no
    session has consumed, and nothing written reaches the frontier. *)
Definition stamps_inv (chan : Z) (q : DataQueue) (tau : Z -> Z)
    (frontier : Z) : Prop :=
  exists fifo tab,
    Array_get (m_fifos q) chan = Some fifo /\
    Array_get (m_timestamps q) chan = Some tab /\
    let rs := Array_at 0 (m_readSamples q) chan in
    let last := Array_at 0 (m_lastReadTimestamps q) chan in
    let ready := AbstractFifo.getNumReady fifo in
    (m_readInProgress q = false -> rs = 0) /\
    (forall p p', holds_unread fifo p -> holds_unread fifo p' ->
       ring_dist fifo p <= ring_dist fifo p' ->
       tau p + (ring_dist fifo p' - ring_dist fifo p) <= tau p') /\
    (forall p, holds_unread fifo p -> Z.rem p (m_blockSize q) = 0 ->
       Array_get tab (Z.quot p (m_blockSize q)) = Some (tau p)) /\
    (forall p, holds_unread fifo p -> rs <= ring_dist fifo p ->
       last + (ring_dist fifo p - rs) <= tau p) /\
    (forall p, holds_unread fifo p ->
       tau p + (ready - ring_dist fifo p) <= frontier) /\
    last + (ready - rs) <= frontier.

(** A writer of channel [chan] whose timestamps never go back and whose
    writes never exceed one block: every write to the channel carries a
    timestamp at or after the end of the previous one. *)
Fixpoint disciplined (blockSize chan frontier : Z) (ops : list Op) : Prop :=
  match ops with
  | [] => True
  | OpWriteChannel _ channel nSamples timestamp :: ops =>
      if channel =? chan
      then frontier <= timestamp /\ 0 <= nSamples <= blockSize /\
           disciplined blockSize chan (timestamp + nSamples) ops
      else disciplined blockSize chan frontier ops
  | _ :: ops => disciplined blockSize chan frontier ops
  end.

(** The sessions [ss] move the last-read timestamp from [l0] to [l1] without
    ever going back: each starts at or after the end of the one before. *)
Fixpoint ordered (l0 : Z) (ss : list (CircularBufferIndexes * Z)) (l1 : Z)
    : Prop :=
  match ss with
  | [] => l1 = l0
  | (idx, ts) :: ss =>
      l0 <= ts /\ 0 <= consumed idx /\ ordered (ts + consumed idx) ss l1
  end.

(** ** Concrete queues and traces *)

(** A one-channel source buffer holding the samples [1, 2, ..., n]. *)
Definition ramp (n : nat) : AudioSampleBuffer := [map Z.of_nat (seq 1 n)].

(** One channel, blocks of 10 samples, a ring of 2 blocks. *)
Definition idle_queue : DataQueue := setChannels 1 (DataQueue_new 10 2).

(** The same queue with a read session open on the still empty channel. *)
Definition open_queue : DataQueue := with_readInProgress true idle_queue.

(** The write cursor at ring offset 3. *)
Definition offset3_queue : DataQueue :=
  mkDataQueue [[1; 2; 3; 0; 0; 0; 0; 0; 0; 0; 0; 0; 0; 0; 0; 0; 0; 0; 0; 0]]
    [AbstractFifo.mk 20 0 3] [[97; 0]] [0] [0] 1 10 false 2 20.

(** Ten samples written with timestamp 100 and not yet read. *)
Definition written10_queue : DataQueue :=
  mkDataQueue [[1; 2; 3; 4; 5; 6; 7; 8; 9; 10; 0; 0; 0; 0; 0; 0; 0; 0; 0; 0]]
    [AbstractFifo.mk 20 0 10] [[100; 0]] [0] [0] 1 10 false 2 20.

(** The queue [written10_queue] after [startRead] with a cap of 3: a session
    is open that consumed three samples. *)
Definition reading3_queue : DataQueue :=
  mkDataQueue [[1; 2; 3; 4; 5; 6; 7; 8; 9; 10; 0; 0; 0; 0; 0; 0; 0; 0; 0; 0]]
    [AbstractFifo.mk 20 0 10] [[100; 0]] [103] [3] 1 10 true 2 20.

(** One channel, blocks of 4 samples, a ring of 2 blocks. *)
Definition wrap_queue : DataQueue := setChannels 1 (DataQueue_new 4 2).

(** Two writes of 6 samples with consecutive timestamps, 1000 and
    [1000 + 6], each read back whole; the second write wraps round the
    ring. *)
Definition wrap_ops : list Op :=
  [OpWriteChannel (ramp 6) 0 6 1000; OpStartRead 0; OpStopRead;
   OpWriteChannel (ramp 6) 0 6 1006; OpStartRead 0].

(** Two channels, blocks of 10 samples, a ring of 2 blocks. *)
Definition two_channel_queue : DataQueue := setChannels 2 (DataQueue_new 10 2).

(** A source buffer whose channel 1 holds three samples. *)
Definition second_source : AudioSampleBuffer := [[]; [7; 8; 9]].

(** Configuration of one channel, a write of ten samples and the opening of
    a capped session. *)
Definition setup_ops : list Op :=
  [OpSetChannels 1; OpWriteChannel (ramp 10) 0 10 100; OpStartRead 3].

(** One write of ten samples, then two sessions capped at three samples
    each. *)
Definition capped_ops : list Op :=
  [OpWriteChannel (ramp 10) 0 10 100; OpStartRead 3; OpStopRead; OpStartRead 3].

(** Two aligned writes of one block each, the second with a smaller
    timestamp than the first, each followed by a session that reads
    everything. *)
Definition backwards_ops : list Op :=
  [OpWriteChannel (ramp 10) 0 10 100; OpStartRead 0; OpStopRead;
   OpWriteChannel (ramp 10) 0 10 50; OpStartRead 0].

(** One write of 20 samples that spans two blocks, read back in two sessions
    of 10 samples each. *)
Definition two_block_ops : list Op :=
  [OpWriteChannel (ramp 20) 0 20 100; OpStartRead 10; OpStopRead;
   OpStartRead 10].

(** Two writes of less than a block each with consecutive timestamps, each
    followed by a session that reads everything. *)
Definition steady_ops : list Op :=
  [OpWriteChannel (ramp 7) 0 7 100; OpStartRead 0; OpStopRead;
   OpWriteChannel (ramp 8) 0 8 107; OpStartRead 0; OpStopRead].

(** ** Array lemmas *)

Section ArrayLemmas.
Context {A : Type}.
Implicit Types (a : list A) (i j : Z).

Lemma Array_get_lookup a i :
  0 <= i -> Array_get a i = a !! Z.to_nat i.
Proof. intros Hi. unfold Array_get. destruct (Z.ltb_spec i 0); [lia | done]. Qed.

Lemma Array_get_Some_range a i x :
  Array_get a i = Some x -> 0 <= i < Z.of_nat (length a).
Proof.
  unfold Array_get. destruct (Z.ltb_spec i 0); [done |].
  intros Hl. apply lookup_lt_Some in Hl. lia.
Qed.

Lemma Array_get_is_Some a i :
  0 <= i < Z.of_nat (length a) -> exists x, Array_get a i = Some x.
Proof.
  intros Hi. rewrite Array_get_lookup by lia.
  destruct (lookup_lt_is_Some_2 a (Z.to_nat i)) as [x Hx]; [lia | eauto].
Qed.

Lemma Array_get_None a i :
  i < 0 \/ Z.of_nat (length a) <= i -> Array_get a i = None.
Proof.
  intros Hi. unfold Array_get. destruct (Z.ltb_spec i 0); [done |].
  apply lookup_ge_None. lia.
Qed.

Lemma Array_set_in_range a i v :
  0 <= i < Z.of_nat (length a) -> Array_set a i v = <[Z.to_nat i := v]> a.
Proof.
  intros Hi. unfold Array_set.
  destruct (Z.ltb_spec i 0); [lia |].
  destruct (Z.ltb_spec i (Z.of_nat (length a))); [done | lia].
Qed.

Lemma Array_set_length a i v :
  0 <= i < Z.of_nat (length a) -> length (Array_set a i v) = length a.
Proof. intros Hi. rewrite Array_set_in_range by done. apply length_insert. Qed.

Lemma Array_get_set_eq a i v :
  0 <= i < Z.of_nat (length a) -> Array_get (Array_set a i v) i = Some v.
Proof.
  intros Hi. rewrite Array_set_in_range, Array_get_lookup by lia.
  apply list_lookup_insert_eq. lia.
Qed.

Lemma Array_get_set_ne a i j v :
  0 <= i < Z.of_nat (length a) -> i <> j ->
  Array_get (Array_set a i v) j = Array_get a j.
Proof.
  intros Hi Hne. rewrite Array_set_in_range by lia.
  unfold Array_get. destruct (Z.ltb_spec j 0); [done |].
  apply list_lookup_insert_ne. lia.
Qed.

Lemma Array_get_insert_eq a i v :
  0 <= i < Z.of_nat (length a) ->
  Array_get (<[Z.to_nat i := v]> a) i = Some v.
Proof.
  intros Hi. rewrite Array_get_lookup by lia.
  apply list_lookup_insert_eq. lia.
Qed.

Lemma Array_get_insert_ne a i j v :
  0 <= i -> i <> j ->
  Array_get (<[Z.to_nat i := v]> a) j = Array_get a j.
Proof.
  intros Hi Hne. unfold Array_get. destruct (Z.ltb_spec j 0); [done |].
  apply list_lookup_insert_ne. lia.
Qed.

Lemma Array_at_set_eq d a i v :
  0 <= i < Z.of_nat (length a) -> Array_at d (Array_set a i v) i = v.
Proof. intros Hi. unfold Array_at. by rewrite Array_get_set_eq. Qed.

Lemma Array_at_set_ne d a i j v :
  0 <= i < Z.of_nat (length a) -> i <> j ->
  Array_at d (Array_set a i v) j = Array_at d a j.
Proof. intros Hi Hne. unfold Array_at. by rewrite Array_get_set_ne. Qed.

(** Storing the default value keeps every entry that reads as the default,
    whether the call replaces or appends. *)
Lemma Array_at_set_default d a i j :
  Array_at d a j = d -> Array_at d (Array_set a i d) j = d.
Proof.
  intros Hj. unfold Array_set.
  destruct (Z.ltb_spec i 0); [done |].
  destruct (Z.ltb_spec i (Z.of_nat (length a))).
  - destruct (decide (i = j)) as [-> | Hne].
    + unfold Array_at. by rewrite Array_get_insert_eq.
    + unfold Array_at. by rewrite Array_get_insert_ne.
  - unfold Array_at, Array_get in *.
    destruct (Z.ltb_spec j 0); [done |].
    destruct (decide (Z.to_nat j < length a)%nat).
    + by rewrite lookup_app_l.
    + rewrite lookup_app_r by lia.
      destruct (Z.to_nat j - length a)%nat; [done |].
      by rewrite lookup_cons, lookup_nil.
Qed.

Lemma Array_at_set_default_eq d a i :
  Array_at d (Array_set a i d) i = d.
Proof.
  unfold Array_set.
  destruct (Z.ltb_spec i 0).
  - unfold Array_at. by rewrite Array_get_None by lia.
  - destruct (Z.ltb_spec i (Z.of_nat (length a))).
    + unfold Array_at. by rewrite Array_get_insert_eq.
    + unfold Array_at. rewrite Array_get_lookup by lia.
      rewrite lookup_app_r by lia.
      destruct (Z.to_nat i - length a)%nat; [done |].
      by rewrite lookup_cons, lookup_nil.
Qed.
End ArrayLemmas.

(** ** The allocator meets its contract *)

Ltac fifo_cases :=
  repeat match goal with
    | |- context [Z.leb ?a ?b] => destruct (Z.leb_spec a b)
    | |- context [Z.ltb ?a ?b] => destruct (Z.ltb_spec a b)
    | H : context [Z.leb ?a ?b] |- _ => destruct (Z.leb_spec a b)
    | H : context [Z.ltb ?a ?b] |- _ => destruct (Z.ltb_spec a b)
    end.

Ltac fifo_unfold :=
  unfold AbstractFifo.wf, AbstractFifo.getFreeSpace, AbstractFifo.getNumReady,
    AbstractFifo.prepareToWrite, AbstractFifo.prepareToRead,
    AbstractFifo.finishedWrite, AbstractFifo.finishedRead, holds_unread,
    in_window in *;
  simpl in *.

Lemma fifo_numReady_range f :
  AbstractFifo.wf f ->
  0 <= AbstractFifo.getNumReady f <= AbstractFifo.bufferSize f - 1.
Proof. fifo_unfold. intros. fifo_cases; lia. Qed.

Lemma fifo_freeSpace_range f :
  AbstractFifo.wf f ->
  0 <= AbstractFifo.getFreeSpace f <= AbstractFifo.bufferSize f - 1.
Proof. fifo_unfold. intros. fifo_cases; lia. Qed.

Lemma fifo_create_wf capacity :
  0 < capacity -> AbstractFifo.wf (AbstractFifo.create capacity).
Proof. unfold AbstractFifo.wf. simpl. lia. Qed.

(** The granted write windows: their total is the request cut down to the
    free space, the first starts at the write cursor and stays inside the
    ring, the second starts at 0 and is used only when the first reaches the
    end of the ring. *)
Lemma fifo_prepareToWrite_spec f n i1 s1 i2 s2 :
  AbstractFifo.wf f ->
  AbstractFifo.prepareToWrite f n = (i1, s1, i2, s2) ->
  0 <= s1 /\ 0 <= s2 /\
  s1 + s2 = Z.max 0 (Z.min n (AbstractFifo.getFreeSpace f)) /\
  0 <= i1 /\ i1 + s1 <= AbstractFifo.bufferSize f /\
  i2 = 0 /\ i2 + s2 <= AbstractFifo.bufferSize f /\
  (0 < s1 + s2 -> i1 = AbstractFifo.validEnd f /\ 0 < s1) /\
  (0 < s2 -> i1 + s1 = AbstractFifo.bufferSize f).
Proof.
  fifo_unfold. intros Hwf Hp.
  fifo_cases; inversion Hp; subst; clear Hp; lia.
Qed.

(** No granted write position holds unread data. *)
Lemma fifo_prepareToWrite_free f n i1 s1 i2 s2 p :
  AbstractFifo.wf f ->
  AbstractFifo.prepareToWrite f n = (i1, s1, i2, s2) ->
  in_window i1 s1 p \/ in_window i2 s2 p ->
  ~ holds_unread f p.
Proof.
  fifo_unfold. intros Hwf Hp Hin.
  fifo_cases; inversion Hp; subst; clear Hp; lia.
Qed.

(** Committing a write moves the write cursor forward by the written total
    and leaves the read cursor alone. *)
Lemma fifo_finishedWrite_spec f n :
  AbstractFifo.wf f ->
  0 <= n <= AbstractFifo.getFreeSpace f ->
  AbstractFifo.wf (AbstractFifo.finishedWrite f n) /\
  AbstractFifo.getNumReady (AbstractFifo.finishedWrite f n)
    = AbstractFifo.getNumReady f + n /\
  AbstractFifo.validStart (AbstractFifo.finishedWrite f n)
    = AbstractFifo.validStart f /\
  AbstractFifo.bufferSize (AbstractFifo.finishedWrite f n)
    = AbstractFifo.bufferSize f.
Proof. fifo_unfold. intros Hwf Hn. fifo_cases; lia. Qed.

(** The granted read windows: their total is the request cut down to what is
    ready. *)
Lemma fifo_prepareToRead_spec f n i1 s1 i2 s2 :
  AbstractFifo.wf f ->
  AbstractFifo.prepareToRead f n = (i1, s1, i2, s2) ->
  0 <= s1 /\ 0 <= s2 /\
  s1 + s2 = Z.max 0 (Z.min n (AbstractFifo.getNumReady f)) /\
  0 <= i1 /\ i1 + s1 <= AbstractFifo.bufferSize f /\
  i2 = 0 /\ i2 + s2 <= AbstractFifo.bufferSize f /\
  (0 < s1 + s2 -> i1 = AbstractFifo.validStart f /\ 0 < s1) /\
  (0 < s2 -> i1 + s1 = AbstractFifo.bufferSize f).
Proof.
  fifo_unfold. intros Hwf Hp.
  fifo_cases; inversion Hp; subst; clear Hp; lia.
Qed.

(** Committing a read moves the read cursor forward by the read total. *)
Lemma fifo_finishedRead_spec f n :
  AbstractFifo.wf f ->
  0 <= n <= AbstractFifo.getNumReady f ->
  AbstractFifo.wf (AbstractFifo.finishedRead f n) /\
  AbstractFifo.getNumReady (AbstractFifo.finishedRead f n)
    = AbstractFifo.getNumReady f - n /\
  AbstractFifo.validEnd (AbstractFifo.finishedRead f n)
    = AbstractFifo.validEnd f /\
  AbstractFifo.bufferSize (AbstractFifo.finishedRead f n)
    = AbstractFifo.bufferSize f.
Proof. fifo_unfold. intros Hwf Hn. fifo_cases; lia. Qed.

(** ** Copying into a sample row *)

Lemma copy_range_length dst ds src ss n :
  (ds + n <= length dst)%nat -> (ss + n <= length src)%nat ->
  length (copy_range dst ds src ss n) = length dst.
Proof.
  intros Hd Hs. unfold copy_range.
  rewrite !length_app, !length_take, !length_drop. lia.
Qed.

Lemma copy_range_lookup_in dst ds src ss n k :
  (ds + n <= length dst)%nat -> (ss + n <= length src)%nat -> (k < n)%nat ->
  copy_range dst ds src ss n !! (ds + k)%nat = src !! (ss + k)%nat.
Proof.
  intros Hd Hs Hk. unfold copy_range.
  rewrite lookup_app_r by (rewrite length_take; lia).
  rewrite length_take.
  replace (ds + k - ds `min` length dst)%nat with k by lia.
  rewrite lookup_app_l by (rewrite length_take, length_drop; lia).
  rewrite lookup_take_lt by lia. by rewrite lookup_drop.
Qed.

Lemma copy_range_lookup_out dst ds src ss n p :
  (ds + n <= length dst)%nat -> (ss + n <= length src)%nat ->
  (p < ds \/ ds + n <= p)%nat ->
  copy_range dst ds src ss n !! p = dst !! p.
Proof.
  intros Hd Hs Hp. unfold copy_range.
  destruct (decide (p < ds)%nat).
  - rewrite lookup_app_l by (rewrite length_take; lia).
    by rewrite lookup_take_lt by lia.
  - rewrite lookup_app_r by (rewrite length_take; lia).
    rewrite lookup_app_r by (rewrite !length_take, length_drop; lia).
    rewrite lookup_drop, !length_take, length_drop. f_equal. lia.
Qed.

Lemma copy_range_nothing dst ds src ss :
  copy_range dst ds src ss 0 = dst.
Proof.
  unfold copy_range. rewrite take_0, Nat.add_0_r. simpl. apply take_drop.
Qed.

Lemma copyFrom_spec dest c ds source sc ss n drow srow :
  Array_get dest c = Some drow ->
  Array_get source sc = Some srow ->
  0 <= n -> 0 <= ds -> ds + n <= Z.of_nat (length drow) ->
  0 <= ss -> ss + n <= Z.of_nat (length srow) ->
  copyFrom dest c ds source sc ss n
  = Some (<[Z.to_nat c := copy_range drow (Z.to_nat ds) srow (Z.to_nat ss)
                            (Z.to_nat n)]> dest).
Proof.
  intros Hd Hs Hn Hds Hdn Hss Hsn. unfold copyFrom.
  destruct (Z.leb_spec n 0) as [Hle | Hlt].
  - replace n with 0 by lia. simpl. rewrite copy_range_nothing.
    rewrite list_insert_id; [done |].
    pose proof (Array_get_Some_range _ _ _ Hd).
    by rewrite <- Array_get_lookup by lia.
  - rewrite Hd, Hs. simpl.
    destruct (Z.leb_spec 0 ds); [| lia].
    destruct (Z.leb_spec (ds + n) (Z.of_nat (length drow))); [| lia].
    destruct (Z.leb_spec 0 ss); [| lia].
    destruct (Z.leb_spec (ss + n) (Z.of_nat (length srow))); [| lia].
    done.
Qed.

(** ** The stamping loop *)

Section FillLoop.
Variables (blockSize index size startTimestamp blockStartPos blockIdx : Z).

Local Abbreviation loop fuel :=
  (fill_loop fuel blockSize index size startTimestamp blockStartPos blockIdx).

(** [size] rounds are enough: further fuel changes nothing. *)
Lemma fill_loop_fuel fuel extra i tab :
  0 < blockSize -> size - i <= Z.of_nat fuel ->
  loop (fuel + extra)%nat i tab = loop fuel i tab.
Proof.
  intros Hbs. revert i tab.
  induction fuel as [| fuel IH]; intros i tab Hfuel; simpl.
  - destruct extra; simpl; [done |].
    destruct (Z.ltb_spec i size); [lia | done].
  - destruct (Z.ltb_spec i size); [| done].
    apply IH. lia.
Qed.

(** The loop writes to slot [blockIdx] only. *)
Lemma fill_loop_other_slots fuel i tab j :
  0 <= blockIdx < Z.of_nat (length tab) -> j <> blockIdx ->
  Array_get (loop fuel i tab) j = Array_get tab j.
Proof.
  intros Hidx Hne. revert i tab Hidx.
  induction fuel as [| fuel IH]; intros i tab Hidx; simpl; [done |].
  destruct (Z.ltb_spec i size); [| done].
  destruct (Z.ltb_spec (blockStartPos + i) (index + size)).
  - rewrite IH by (rewrite Array_set_length; lia).
    apply Array_get_set_ne; [lia | done].
  - by apply IH.
Qed.

Lemma fill_loop_length fuel i tab :
  0 <= blockIdx < Z.of_nat (length tab) ->
  length (loop fuel i tab) = length tab.
Proof.
  revert i tab.
  induction fuel as [| fuel IH]; intros i tab Hidx; simpl; [done |].
  destruct (Z.ltb_spec i size); [| done].
  destruct (Z.ltb_spec (blockStartPos + i) (index + size)).
  - rewrite IH by (rewrite Array_set_length; lia).
    apply Array_set_length; lia.
  - by apply IH.
Qed.

(** When the first block start lies beyond the window nothing is stamped. *)
Lemma fill_loop_beyond fuel i tab :
  0 < blockSize -> 0 <= i -> index + size <= blockStartPos ->
  loop fuel i tab = tab.
Proof.
  intros Hbs. revert i tab.
  induction fuel as [| fuel IH]; intros i tab Hi Hout; simpl; [done |].
  destruct (Z.ltb_spec i size); [| done].
  destruct (Z.ltb_spec (blockStartPos + i) (index + size)); [lia |].
  apply IH; lia.
Qed.

(** A window of at most one block takes one round. *)
Lemma fill_loop_one_round fuel tab :
  0 < size <= blockSize -> (0 < fuel)%nat ->
  loop fuel 0 tab
  = if blockStartPos <? index + size
    then Array_set tab blockIdx startTimestamp
    else tab.
Proof.
  intros Hsize Hfuel. destruct fuel as [| fuel]; [lia |]. simpl.
  destruct (Z.ltb_spec 0 size); [| lia].
  rewrite Z.add_0_r, Z.mul_0_l, Z.add_0_r.
  destruct fuel; simpl; [done |].
  destruct (Z.ltb_spec (0 + blockSize) size); [lia | done].
Qed.
End FillLoop.

Lemma fill_table_empty blockSize index size timestamp tab :
  size <= 0 -> fill_table blockSize index size timestamp tab = tab.
Proof.
  intros Hs. unfold fill_table.
  replace (Z.to_nat size) with 0%nat by lia.
  by destruct (Z.rem index blockSize =? 0).
Qed.

(** Stamping a window that lies inside the ring keeps the table length. *)
Lemma fill_table_length blockSize numBlocks index size timestamp tab :
  0 < blockSize -> 0 <= index -> index + size <= blockSize * numBlocks ->
  Z.of_nat (length tab) = numBlocks ->
  length (fill_table blockSize index size timestamp tab) = length tab.
Proof.
  intros Hbs Hidx Hwin Hlen.
  destruct (Z.le_gt_cases size 0) as [Hs | Hs].
  { by rewrite fill_table_empty. }
  unfold fill_table.
  rewrite Z.rem_mod_nonneg, Z.quot_div_nonneg by lia.
  pose proof (Z.div_mod index blockSize ltac:(lia)) as Hdm.
  pose proof (Z.mod_pos_bound index blockSize Hbs) as Hmod.
  assert (0 <= index `div` blockSize) as Hq by (apply Z.div_pos; lia).
  destruct (Z.eqb_spec (index `mod` blockSize) 0) as [Hz | Hnz].
  - apply fill_loop_length. split; [done |].
    rewrite Hlen. apply Z.div_lt_upper_bound; lia.
  - destruct (Z.lt_ge_cases (index `div` blockSize + 1) numBlocks) as [Hin | Hout].
    + apply fill_loop_length. lia.
    + rewrite fill_loop_beyond; [done | lia | lia | nia].
Qed.

(** ** The write path *)

Lemma fillTimestamps_spec channel index size timestamp q tab :
  0 < m_blockSize q ->
  Array_get (m_timestamps q) channel = Some tab ->
  fillTimestamps channel index size timestamp q
  = Some (with_timestamps
            (<[Z.to_nat channel :=
                 fill_table (m_blockSize q) index size timestamp tab]>
               (m_timestamps q)) q).
Proof.
  intros Hbs Htab. unfold fillTimestamps.
  destruct (Z.eqb_spec (m_blockSize q) 0); [lia |].
  destruct (Z.ltb_spec (m_blockSize q) 0); [lia |]. simpl.
  destruct (Z.leb_spec size 0).
  - rewrite fill_table_empty by done.
    pose proof (Array_get_Some_range _ _ _ Htab).
    rewrite list_insert_id by (by rewrite <- Array_get_lookup by lia).
    by destruct q.
  - by rewrite Htab.
Qed.

Lemma writeChannel_spec buffer channel nSamples timestamp q
    fifo row tab srow i1 s1 i2 s2 :
  queue_wf q ->
  Array_get (m_fifos q) channel = Some fifo ->
  Array_get (m_buffer q) channel = Some row ->
  Array_get (m_timestamps q) channel = Some tab ->
  Array_get buffer channel = Some srow ->
  nSamples <= Z.of_nat (length srow) ->
  AbstractFifo.prepareToWrite fifo nSamples = (i1, s1, i2, s2) ->
  writeChannel buffer channel nSamples timestamp q
  = Some (written q channel
            (copy_range
               (copy_range row (Z.to_nat i1) srow 0 (Z.to_nat s1))
               (Z.to_nat i2) srow (Z.to_nat s1) (Z.to_nat s2))
            (AbstractFifo.finishedWrite fifo (s1 + s2))
            (fill_table (m_blockSize q) i2 s2 (timestamp + s1)
               (fill_table (m_blockSize q) i1 s1 timestamp tab))).
Proof.
  intros Hwf Hfifo Hrow Htab Hsrow Hlen Hprep.
  pose proof (Array_get_Some_range _ _ _ Hfifo) as Hc.
  assert (AbstractFifo.wf fifo /\ AbstractFifo.bufferSize fifo = m_maxSize q)
    as [Hfwf Hfsize].
  { rewrite Array_get_lookup in Hfifo by lia.
    exact (Forall_lookup_1 _ _ _ _ (wf_fifo q Hwf) Hfifo). }
  assert (Z.of_nat (length row) = m_maxSize q) as Hrowlen.
  { rewrite Array_get_lookup in Hrow by lia.
    exact (Forall_lookup_1 _ _ _ _ (wf_rows q Hwf) Hrow). }
  destruct (fifo_prepareToWrite_spec _ _ _ _ _ _ Hfwf Hprep)
    as (Hs1 & Hs2 & Htot & Hi1 & Hw1 & Hi2 & Hw2 & _ & _).
  pose proof (fifo_freeSpace_range _ Hfwf) as Hfree.
  unfold writeChannel. rewrite Hfifo. simpl. rewrite Hprep.
  pose proof (wf_blockSize q Hwf) as Hbs.
  pose proof (wf_len_buffer q Hwf) as Hlb.
  pose proof (wf_len_fifos q Hwf) as Hlf.
  pose proof (wf_len_timestamps q Hwf) as Hlt.
  rewrite (copyFrom_spec _ _ _ _ _ _ _ row srow) by (done || lia). simpl.
  rewrite (fillTimestamps_spec _ _ _ _ _ tab) by done. simpl.
  set (row1 := copy_range row (Z.to_nat i1) srow (Z.to_nat 0) (Z.to_nat s1)).
  assert (length row1 = length row) as Hrow1len.
  { apply copy_range_length; lia. }
  destruct (Z.ltb_spec 0 s2) as [Hpos | Hzero].
  - rewrite (copyFrom_spec _ _ _ _ _ _ _ row1 srow);
      [| apply Array_get_insert_eq; lia | done | lia ..].
    simpl.
    rewrite (fillTimestamps_spec _ _ _ _ _
               (fill_table (m_blockSize q) i1 s1 timestamp tab));
      [| done | simpl; apply Array_get_insert_eq; lia].
    simpl. unfold written. by rewrite !list_insert_insert_eq.
  - replace s2 with 0 by lia. simpl.
    rewrite copy_range_nothing, (fill_table_empty _ i2 0) by lia. done.
Qed.

Lemma copyFrom_inv dest c ds source sc ss n dest' drow :
  copyFrom dest c ds source sc ss n = Some dest' ->
  Array_get dest c = Some drow ->
  exists row', dest' = <[Z.to_nat c := row']> dest /\ length row' = length drow.
Proof.
  unfold copyFrom. intros Hcopy Hd.
  pose proof (Array_get_Some_range _ _ _ Hd) as Hc.
  destruct (Z.leb_spec n 0).
  - inversion Hcopy; subst. exists drow. split; [| done].
    symmetry. apply list_insert_id. by rewrite <- Array_get_lookup by lia.
  - rewrite Hd in Hcopy. simpl in Hcopy.
    destruct (Array_get source sc) as [srow |]; [| done]. simpl in Hcopy.
    destruct (Z.leb_spec 0 ds); [| done].
    destruct (Z.leb_spec (ds + n) (Z.of_nat (length drow))); [| done].
    destruct (Z.leb_spec 0 ss); [| done].
    destruct (Z.leb_spec (ss + n) (Z.of_nat (length srow))); [| done].
    inversion Hcopy; subst. eexists. split; [done |].
    apply copy_range_length; lia.
Qed.

(** A successful write has the shape of [written]; the new row has the old
    length. *)
Lemma writeChannel_inv buffer channel nSamples timestamp q q' :
  queue_wf q ->
  writeChannel buffer channel nSamples timestamp q = Some q' ->
  exists fifo row tab row' i1 s1 i2 s2,
    Array_get (m_fifos q) channel = Some fifo /\
    Array_get (m_buffer q) channel = Some row /\
    Array_get (m_timestamps q) channel = Some tab /\
    AbstractFifo.prepareToWrite fifo nSamples = (i1, s1, i2, s2) /\
    length row' = length row /\
    q' = written q channel row'
           (AbstractFifo.finishedWrite fifo (s1 + s2))
           (fill_table (m_blockSize q) i2 s2 (timestamp + s1)
              (fill_table (m_blockSize q) i1 s1 timestamp tab)).
Proof.
  intros Hwf Hw. unfold writeChannel in Hw.
  destruct (Array_get (m_fifos q) channel) as [fifo |] eqn:Hfifo; [| done].
  simpl in Hw.
  pose proof (Array_get_Some_range _ _ _ Hfifo) as Hc.
  pose proof (wf_blockSize q Hwf) as Hbs.
  pose proof (wf_len_buffer q Hwf) as Hlb.
  pose proof (wf_len_fifos q Hwf) as Hlf.
  pose proof (wf_len_timestamps q Hwf) as Hlt.
  destruct (Array_get_is_Some (m_buffer q) channel) as [row Hrow]; [lia |].
  destruct (Array_get_is_Some (m_timestamps q) channel) as [tab Htab]; [lia |].
  destruct (AbstractFifo.prepareToWrite fifo nSamples)
    as [[[i1 s1] i2] s2] eqn:Hprep.
  exists fifo, row, tab.
  destruct (copyFrom (m_buffer q) channel i1 buffer channel 0 s1)
    as [buf1 |] eqn:Hc1; [| done].
  simpl in Hw.
  destruct (copyFrom_inv _ _ _ _ _ _ _ _ _ Hc1 Hrow) as (row1 & -> & Hlen1).
  rewrite (fillTimestamps_spec _ _ _ _ _ tab) in Hw by done. simpl in Hw.
  destruct (Z.ltb_spec 0 s2) as [Hpos | Hzero].
  - destruct (copyFrom (<[Z.to_nat channel:=row1]> (m_buffer q)) channel i2
                buffer channel s1 s2) as [buf2 |] eqn:Hc2; [| done].
    simpl in Hw.
    destruct (copyFrom_inv _ _ _ _ _ _ _ _ row1 Hc2) as (row2 & -> & Hlen2).
    { apply Array_get_insert_eq; lia. }
    rewrite (fillTimestamps_spec _ _ _ _ _
               (fill_table (m_blockSize q) i1 s1 timestamp tab)) in Hw;
      [| done | simpl; apply Array_get_insert_eq; lia].
    simpl in Hw. inversion Hw; subst; clear Hw.
    exists row2, i1, s1, i2, s2. split_and!; try done; try congruence.
    unfold written, with_fifos, with_timestamps, with_buffer. simpl.
    f_equal; apply list_insert_insert_eq.
  - simpl in Hw. inversion Hw; subst; clear Hw.
    exists row1, i1, s1, i2, s2. split_and!; try done.
    by rewrite (fill_table_empty _ i2 s2) by lia.
Qed.

Lemma written_wf q channel fifo row tab row' fifo' tab' :
  queue_wf q ->
  Array_get (m_fifos q) channel = Some fifo ->
  Array_get (m_buffer q) channel = Some row ->
  Array_get (m_timestamps q) channel = Some tab ->
  length row' = length row ->
  length tab' = length tab ->
  AbstractFifo.wf fifo' ->
  AbstractFifo.bufferSize fifo' = AbstractFifo.bufferSize fifo ->
  AbstractFifo.getNumReady fifo <= AbstractFifo.getNumReady fifo' ->
  queue_wf (written q channel row' fifo' tab').
Proof.
  intros Hwf Hfifo Hrow Htab Hlr Hlt Hfwf Hfsize Hready.
  pose proof (Array_get_Some_range _ _ _ Hfifo) as Hc.
  rewrite Array_get_lookup in Hrow, Htab by lia.
  destruct Hwf as [? ? ? ? ? ? ? ? Hrows Hfifos Htabs Hreads].
  split; simpl; rewrite ?length_insert; try done.
  - apply Forall_insert; [done |].
    rewrite Hlr. exact (Forall_lookup_1 _ _ _ _ Hrows Hrow).
  - apply Forall_insert; [done |]. split; [done |]. rewrite Hfsize.
    rewrite Array_get_lookup in Hfifo by lia.
    exact (proj2 (Forall_lookup_1 _ _ _ _ Hfifos Hfifo)).
  - apply Forall_insert; [done |].
    rewrite Hlt. exact (Forall_lookup_1 _ _ _ _ Htabs Htab).
  - intros chan f Hf. destruct (decide (channel = chan)) as [<- | Hne].
    + rewrite Array_get_insert_eq in Hf by lia. inversion Hf; subst.
      pose proof (Hreads _ _ Hfifo). lia.
    + rewrite Array_get_insert_ne in Hf by lia. by apply Hreads.
Qed.

Lemma writeChannel_wf buffer channel nSamples timestamp q q' :
  queue_wf q ->
  writeChannel buffer channel nSamples timestamp q = Some q' ->
  queue_wf q'.
Proof.
  intros Hwf Hw.
  destruct (writeChannel_inv _ _ _ _ _ _ Hwf Hw)
    as (fifo & row & tab & row' & i1 & s1 & i2 & s2
        & Hfifo & Hrow & Htab & Hprep & Hlen & ->).
  pose proof (Array_get_Some_range _ _ _ Hfifo) as Hc.
  assert (AbstractFifo.wf fifo /\ AbstractFifo.bufferSize fifo = m_maxSize q)
    as [Hfwf Hfsize].
  { rewrite Array_get_lookup in Hfifo by lia.
    exact (Forall_lookup_1 _ _ _ _ (wf_fifo q Hwf) Hfifo). }
  assert (Z.of_nat (length tab) = m_numBlocks q) as Htablen.
  { rewrite Array_get_lookup in Htab by lia.
    exact (Forall_lookup_1 _ _ _ _ (wf_tabs q Hwf) Htab). }
  destruct (fifo_prepareToWrite_spec _ _ _ _ _ _ Hfwf Hprep)
    as (Hs1 & Hs2 & Htot & Hi1 & Hw1 & Hi2 & Hw2 & _ & _).
  pose proof (fifo_freeSpace_range _ Hfwf) as Hfree.
  pose proof (wf_blockSize q Hwf) as Hbs.
  pose proof (wf_maxSize q Hwf) as Hmax.
  destruct (fifo_finishedWrite_spec fifo (s1 + s2) Hfwf ltac:(lia))
    as (Hwf' & Hready & _ & Hsize').
  assert (length (fill_table (m_blockSize q) i1 s1 timestamp tab) = length tab)
    as Hl1 by (apply (fill_table_length _ (m_numBlocks q)); lia).
  eapply written_wf; try done; [| lia].
  by rewrite (fill_table_length _ (m_numBlocks q)) by lia.
Qed.

(** ** Channel loops *)

Lemma for_chans_inv {S : Type} (P : Z -> S -> Prop) body n c s s' :
  P c s ->
  (forall chan s0 s1, c <= chan < c + Z.of_nat n ->
     P chan s0 -> body chan s0 = Some s1 -> P (chan + 1) s1) ->
  for_chans n c body s = Some s' ->
  P (c + Z.of_nat n) s'.
Proof.
  revert c s. induction n as [| n IH]; intros c s Hinit Hstep Hrun; simpl in Hrun.
  - inversion Hrun; subst. by rewrite Z.add_0_r.
  - destruct (body c s) as [s1 |] eqn:Hbody; [| done]. simpl in Hrun.
    replace (c + Z.of_nat (Datatypes.S n)) with (c + 1 + Z.of_nat n) by lia.
    apply (IH (c + 1) s1); [| | done].
    + apply (Hstep c s); [lia | done | done].
    + intros chan s0 s2 Hchan. apply Hstep. lia.
Qed.

Lemma for_chans_total {S : Type} (P : Z -> S -> Prop) body n c s :
  P c s ->
  (forall chan s0, c <= chan < c + Z.of_nat n -> P chan s0 ->
     exists s1, body chan s0 = Some s1 /\ P (chan + 1) s1) ->
  exists s', for_chans n c body s = Some s' /\ P (c + Z.of_nat n) s'.
Proof.
  revert c s. induction n as [| n IH]; intros c s Hinit Hstep; simpl.
  - exists s. by rewrite Z.add_0_r.
  - destruct (Hstep c s ltac:(lia) Hinit) as (s1 & Hbody & Hs1).
    rewrite Hbody. simpl.
    replace (c + Z.of_nat (Datatypes.S n)) with (c + 1 + Z.of_nat n) by lia.
    apply IH; [done |].
    intros chan s0 Hchan. apply Hstep. lia.
Qed.

Lemma for_chans_ext {S : Type} (body1 body2 : Z -> S -> option S) n c s :
  (forall chan s0, body1 chan s0 = body2 chan s0) ->
  for_chans n c body1 s = for_chans n c body2 s.
Proof.
  intros Hext. revert c s. induction n as [| n IH]; intros c s; simpl; [done |].
  rewrite Hext. destruct (body2 c s); simpl; [apply IH | done].
Qed.

(** ** Read sessions *)

Lemma read_frame_refl q : read_frame q q.
Proof. by repeat split. Qed.

Lemma chan_session_frame q q' nMax chan idx ts :
  read_frame q q' ->
  Array_at 0 (m_lastReadTimestamps q') chan
  = Array_at 0 (m_lastReadTimestamps q) chan ->
  chan_session q' nMax chan idx ts -> chan_session q nMax chan idx ts.
Proof.
  intros (_ & Hf & Ht & _ & Hbs & Hnb & _) Hlast.
  unfold chan_session. by rewrite Hf, Ht, Hbs, Hnb, Hlast.
Qed.

Lemma startRead_chan_spec nMax chan q indexes timestamps q1 indexes1 timestamps1 :
  startRead_chan nMax chan (q, indexes, timestamps)
  = Some (q1, indexes1, timestamps1) ->
  exists idx ts,
    chan_session q nMax chan idx ts /\
    indexes1 = indexes ++ [idx] /\
    timestamps1 = timestamps ++ [ts] /\
    q1 = with_lastReadTimestamps
           (Array_set (m_lastReadTimestamps q) chan (ts + size1 idx + size2 idx))
           (with_readSamples
              (Array_set (m_readSamples q) chan (size1 idx + size2 idx)) q).
Proof.
  unfold startRead_chan. intros Hbody.
  destruct (Array_get (m_fifos q) chan) as [fifo |] eqn:Hfifo; [| done].
  simpl in Hbody.
  destruct (AbstractFifo.prepareToRead fifo _) as [[[i1 s1] i2] s2] eqn:Hprep.
  simpl in Hbody.
  destruct (Z.eqb_spec (m_blockSize q) 0) as [| Hbs]; [done |].
  match type of Hbody with
  | (if ?d <? _ then _ else _) = _ => set (blockDiff := d) in *
  end.
  destruct (Z.ltb_spec blockDiff (s1 + s2)) as [Hin | Hout].
  - destruct (Z.eqb_spec (m_numBlocks q) 0) as [| Hnb]; [done |].
    destruct (Array_get (m_timestamps q) chan) as [tab |] eqn:Htab; [| done].
    simpl in Hbody.
    destruct (Array_get tab _) as [stamp |] eqn:Hstamp; [| done].
    simpl in Hbody. inversion Hbody; subst; clear Hbody.
    exists (mkIndexes i1 s1 i2 s2), (stamp - blockDiff).
    split_and!; try done.
    exists fifo. split_and!; try done.
    + intros _. by exists tab, stamp.
    + unfold consumed, blockOffset. simpl. fold blockDiff. lia.
  - inversion Hbody; subst; clear Hbody.
    exists (mkIndexes i1 s1 i2 s2), (Array_at 0 (m_lastReadTimestamps q) chan).
    split_and!; try done.
    exists fifo. split_and!; try done.
    unfold consumed, blockOffset. simpl. fold blockDiff. lia.
Qed.

Lemma Array_get_app_l {A : Type} (a b : list A) i :
  i < Z.of_nat (length a) -> Array_get (a ++ b) i = Array_get a i.
Proof.
  intros Hi. unfold Array_get. destruct (Z.ltb_spec i 0); [done |].
  apply lookup_app_l. lia.
Qed.

Lemma Array_get_snoc {A : Type} (a : list A) x i :
  i = Z.of_nat (length a) -> Array_get (a ++ [x]) i = Some x.
Proof.
  intros ->. rewrite Array_get_lookup by lia.
  rewrite lookup_app_r by lia.
  by replace (Z.to_nat (Z.of_nat (length a)) - length a)%nat with 0%nat by lia.
Qed.

Lemma read_inv_init q0 nMax :
  read_inv q0 nMax 0 (q0, [], []).
Proof.
  unfold read_inv. split_and!; try done; try apply read_frame_refl.
  intros ch Hch. lia.
Qed.

Lemma read_inv_step q0 nMax chan st st1 :
  0 <= chan < Z.of_nat (length (m_lastReadTimestamps q0)) ->
  chan < Z.of_nat (length (m_readSamples q0)) ->
  read_inv q0 nMax chan st ->
  startRead_chan nMax chan st = Some st1 ->
  read_inv q0 nMax (chan + 1) st1.
Proof.
  intros Hcl Hcr Hinv Hbody.
  destruct st as [[q indexes] timestamps], st1 as [[q1 indexes1] timestamps1].
  destruct (startRead_chan_spec _ _ _ _ _ _ _ _ Hbody)
    as (idx & ts & Hsess & -> & -> & ->).
  destruct Hinv as (Hfr & Hflag & Hll & Hlr & Hli & Hlt & Hrest & Hdone).
  unfold read_inv. simpl.
  split_and!; try done.
  - rewrite Array_set_length; [done | lia].
  - rewrite Array_set_length; [done | lia].
  - rewrite length_app. simpl. lia.
  - rewrite length_app. simpl. lia.
  - intros j Hj. rewrite !Array_get_set_ne by lia. apply Hrest. lia.
  - intros ch Hch. destruct (decide (ch = chan)) as [-> | Hne].
    + exists idx, ts. split_and!.
      * apply (chan_session_frame q0 q); [done | | done].
        unfold Array_at. by rewrite (proj1 (Hrest chan ltac:(lia))).
      * apply Array_get_snoc. lia.
      * apply Array_get_snoc. lia.
      * rewrite Array_get_set_eq by lia. unfold consumed. f_equal. lia.
      * by rewrite Array_get_set_eq by lia.
    + destruct (Hdone ch ltac:(lia)) as (idx' & ts' & ? & ? & ? & ? & ?).
      exists idx', ts'. split_and!; try done.
      * by rewrite Array_get_app_l by lia.
      * by rewrite Array_get_app_l by lia.
      * by rewrite Array_get_set_ne by lia.
      * by rewrite Array_get_set_ne by lia.
Qed.

(** The outcome of a successful [startRead] on an idle, well-formed queue. *)
Lemma startRead_spec indexes0 timestamps0 nMax q ok indexes timestamps q' :
  queue_wf q ->
  m_readInProgress q = false ->
  startRead indexes0 timestamps0 nMax q = Some (ok, indexes, timestamps, q') ->
  ok = true /\
  m_readInProgress q' = true /\
  read_frame q q' /\
  Z.of_nat (length (m_lastReadTimestamps q')) = m_numChans q /\
  Z.of_nat (length (m_readSamples q')) = m_numChans q /\
  Z.of_nat (length indexes) = m_numChans q /\
  Z.of_nat (length timestamps) = m_numChans q /\
  (forall chan, 0 <= chan < m_numChans q ->
     exists idx ts,
       chan_session q nMax chan idx ts /\
       Array_get indexes chan = Some idx /\
       Array_get timestamps chan = Some ts /\
       Array_get (m_lastReadTimestamps q') chan = Some (ts + consumed idx) /\
       Array_get (m_readSamples q') chan = Some (consumed idx)).
Proof.
  intros Hwf Hidle Hstart. unfold startRead in Hstart.
  rewrite Hidle in Hstart. simpl in Hstart.
  destruct (for_chans _ _ _ _) as [[[q1 indexes1] timestamps1] |] eqn:Hloop;
    [| done].
  simpl in Hstart. inversion Hstart; subst; clear Hstart.
  pose proof (wf_len_last q Hwf) as Hll.
  pose proof (wf_len_readSamples q Hwf) as Hlr.
  assert (0 <= m_numChans q) as Hn by lia.
  apply (for_chans_inv (read_inv (with_readInProgress true q) nMax)) in Hloop.
  - rewrite Z.add_0_l, Z2Nat.id in Hloop by done.
    destruct Hloop as (Hfr & Hflag & Hll' & Hlr' & Hli & Hlt & _ & Hdone).
    simpl in *. split_and!; try done; try lia.
  - apply read_inv_init.
  - intros chan s0 s1 Hchan. apply read_inv_step; simpl; lia.
Qed.

Lemma wf_fifo_at q chan fifo :
  queue_wf q -> Array_get (m_fifos q) chan = Some fifo ->
  AbstractFifo.wf fifo /\ AbstractFifo.bufferSize fifo = m_maxSize q.
Proof.
  intros Hwf Hfifo. pose proof (Array_get_Some_range _ _ _ Hfifo).
  rewrite Array_get_lookup in Hfifo by lia.
  exact (Forall_lookup_1 _ _ _ _ (wf_fifo q Hwf) Hfifo).
Qed.

Lemma wf_tab_at q chan tab :
  queue_wf q -> Array_get (m_timestamps q) chan = Some tab ->
  Z.of_nat (length tab) = m_numBlocks q.
Proof.
  intros Hwf Htab. pose proof (Array_get_Some_range _ _ _ Htab).
  rewrite Array_get_lookup in Htab by lia.
  exact (Forall_lookup_1 _ _ _ _ (wf_tabs q Hwf) Htab).
Qed.

Lemma blockOffset_range blockSize idx :
  0 < blockSize -> 0 <= index1 idx ->
  0 <= blockOffset blockSize idx < blockSize.
Proof.
  intros Hbs Hi. unfold blockOffset.
  pose proof (Z.rem_bound_pos (index1 idx) blockSize Hi Hbs).
  destruct (Z.eqb_spec (Z.rem (index1 idx) blockSize) 0); lia.
Qed.

Lemma boundarySlot_range blockSize numBlocks idx :
  0 < blockSize -> 0 < numBlocks -> 0 <= index1 idx ->
  0 <= boundarySlot blockSize numBlocks idx < numBlocks.
Proof.
  intros Hbs Hnb Hi. unfold boundarySlot.
  pose proof (blockOffset_range blockSize idx Hbs Hi).
  apply Z.rem_bound_pos; [| done].
  apply Z.quot_pos; lia.
Qed.

(** On a well-formed queue every round of the loop of [startRead] returns. *)
Lemma startRead_chan_total q0 nMax chan q indexes timestamps :
  queue_wf q0 -> read_frame q0 q -> 0 <= chan < m_numChans q0 ->
  exists st1, startRead_chan nMax chan (q, indexes, timestamps) = Some st1.
Proof.
  intros Hwf (_ & Hf & Ht & _ & Hbs & Hnb & _) Hchan.
  pose proof (wf_blockSize q0 Hwf) as Hbs0.
  pose proof (wf_numBlocks q0 Hwf) as Hnb0.
  destruct (Array_get_is_Some (m_fifos q0) chan) as [fifo Hfifo].
  { rewrite (wf_len_fifos q0 Hwf). lia. }
  destruct (Array_get_is_Some (m_timestamps q0) chan) as [tab Htab].
  { rewrite (wf_len_timestamps q0 Hwf). lia. }
  destruct (wf_fifo_at _ _ _ Hwf Hfifo) as [Hfwf _].
  pose proof (wf_tab_at _ _ _ Hwf Htab) as Htablen.
  unfold startRead_chan. rewrite Hf, Hfifo. simpl.
  destruct (AbstractFifo.prepareToRead fifo _) as [[[i1 s1] i2] s2] eqn:Hprep.
  simpl. rewrite Hbs, Hnb, Ht.
  destruct (fifo_prepareToRead_spec _ _ _ _ _ _ Hfwf Hprep)
    as (_ & _ & _ & Hi1 & _).
  destruct (Z.eqb_spec (m_blockSize q0) 0); [lia |].
  match goal with
  | |- context [Z.ltb ?d (s1 + s2)] => destruct (Z.ltb_spec d (s1 + s2))
  end; [| eauto].
  destruct (Z.eqb_spec (m_numBlocks q0) 0); [lia |].
  rewrite Htab. simpl.
  pose proof (boundarySlot_range (m_blockSize q0) (m_numBlocks q0)
                (mkIndexes i1 s1 i2 s2) Hbs0 Hnb0 Hi1) as Hslot.
  unfold boundarySlot, blockOffset in Hslot. simpl in Hslot.
  destruct (Array_get_is_Some tab _ ltac:(rewrite Htablen; exact Hslot))
    as [stamp Hstamp].
  rewrite Hstamp. simpl. eauto.
Qed.

(** [startRead] returns on every well-formed queue. *)
Lemma startRead_total indexes0 timestamps0 nMax q :
  queue_wf q ->
  exists ok indexes timestamps q',
    startRead indexes0 timestamps0 nMax q = Some (ok, indexes, timestamps, q').
Proof.
  intros Hwf. unfold startRead.
  destruct (m_readInProgress q) eqn:Hflag; [eauto |].
  set (q0 := with_readInProgress true q).
  assert (queue_wf q0) as Hwf0 by (destruct Hwf; by split).
  destruct (for_chans_total (read_inv q0 nMax) (startRead_chan nMax)
              (Z.to_nat (m_numChans q0)) 0 (q0, [], []))
    as ([[q1 indexes1] timestamps1] & Hloop & _).
  - apply read_inv_init.
  - intros chan [[q1 indexes1] timestamps1] Hchan Hinv.
    pose proof (wf_len_last q0 Hwf0). pose proof (wf_len_readSamples q0 Hwf0).
    destruct (startRead_chan_total q0 nMax chan q1 indexes1 timestamps1)
      as [st1 Hst1]; [done | apply Hinv | lia |].
    exists st1. split; [done |].
    eapply read_inv_step; [| | exact Hinv | exact Hst1]; lia.
  - rewrite Hloop. simpl. eauto.
Qed.

Lemma chan_session_consumed q nMax chan idx ts fifo :
  queue_wf q -> chan_session q nMax chan idx ts ->
  Array_get (m_fifos q) chan = Some fifo ->
  0 <= index1 idx /\ 0 <= size1 idx /\ 0 <= size2 idx /\
  0 <= consumed idx <= AbstractFifo.getNumReady fifo /\
  (nMax <= 0 -> consumed idx = AbstractFifo.getNumReady fifo).
Proof.
  intros Hwf (fifo' & Hfifo' & Hprep & _) Hfifo.
  rewrite Hfifo in Hfifo'. inversion Hfifo'; subst fifo'.
  destruct (wf_fifo_at _ _ _ Hwf Hfifo) as [Hfwf _].
  pose proof (fifo_numReady_range _ Hfwf) as Hready.
  simpl in Hprep.
  destruct (fifo_prepareToRead_spec _ _ _ _ _ _ Hfwf Hprep)
    as (Hs1 & Hs2 & Htot & Hi1 & _).
  unfold consumed. split_and!; try (destruct (_ && _); lia).
  intros HnMax. destruct (Z.ltb_spec 0 nMax); [lia |].
  rewrite andb_false_r in Htot. lia.
Qed.

(** The cap is applied only when it is positive and below the ready count. *)
Lemma chan_session_cap q nMax chan idx ts fifo :
  queue_wf q -> chan_session q nMax chan idx ts ->
  Array_get (m_fifos q) chan = Some fifo ->
  consumed idx
  = if (nMax <? AbstractFifo.getNumReady fifo) && (0 <? nMax)
    then nMax else AbstractFifo.getNumReady fifo.
Proof.
  intros Hwf (fifo' & Hfifo' & Hprep & _) Hfifo.
  rewrite Hfifo in Hfifo'. inversion Hfifo'; subst fifo'.
  destruct (wf_fifo_at _ _ _ Hwf Hfifo) as [Hfwf _].
  pose proof (fifo_numReady_range _ Hfwf) as Hready.
  simpl in Hprep.
  destruct (fifo_prepareToRead_spec _ _ _ _ _ _ Hfwf Hprep)
    as (_ & _ & Htot & _).
  unfold consumed. rewrite Htot.
  destruct (Z.ltb_spec nMax (AbstractFifo.getNumReady fifo));
    destruct (Z.ltb_spec 0 nMax); simpl; lia.
Qed.

Lemma startRead_wf indexes0 timestamps0 nMax q ok indexes timestamps q' :
  queue_wf q ->
  startRead indexes0 timestamps0 nMax q = Some (ok, indexes, timestamps, q') ->
  queue_wf q'.
Proof.
  intros Hwf Hstart.
  destruct (m_readInProgress q) eqn:Hflag.
  { unfold startRead in Hstart. rewrite Hflag in Hstart.
    inversion Hstart; subst. exact Hwf. }
  destruct (startRead_spec _ _ _ _ _ _ _ _ Hwf Hflag Hstart)
    as (_ & _ & (Hb & Hf & Ht & Hn & Hbs & Hnb & Hmax) & Hll & Hlr & _ & _ & Hch).
  destruct Hwf as [? ? ? ? ? ? ? ? Hrows Hfifos Htabs Hreads] eqn:Hwfeq.
  split; rewrite ?Hb, ?Hf, ?Ht, ?Hn, ?Hbs, ?Hnb, ?Hmax; try done.
  intros chan f Hfifo.
  pose proof (Array_get_Some_range _ _ _ Hfifo) as Hrange.
  destruct (Hch chan ltac:(lia)) as (idx & ts & Hsess & _ & _ & _ & Hrs).
  unfold Array_at. rewrite Hrs. simpl.
  eapply chan_session_consumed; [| exact Hsess | exact Hfifo].
  by split.
Qed.

(** ** Closing a session *)

Lemma stop_inv_init q0 : stop_inv q0 0 q0.
Proof. unfold stop_inv. split_and!; try done. intros ch Hch. lia. Qed.

Lemma stop_inv_step q0 chan q :
  0 <= chan < Z.of_nat (length (m_fifos q0)) ->
  chan < Z.of_nat (length (m_readSamples q0)) ->
  stop_inv q0 chan q ->
  exists q1, stopRead_chan chan q = Some q1 /\ stop_inv q0 (chan + 1) q1.
Proof.
  intros Hcf Hcr (Hb & Ht & Hl & Hn & Hbs & Hflag & Hnb & Hmax & Hlf & Hlr
                  & Hrest & Hdone).
  destruct (Array_get_is_Some (m_fifos q0) chan Hcf) as [f Hf].
  destruct (Hrest chan ltac:(lia)) as [Hfc Hrc].
  unfold stopRead_chan. rewrite Hfc, Hf. simpl.
  eexists. split; [done |].
  unfold stop_inv. simpl. split_and!; try done.
  - by rewrite length_insert.
  - rewrite Array_set_length; [done | lia].
  - intros j Hj. rewrite Array_get_insert_ne, Array_get_set_ne by lia.
    apply Hrest. lia.
  - intros ch Hch. destruct (decide (ch = chan)) as [-> | Hne].
    + exists f. split_and!; [done | |].
      * rewrite Array_get_insert_eq by lia. unfold Array_at. by rewrite Hrc.
      * by rewrite Array_get_set_eq by lia.
    + destruct (Hdone ch ltac:(lia)) as (f' & ? & ? & ?).
      exists f'. split_and!; [done | |].
      * by rewrite Array_get_insert_ne by lia.
      * by rewrite Array_get_set_ne by lia.
Qed.

(** [stopRead] on an open session of a well-formed queue. *)
Lemma stopRead_spec q :
  queue_wf q -> m_readInProgress q = true ->
  exists q',
    stopRead q = Some q' /\
    m_readInProgress q' = false /\
    m_buffer q' = m_buffer q /\ m_timestamps q' = m_timestamps q /\
    m_lastReadTimestamps q' = m_lastReadTimestamps q /\
    m_numChans q' = m_numChans q /\ m_blockSize q' = m_blockSize q /\
    m_numBlocks q' = m_numBlocks q /\ m_maxSize q' = m_maxSize q /\
    length (m_fifos q') = length (m_fifos q) /\
    length (m_readSamples q') = length (m_readSamples q) /\
    (forall chan, 0 <= chan < m_numChans q ->
       exists f,
         Array_get (m_fifos q) chan = Some f /\
         Array_get (m_fifos q') chan
         = Some (AbstractFifo.finishedRead f (Array_at 0 (m_readSamples q) chan)) /\
         Array_get (m_readSamples q') chan = Some 0).
Proof.
  intros Hwf Hflag. unfold stopRead. rewrite Hflag. simpl.
  pose proof (wf_len_fifos q Hwf) as Hlf.
  pose proof (wf_len_readSamples q Hwf) as Hlr.
  destruct (for_chans_total (stop_inv q) stopRead_chan
              (Z.to_nat (m_numChans q)) 0 q) as (q1 & Hloop & Hinv).
  - apply stop_inv_init.
  - intros chan s0 Hchan Hs0. apply stop_inv_step; [lia | lia | done].
  - rewrite Hloop. simpl. eexists. split; [done |].
    rewrite Z.add_0_l, Z2Nat.id in Hinv by lia.
    destruct Hinv as (? & ? & ? & ? & ? & ? & ? & ? & ? & ? & _ & Hdone).
    simpl. split_and!; done.
Qed.

Lemma stopRead_wf q q' :
  queue_wf q -> stopRead q = Some q' -> queue_wf q'.
Proof.
  intros Hwf Hstop.
  destruct (m_readInProgress q) eqn:Hflag.
  2:{ unfold stopRead in Hstop. rewrite Hflag in Hstop. simpl in Hstop.
      inversion Hstop; subst. exact Hwf. }
  destruct (stopRead_spec q Hwf Hflag)
    as (q'' & Hstop' & _ & Hb & Ht & Hl & Hn & Hbs & Hnb & Hmax & Hlf & Hlr & Hch).
  rewrite Hstop in Hstop'. inversion Hstop'; subst q''. clear Hstop'.
  assert (forall chan f', Array_get (m_fifos q') chan = Some f' ->
            (AbstractFifo.wf f' /\ AbstractFifo.bufferSize f' = m_maxSize q) /\
            0 <= Array_at 0 (m_readSamples q') chan
              <= AbstractFifo.getNumReady f') as Hfifo'.
  { intros chan f' Hf'.
    pose proof (Array_get_Some_range _ _ _ Hf') as Hrange.
    pose proof (wf_len_fifos q Hwf).
    destruct (Hch chan ltac:(lia)) as (f & Hf & Hf'' & Hrs).
    rewrite Hf' in Hf''. inversion Hf''; subst f'.
    destruct (wf_fifo_at _ _ _ Hwf Hf) as [Hfwf Hfsize].
    pose proof (wf_reads q Hwf chan f Hf) as Hread.
    destruct (fifo_finishedRead_spec f _ Hfwf Hread) as (? & ? & _ & ?).
    replace (Array_at 0 (m_readSamples q') chan) with 0
      by (unfold Array_at; by rewrite Hrs).
    split_and!; try done; lia. }
  destruct Hwf as [? ? ? ? ? ? ? ? Hrows Hfifos Htabs Hreads].
  split; rewrite ?Hb, ?Ht, ?Hl, ?Hn, ?Hbs, ?Hnb, ?Hmax, ?Hlf, ?Hlr; try done.
  - apply Forall_lookup_2. intros i f' Hi.
    apply (Hfifo' (Z.of_nat i)). rewrite Array_get_lookup by lia.
    by rewrite Nat2Z.id.
  - intros chan f' Hf'. by apply Hfifo'.
Qed.

(** ** Zeroed consumed lengths *)

Lemma zeroed_upto_set numChans chan q q1 :
  zeroed_upto numChans chan q ->
  m_numChans q1 = m_numChans q ->
  m_readSamples q1 = Array_set (m_readSamples q) chan 0 ->
  zeroed_upto numChans (chan + 1) q1.
Proof.
  intros [Hn Hz] Hn1 Hrs. split; [congruence |].
  intros ch Hch. rewrite Hrs.
  destruct (decide (ch = chan)) as [-> | Hne].
  - apply Array_at_set_default_eq.
  - apply Array_at_set_default. apply Hz. lia.
Qed.

Lemma stopRead_chan_zeroes numChans chan q q1 :
  zeroed_upto numChans chan q -> stopRead_chan chan q = Some q1 ->
  zeroed_upto numChans (chan + 1) q1.
Proof.
  intros Hz Hbody. unfold stopRead_chan in Hbody.
  destruct (Array_get (m_fifos q) chan); [| done].
  simpl in Hbody. inversion Hbody; subst.
  by apply (zeroed_upto_set numChans chan q).
Qed.

Lemma resize_chan_zeroes size nBlocks numChans chan q q1 :
  zeroed_upto numChans chan q -> resize_chan size nBlocks chan q = Some q1 ->
  zeroed_upto numChans (chan + 1) q1.
Proof.
  intros Hz Hbody. unfold resize_chan in Hbody.
  destruct (Array_get (m_fifos q) chan); [| done]. simpl in Hbody.
  destruct (Array_get (m_timestamps q) chan); [| done]. simpl in Hbody.
  inversion Hbody; subst.
  by apply (zeroed_upto_set numChans chan q).
Qed.

(** ** Configuration *)

Lemma AudioSampleBuffer_setSize_dims buf nChans size :
  0 <= nChans -> 0 <= size ->
  Z.of_nat (length (AudioSampleBuffer_setSize buf nChans size)) = nChans /\
  Forall (fun row => Z.of_nat (length row) = size)
    (AudioSampleBuffer_setSize buf nChans size).
Proof.
  intros Hn Hs. unfold AudioSampleBuffer_setSize.
  destruct (Z.eqb_spec (Z.of_nat (length buf)) nChans) as [Hlen | _]; simpl.
  - destruct (forallb _ buf) eqn:Hall.
    + split; [done |]. apply Forall_forall. intros row Hrow.
      rewrite forallb_forall in Hall.
      by apply Z.eqb_eq, Hall.
    + unfold AudioSampleBuffer_new. rewrite length_replicate.
      split; [lia |]. apply Forall_replicate. rewrite length_replicate. lia.
  - unfold AudioSampleBuffer_new. rewrite length_replicate.
    split; [lia |]. apply Forall_replicate. rewrite length_replicate. lia.
Qed.

(** [setChannels] on an idle queue with a positive geometry gives a
    well-formed queue of empty channels. *)
Lemma setChannels_wf nChans q :
  0 <= nChans -> m_readInProgress q = false ->
  0 < m_blockSize q -> 0 < m_numBlocks q ->
  m_maxSize q = m_blockSize q * m_numBlocks q ->
  queue_wf (setChannels nChans q).
Proof.
  intros Hn Hidle Hbs Hnb Hmax. unfold setChannels. rewrite Hidle.
  destruct (AudioSampleBuffer_setSize_dims (m_buffer q) nChans (m_maxSize q))
    as [Hlen Hrows]; [lia | nia |].
  split; simpl; rewrite ?length_replicate; try done; try lia.
  - apply Forall_replicate. split; [| done]. apply fifo_create_wf. nia.
  - apply Forall_replicate. unfold Array_resize.
    rewrite take_nil, length_app, length_replicate. simpl. lia.
  - intros chan f Hf.
    pose proof (Array_get_Some_range _ _ _ Hf) as Hrange.
    rewrite Array_get_lookup in Hf by lia.
    apply lookup_replicate_1 in Hf as [-> _].
    unfold Array_at. rewrite Array_get_lookup by lia.
    rewrite length_replicate in Hrange.
    rewrite lookup_replicate_2 by lia. by simpl.
Qed.

Lemma DataQueue_new_setChannels_wf blockSize nBlocks nChans :
  0 < blockSize -> 0 < nBlocks -> 0 <= nChans ->
  queue_wf (setChannels nChans (DataQueue_new blockSize nBlocks)).
Proof. intros. by apply setChannels_wf. Qed.

Lemma Array_resize_length {A : Type} (d : A) (a : list A) n :
  0 <= n -> Z.of_nat (length (Array_resize d a n)) = n.
Proof.
  intros Hn. unfold Array_resize.
  rewrite length_app, length_take, length_replicate. lia.
Qed.

Lemma resize_inv_step size nBlocks q0 chan q :
  0 <= nBlocks ->
  0 <= chan < Z.of_nat (length (m_fifos q0)) ->
  chan < Z.of_nat (length (m_timestamps q0)) ->
  chan < Z.of_nat (length (m_lastReadTimestamps q0)) ->
  chan < Z.of_nat (length (m_readSamples q0)) ->
  resize_inv size nBlocks q0 chan q ->
  exists q1, resize_chan size nBlocks chan q = Some q1 /\
             resize_inv size nBlocks q0 (chan + 1) q1.
Proof.
  intros Hnb Hcf Hct Hcl Hcr
    (Hb & Hn & Hbs & Hflag & Hnbs & Hmax & Hlf & Hlt & Hll & Hlr & Hrest & Hdone).
  destruct (Array_get_is_Some (m_fifos q0) chan Hcf) as [f Hf].
  destruct (Array_get_is_Some (m_timestamps q0) chan ltac:(lia)) as [tab Htab].
  destruct (Hrest chan ltac:(lia)) as [Hfc Htc].
  unfold resize_chan. rewrite Hfc, Hf. simpl. rewrite Htc, Htab. simpl.
  eexists. split; [done |].
  unfold resize_inv. simpl. split_and!; try done.
  - by rewrite length_insert.
  - by rewrite length_insert.
  - rewrite Array_set_length; [done | lia].
  - rewrite Array_set_length; [done | lia].
  - intros j Hj. rewrite !Array_get_insert_ne by lia. apply Hrest. lia.
  - intros ch Hch. destruct (decide (ch = chan)) as [-> | Hne].
    + split_and!.
      * rewrite Array_get_insert_eq by lia. done.
      * by rewrite Array_get_set_eq by lia.
      * by rewrite Array_get_set_eq by lia.
      * eexists. split; [apply Array_get_insert_eq; lia |].
        by apply Array_resize_length.
    + destruct (Hdone ch ltac:(lia)) as (? & ? & ? & tab' & ? & ?).
      split_and!.
      * by rewrite Array_get_insert_ne by lia.
      * by rewrite Array_get_set_ne by lia.
      * by rewrite Array_get_set_ne by lia.
      * exists tab'. by rewrite Array_get_insert_ne by lia.
Qed.

(** [resize] on an idle, well-formed queue returns a well-formed queue of
    empty channels with the new depth. *)
Lemma resize_wf nBlocks q :
  queue_wf q -> 0 < nBlocks -> m_readInProgress q = false ->
  exists q', resize nBlocks q = Some q' /\ queue_wf q' /\
             m_numBlocks q' = nBlocks /\ m_numChans q' = m_numChans q.
Proof.
  intros Hwf Hnb Hidle. unfold resize. rewrite Hidle.
  pose proof (wf_blockSize q Hwf) as Hbs.
  pose proof (wf_len_fifos q Hwf) as Hlf.
  pose proof (wf_len_timestamps q Hwf) as Hlt.
  pose proof (wf_len_last q Hwf) as Hll.
  pose proof (wf_len_readSamples q Hwf) as Hlr.
  pose proof (wf_len_buffer q Hwf) as Hlb.
  set (size := m_blockSize q * nBlocks).
  set (q0 := mkDataQueue _ _ _ _ _ _ _ _ _ _).
  destruct (for_chans_total (resize_inv size nBlocks q0)
              (resize_chan size nBlocks) (Z.to_nat (m_numChans q0)) 0 q0)
    as (q1 & Hloop & Hinv).
  - unfold resize_inv. split_and!; try done. intros ch Hch. lia.
  - intros chan s0 Hchan. subst q0. simpl in *.
    apply resize_inv_step; simpl; lia.
  - rewrite Hloop. simpl. eexists. split; [done |].
    change (m_numChans q0) with (m_numChans q) in *.
    rewrite Z.add_0_l, Z2Nat.id in Hinv by lia.
    destruct Hinv as (Hb & Hn & Hbs' & Hflag & Hnbs & Hmax & Hlf' & Hlt' & Hll'
                      & Hlr' & _ & Hdone).
    subst q0. simpl in *.
    destruct (AudioSampleBuffer_setSize_dims (m_buffer q1) (m_numChans q1) size)
      as [Hlen Hrows]; [lia | subst size; nia |].
    split; [| by rewrite Hnbs, Hn].
    split; simpl; try lia; try done.
    + by rewrite Hmax.
    + apply Forall_lookup_2. intros i f Hi.
      pose proof (lookup_lt_Some _ _ _ Hi) as Hlti.
      destruct (Hdone (Z.of_nat i) ltac:(lia)) as (Hf & _).
      rewrite Array_get_lookup, Nat2Z.id in Hf by lia.
      rewrite Hi in Hf. inversion Hf; subst f. rewrite Hmax.
      unfold AbstractFifo.wf. simpl. subst size. split; [nia | done].
    + apply Forall_lookup_2. intros i tab Hi.
      pose proof (lookup_lt_Some _ _ _ Hi) as Hlti.
      destruct (Hdone (Z.of_nat i) ltac:(lia)) as (_ & _ & _ & tab' & Htab' & Hlen').
      rewrite Array_get_lookup, Nat2Z.id in Htab' by lia.
      rewrite Hi in Htab'. inversion Htab'; subst tab'. by rewrite Hnbs.
    + intros chan f Hf.
      pose proof (Array_get_Some_range _ _ _ Hf) as Hrange.
      destruct (Hdone chan ltac:(lia)) as (Hf' & Hrs & _).
      rewrite Hf in Hf'. inversion Hf'; subst f.
      unfold Array_at. rewrite Hrs. simpl.
      unfold AbstractFifo.getNumReady. simpl. lia.
Qed.

(** Every call with valid arguments that returns keeps the queue well
    formed. *)
Lemma exec_wf op q r q' :
  queue_wf q -> valid_op op -> exec op q = Some (r, q') -> queue_wf q'.
Proof.
  intros Hwf Hvalid Hexec.
  destruct op as [nChans | nBlocks | buffer channel n ts | nMax |];
    simpl in Hexec, Hvalid.
  - inversion Hexec; subst; clear Hexec.
    destruct (m_readInProgress q) eqn:Hflag.
    + unfold setChannels. by rewrite Hflag.
    + apply setChannels_wf; try done; by destruct Hwf.
  - destruct (resize nBlocks q) as [q1 |] eqn:Hresize; [| done].
    simpl in Hexec. inversion Hexec; subst; clear Hexec.
    destruct (m_readInProgress q) eqn:Hflag.
    + unfold resize in Hresize. rewrite Hflag in Hresize.
      inversion Hresize; by subst.
    + destruct (resize_wf nBlocks q Hwf Hvalid Hflag) as (q2 & Hq2 & Hwf2 & _).
      rewrite Hresize in Hq2. inversion Hq2; by subst.
  - destruct (writeChannel buffer channel n ts q) as [q1 |] eqn:Hwrite; [| done].
    simpl in Hexec. inversion Hexec; subst; clear Hexec.
    by eapply writeChannel_wf.
  - destruct (startRead [] [] nMax q) as [[[[ok indexes] timestamps] q1] |]
      eqn:Hstart; [| done].
    simpl in Hexec. inversion Hexec; subst; clear Hexec.
    by eapply startRead_wf.
  - destruct (stopRead q) as [q1 |] eqn:Hstop; [| done].
    simpl in Hexec. inversion Hexec; subst; clear Hexec.
    by eapply stopRead_wf.
Qed.

(** Every queue reached from a well-formed one by valid calls is well
    formed. *)
Lemma run_wf ops q results q' :
  queue_wf q -> Forall valid_op ops -> run ops q = Some (results, q') ->
  queue_wf q'.
Proof.
  revert q results. induction ops as [| op ops IH]; intros q results Hwf Hvalid Hrun.
  - simpl in Hrun. inversion Hrun; by subst.
  - simpl in Hrun. apply Forall_cons_1 in Hvalid as [Hop Hops].
    destruct (exec op q) as [[r q1] |] eqn:Hexec; [| done]. simpl in Hrun.
    destruct (run ops q1) as [[rs q2] |] eqn:Hrest; [| done]. simpl in Hrun.
    inversion Hrun; subst; clear Hrun.
    apply (IH q1 rs); [| done | done]. by apply (exec_wf op q r).
Qed.

(** ** The write path: block timestamps *)

(** A window of at most one block: the block start it covers, if any, is
    stamped in its own slot with the timestamp of that position. *)
Lemma fill_table_single_block blockSize index size timestamp tab :
  0 < size <= blockSize ->
  fill_table blockSize index size timestamp tab
  = if Z.rem index blockSize =? 0
    then Array_set tab (Z.quot index blockSize) timestamp
    else if index + (blockSize - Z.rem index blockSize) <? index + size
         then Array_set tab (Z.quot index blockSize + 1)
                (timestamp + (blockSize - Z.rem index blockSize))
         else tab.
Proof.
  intros Hsize. unfold fill_table.
  destruct (Z.rem index blockSize =? 0).
  - rewrite fill_loop_one_round by lia.
    destruct (Z.ltb_spec index (index + size)); [done | lia].
  - by rewrite fill_loop_one_round by lia.
Qed.

(** C1.  A window that covers two block starts: with [blockSize = 10] and
    four blocks, writing 20 samples with timestamp 100 into an empty channel
    is granted the single window [(0, 20)].  The slot of the block at
    position 0 ends up holding [100 + 10 * 10 = 200] instead of 100, and the
    slot of the block at position 10, slot [(10 / 10) mod 4 = 1], is never
    written: it keeps its initial 0 instead of receiving 110. *)
Theorem C1_two_block_window_stamps_one_slot :
  AbstractFifo.prepareToWrite (AbstractFifo.create 40) 20 = (0, 20, 0, 0) /\
  exists q',
    writeChannel (ramp 20) 0 20 100 (setChannels 1 (DataQueue_new 10 4))
    = Some q' /\
    m_timestamps q' = [[200; 0; 0; 0]] /\
    Array_get (m_timestamps q') 0 ≫= (fun tab => Array_get tab 0) <> Some 100 /\
    Array_get (m_timestamps q') 0
      ≫= (fun tab => Array_get tab (Z.rem (Z.quot 10 10) 4)) <> Some 110.
Proof.
  split; [reflexivity |].
  eexists. split; [vm_compute; reflexivity |].
  split; [reflexivity |]. split; vm_compute; discriminate.
Qed.

(** In a window of several blocks only the slot of the first block start is
    ever written. *)
Lemma fill_table_other_slots blockSize numBlocks index size timestamp tab j :
  0 < blockSize -> 0 <= index -> index + size <= blockSize * numBlocks ->
  Z.of_nat (length tab) = numBlocks ->
  j <> (if Z.rem index blockSize =? 0 then Z.quot index blockSize
        else Z.quot index blockSize + 1) ->
  Array_get (fill_table blockSize index size timestamp tab) j = Array_get tab j.
Proof.
  intros Hbs Hidx Hwin Hlen Hj.
  destruct (Z.le_gt_cases size 0) as [Hs | Hs].
  { by rewrite fill_table_empty. }
  unfold fill_table. revert Hj.
  rewrite Z.rem_mod_nonneg, Z.quot_div_nonneg by lia.
  pose proof (Z.div_mod index blockSize ltac:(lia)) as Hdm.
  pose proof (Z.mod_pos_bound index blockSize Hbs) as Hmod.
  assert (0 <= index `div` blockSize) as Hq by (apply Z.div_pos; lia).
  destruct (Z.eqb_spec (index `mod` blockSize) 0) as [Hz | Hnz]; intros Hj.
  - apply fill_loop_other_slots; [| done]. split; [done |].
    rewrite Hlen. apply Z.div_lt_upper_bound; lia.
  - destruct (Z.lt_ge_cases (index `div` blockSize + 1) numBlocks) as [Hin | Hout].
    + apply fill_loop_other_slots; [lia | done].
    + rewrite fill_loop_beyond; [done | lia | lia | nia].
Qed.

(** C8.  With [blockSize = 10] and at least two blocks, a write of 10
    samples with timestamp 100 whose window starts at ring offset 3 (the
    write cursor is at 3 and the ten samples fit) stores 107 in the slot of
    the block that starts at position 10, slot [(10 / 10) mod numBlocks]. *)
Theorem C8_misaligned_write_stamps_107 q buffer channel fifo srow :
  queue_wf q ->
  m_blockSize q = 10 -> 2 <= m_numBlocks q ->
  Array_get (m_fifos q) channel = Some fifo ->
  AbstractFifo.validEnd fifo = 3 ->
  10 <= AbstractFifo.getFreeSpace fifo ->
  Array_get buffer channel = Some srow ->
  10 <= Z.of_nat (length srow) ->
  AbstractFifo.prepareToWrite fifo 10 = (3, 10, 0, 0) /\
  exists q' tab',
    writeChannel buffer channel 10 100 q = Some q' /\
    Array_get (m_timestamps q') channel = Some tab' /\
    Array_get tab' (Z.rem (Z.quot 10 10) (m_numBlocks q)) = Some 107.
Proof.
  intros Hwf Hbs Hnb Hfifo Hve Hfree Hsrow Hlen.
  pose proof (Array_get_Some_range _ _ _ Hfifo) as Hc.
  destruct (wf_fifo_at _ _ _ Hwf Hfifo) as [Hfwf Hfsize].
  pose proof (wf_maxSize q Hwf) as Hmax.
  pose proof (wf_len_buffer q Hwf) as Hlb.
  pose proof (wf_len_fifos q Hwf) as Hlf.
  pose proof (wf_len_timestamps q Hwf) as Hlt.
  assert (AbstractFifo.prepareToWrite fifo 10 = (3, 10, 0, 0)) as Hprep.
  { clear - Hfwf Hfsize Hmax Hbs Hnb Hve Hfree. revert Hfree Hfwf.
    unfold AbstractFifo.prepareToWrite, AbstractFifo.getFreeSpace,
      AbstractFifo.getNumReady, AbstractFifo.wf.
    rewrite Hve, Hfsize, Hmax, Hbs. intros Hfree Hfwf.
    fifo_cases; try lia; repeat f_equal; lia. }
  split; [done |].
  destruct (Array_get_is_Some (m_buffer q) channel) as [row Hrow]; [lia |].
  destruct (Array_get_is_Some (m_timestamps q) channel) as [tab Htab]; [lia |].
  pose proof (wf_tab_at _ _ _ Hwf Htab) as Htablen.
  rewrite (writeChannel_spec buffer channel 10 100 q fifo row tab srow 3 10 0 0)
    by (done || lia).
  eexists. eexists. split; [done |]. unfold written. simpl.
  split; [apply Array_get_insert_eq; lia |].
  rewrite fill_table_empty by lia. rewrite Hbs.
  rewrite fill_table_single_block by lia.
  change (Z.rem 3 10) with 3. change (Z.quot 3 10) with 0.
  change (Z.quot 10 10) with 1.
  change (3 =? 0) with false. change (3 + (10 - 3) <? 3 + 10) with true.
  change (0 + 1) with 1. change (100 + (10 - 3)) with 107.
  cbv iota. rewrite Z.rem_small by lia.
  apply Array_get_set_eq. lia.
Qed.

(** ** The write path: overflow *)

Lemma copy_range_get_in dst ds src ss n k :
  0 <= ds -> 0 <= ss ->
  ds + n <= Z.of_nat (length dst) -> ss + n <= Z.of_nat (length src) ->
  0 <= k < n ->
  Array_get (copy_range dst (Z.to_nat ds) src (Z.to_nat ss) (Z.to_nat n)) (ds + k)
  = Array_get src (ss + k).
Proof.
  intros Hds Hss Hd Hs Hk. rewrite !Array_get_lookup by lia.
  replace (Z.to_nat (ds + k)) with (Z.to_nat ds + Z.to_nat k)%nat by lia.
  replace (Z.to_nat (ss + k)) with (Z.to_nat ss + Z.to_nat k)%nat by lia.
  apply copy_range_lookup_in; lia.
Qed.

Lemma copy_range_get_out dst ds src ss n p :
  0 <= ds -> 0 <= ss -> 0 <= n ->
  ds + n <= Z.of_nat (length dst) -> ss + n <= Z.of_nat (length src) ->
  ~ in_window ds n p ->
  Array_get (copy_range dst (Z.to_nat ds) src (Z.to_nat ss) (Z.to_nat n)) p
  = Array_get dst p.
Proof.
  intros Hds Hss Hn Hd Hs Hp. unfold in_window in Hp. unfold Array_get.
  destruct (Z.ltb_spec p 0); [done |].
  apply copy_range_lookup_out; lia.
Qed.

(** C4.  A write that asks for more than the free space still completes.
    The granted total [s1 + s2] is exactly the free space, hence below the
    request and below the capacity; the first [s1] source samples are in the
    first window and the next [s2] in the second; no other position of the
    sample store changes, in particular none that holds unread data; and the
    write cursor is committed by [s1 + s2], after which no space is left. *)
Theorem C4_overflow_write_truncates q buffer channel nSamples timestamp
    fifo row srow i1 s1 i2 s2 :
  queue_wf q ->
  Array_get (m_fifos q) channel = Some fifo ->
  Array_get (m_buffer q) channel = Some row ->
  Array_get buffer channel = Some srow ->
  nSamples <= Z.of_nat (length srow) ->
  AbstractFifo.getFreeSpace fifo < nSamples ->
  AbstractFifo.prepareToWrite fifo nSamples = (i1, s1, i2, s2) ->
  exists q' row' fifo',
    writeChannel buffer channel nSamples timestamp q = Some q' /\
    Array_get (m_buffer q') channel = Some row' /\
    Array_get (m_fifos q') channel = Some fifo' /\
    (0 <= s1 /\ 0 <= s2 /\
     s1 + s2 = AbstractFifo.getFreeSpace fifo /\
     s1 + s2 < nSamples /\
     s1 + s2 < AbstractFifo.getTotalSize fifo) /\
    (forall k, 0 <= k < s1 -> Array_get row' (i1 + k) = Array_get srow k) /\
    (forall k, 0 <= k < s2 -> Array_get row' (i2 + k) = Array_get srow (s1 + k)) /\
    (forall p, ~ in_window i1 s1 p -> ~ in_window i2 s2 p ->
       Array_get row' p = Array_get row p) /\
    (forall p, holds_unread fifo p -> Array_get row' p = Array_get row p) /\
    (forall c, c <> channel ->
       Array_get (m_buffer q') c = Array_get (m_buffer q) c) /\
    fifo' = AbstractFifo.finishedWrite fifo (s1 + s2) /\
    AbstractFifo.getNumReady fifo' = AbstractFifo.getNumReady fifo + (s1 + s2) /\
    AbstractFifo.validStart fifo' = AbstractFifo.validStart fifo /\
    AbstractFifo.getFreeSpace fifo' = 0.
Proof.
  intros Hwf Hfifo Hrow Hsrow Hlen Hover Hprep.
  pose proof (Array_get_Some_range _ _ _ Hfifo) as Hc.
  destruct (wf_fifo_at _ _ _ Hwf Hfifo) as [Hfwf Hfsize].
  pose proof (wf_len_buffer q Hwf) as Hlb.
  pose proof (wf_len_fifos q Hwf) as Hlf.
  pose proof (wf_len_timestamps q Hwf) as Hlt.
  assert (Z.of_nat (length row) = m_maxSize q) as Hrowlen.
  { rewrite Array_get_lookup in Hrow by lia.
    exact (Forall_lookup_1 _ _ _ _ (wf_rows q Hwf) Hrow). }
  destruct (Array_get_is_Some (m_timestamps q) channel) as [tab Htab]; [lia |].
  destruct (fifo_prepareToWrite_spec _ _ _ _ _ _ Hfwf Hprep)
    as (Hs1 & Hs2 & Htot & Hi1 & Hw1 & Hi2 & Hw2 & Hfirst & Hwrap).
  pose proof (fifo_freeSpace_range _ Hfwf) as Hfree.
  destruct (fifo_finishedWrite_spec fifo (s1 + s2) Hfwf ltac:(lia))
    as (Hwf' & Hready & Hstart & Hsize').
  rewrite (writeChannel_spec buffer channel nSamples timestamp q
             fifo row tab srow i1 s1 i2 s2) by done.
  set (row1 := copy_range row (Z.to_nat i1) srow 0 (Z.to_nat s1)).
  assert (length row1 = length row) as Hrow1len
    by (apply copy_range_length; lia).
  eexists. eexists. eexists.
  split; [done |]. unfold written. simpl.
  split; [apply Array_get_insert_eq; lia |].
  split; [apply Array_get_insert_eq; lia |].
  unfold AbstractFifo.getTotalSize.
  split_and!; try done; try lia.
  - intros k Hk.
    rewrite copy_range_get_out by (unfold in_window; lia).
    apply (copy_range_get_in row i1 srow 0 s1 k); lia.
  - intros k Hk. apply copy_range_get_in; lia.
  - intros p Hp1 Hp2.
    rewrite copy_range_get_out by (done || lia).
    apply (copy_range_get_out row i1 srow 0 s1 p); (done || lia).
  - intros p Hp.
    assert (~ in_window i1 s1 p /\ ~ in_window i2 s2 p) as [Hp1 Hp2].
    { split; intros Hin;
        eapply (fifo_prepareToWrite_free fifo nSamples); eauto. }
    rewrite copy_range_get_out by (done || lia).
    apply (copy_range_get_out row i1 srow 0 s1 p); (done || lia).
  - intros c Hne. apply Array_get_insert_ne; lia.
  - unfold AbstractFifo.getFreeSpace in *. lia.
Qed.

(** ** Read sessions: the claims *)

Lemma startRead_ok_idle indexes0 timestamps0 nMax q indexes timestamps q' :
  startRead indexes0 timestamps0 nMax q = Some (true, indexes, timestamps, q') ->
  m_readInProgress q = false.
Proof.
  unfold startRead. destruct (m_readInProgress q); [| done].
  intros Hstart. inversion Hstart.
Qed.

(** C2.  After a successful [startRead], for every channel, with
    [blockOffset] the distance from the first returned read index to the
    next block boundary and [consumed] the total returned length: when
    [blockOffset < consumed] the returned timestamp is the table entry of the
    block at that boundary minus [blockOffset]; otherwise it is the previous
    [lastReadTimestamp] of the channel.  In both cases the new
    [lastReadTimestamp] is the returned timestamp plus [consumed]. *)
Theorem C2_startRead_reconciles indexes0 timestamps0 nMax q
    indexes timestamps q' chan :
  queue_wf q ->
  startRead indexes0 timestamps0 nMax q = Some (true, indexes, timestamps, q') ->
  0 <= chan < m_numChans q ->
  exists idx ts,
    Array_get indexes chan = Some idx /\
    Array_get timestamps chan = Some ts /\
    Array_get (m_readSamples q') chan = Some (consumed idx) /\
    (blockOffset (m_blockSize q) idx < consumed idx ->
     (exists tab stamp,
        Array_get (m_timestamps q) chan = Some tab /\
        Array_get tab (boundarySlot (m_blockSize q) (m_numBlocks q) idx)
        = Some stamp /\
        ts = stamp - blockOffset (m_blockSize q) idx) /\
     Array_at 0 (m_lastReadTimestamps q') chan = ts + consumed idx) /\
    (consumed idx <= blockOffset (m_blockSize q) idx ->
     ts = Array_at 0 (m_lastReadTimestamps q) chan /\
     Array_at 0 (m_lastReadTimestamps q') chan
     = Array_at 0 (m_lastReadTimestamps q) chan + consumed idx).
Proof.
  intros Hwf Hstart Hchan.
  pose proof (startRead_ok_idle _ _ _ _ _ _ _ Hstart) as Hidle.
  destruct (startRead_spec _ _ _ _ _ _ _ _ Hwf Hidle Hstart)
    as (_ & _ & _ & _ & _ & _ & _ & Hch).
  destruct (Hch chan Hchan)
    as (idx & ts & (fifo & _ & _ & Hin & Hout) & Hidx & Hts & Hlast & Hrs).
  exists idx, ts. split_and!; try done.
  - intros Hlt. split; [by apply Hin |].
    unfold Array_at. by rewrite Hlast.
  - intros Hge. rewrite <- (Hout Hge). split; [done |].
    unfold Array_at at 1. by rewrite Hlast.
Qed.

Lemma startRead_open indexes timestamps nMax q :
  m_readInProgress q = true ->
  startRead indexes timestamps nMax q = Some (false, indexes, timestamps, q).
Proof. intros Hopen. unfold startRead. by rewrite Hopen. Qed.

(** C5.  While a read session is open, [startRead] returns false at once;
    the whole queue (allocators, recorded lengths, tables, last-read
    timestamps, flag) and the caller's two arrays are left as they were. *)
Theorem C5_startRead_rejected_while_open indexes timestamps nMax q :
  m_readInProgress q = true ->
  startRead indexes timestamps nMax q = Some (false, indexes, timestamps, q).
Proof.
  intros Hopen. unfold startRead.
  destruct (m_readInProgress q); [reflexivity | discriminate Hopen].
Qed.

(** C6, as the code has it.  While a read session is open, [setChannels] and
    [resize] leave the whole queue unchanged; both are [void], so the only
    thing handed back to the caller is [RVoid]. *)
Theorem C6_reconfiguration_ignored_while_open nChans nBlocks q :
  m_readInProgress q = true ->
  setChannels nChans q = q /\
  resize nBlocks q = Some q /\
  exec (OpSetChannels nChans) q = Some (RVoid, q) /\
  exec (OpResize nBlocks) q = Some (RVoid, q).
Proof.
  intros Hopen. unfold exec, setChannels, resize. rewrite Hopen. by simpl.
Qed.

Lemma stopRead_idle q :
  m_readInProgress q = false -> stopRead q = Some q.
Proof. intros Hidle. unfold stopRead. by rewrite Hidle. Qed.

(** C7.  Without an open session [stopRead] changes nothing.  With one, it
    commits to the allocator of every channel exactly the length recorded
    for it, zeroes each recorded length and clears the flag; when the
    session was opened by [startRead] on the queue [q0], the committed
    length of a channel is the consumed length that call returned for it. *)
Theorem C7_stopRead_commits q :
  (m_readInProgress q = false -> stopRead q = Some q) /\
  (queue_wf q -> m_readInProgress q = true ->
   exists q',
     stopRead q = Some q' /\
     m_readInProgress q' = false /\
     forall chan, 0 <= chan < m_numChans q ->
       exists f,
         Array_get (m_fifos q) chan = Some f /\
         Array_get (m_fifos q') chan
         = Some (AbstractFifo.finishedRead f (Array_at 0 (m_readSamples q) chan)) /\
         Array_get (m_readSamples q') chan = Some 0) /\
  (forall indexes0 timestamps0 nMax q0 indexes timestamps,
     queue_wf q0 ->
     startRead indexes0 timestamps0 nMax q0
     = Some (true, indexes, timestamps, q) ->
     exists q',
       stopRead q = Some q' /\
       m_readInProgress q' = false /\
       forall chan, 0 <= chan < m_numChans q0 ->
         exists f idx,
           Array_get (m_fifos q0) chan = Some f /\
           Array_get indexes chan = Some idx /\
           Array_get (m_fifos q') chan
           = Some (AbstractFifo.finishedRead f (consumed idx)) /\
           Array_get (m_readSamples q') chan = Some 0).
Proof.
  split_and!.
  - apply stopRead_idle.
  - intros Hwf Hopen.
    destruct (stopRead_spec q Hwf Hopen)
      as (q' & Hstop & Hflag & _ & _ & _ & _ & _ & _ & _ & _ & _ & Hch).
    by exists q'.
  - intros indexes0 timestamps0 nMax q0 indexes timestamps Hwf0 Hstart.
    pose proof (startRead_ok_idle _ _ _ _ _ _ _ Hstart) as Hidle.
    pose proof (startRead_wf _ _ _ _ _ _ _ _ Hwf0 Hstart) as Hwf.
    destruct (startRead_spec _ _ _ _ _ _ _ _ Hwf0 Hidle Hstart)
      as (_ & Hopen & (_ & Hf & _ & Hn & _) & _ & _ & _ & _ & Hsess).
    destruct (stopRead_spec q Hwf Hopen)
      as (q' & Hstop & Hflag & _ & _ & _ & _ & _ & _ & _ & _ & _ & Hch).
    exists q'. split_and!; try done.
    intros chan Hchan.
    destruct (Hch chan ltac:(lia)) as (f & Hfq & Hfq' & Hrs').
    destruct (Hsess chan Hchan) as (idx & ts & _ & Hidx & _ & _ & Hrs).
    exists f, idx. rewrite <- Hf. split_and!; try done.
    rewrite Hfq'. unfold Array_at. by rewrite Hrs.
Qed.

(** C10.  A negative [nMax] is no cap, exactly as [nMax = 0]: the call
    behaves as with 0, and every channel's consumed length is its full
    ready-to-read count. *)
Theorem C10_negative_cap_is_no_cap indexes0 timestamps0 nMax q :
  nMax < 0 ->
  queue_wf q ->
  startRead indexes0 timestamps0 nMax q = startRead indexes0 timestamps0 0 q /\
  (m_readInProgress q = false ->
   exists indexes timestamps q',
     startRead indexes0 timestamps0 nMax q
     = Some (true, indexes, timestamps, q') /\
     forall chan, 0 <= chan < m_numChans q ->
       exists fifo idx,
         Array_get (m_fifos q) chan = Some fifo /\
         Array_get indexes chan = Some idx /\
         consumed idx = AbstractFifo.getNumReady fifo /\
         Array_get (m_readSamples q') chan
         = Some (AbstractFifo.getNumReady fifo)).
Proof.
  intros Hneg Hwf. split.
  - unfold startRead. destruct (m_readInProgress q); [done |].
    rewrite (for_chans_ext (startRead_chan nMax) (startRead_chan 0)); [done |].
    intros chan [[q1 indexes1] timestamps1]. unfold startRead_chan.
    destruct (Array_get (m_fifos q1) chan) as [fifo |]; [| done]. simpl.
    destruct (Z.ltb_spec 0 nMax); [lia |].
    change (0 <? 0) with false. by rewrite !andb_false_r.
  - intros Hidle.
    destruct (startRead_total indexes0 timestamps0 nMax q Hwf)
      as (ok & indexes & timestamps & q' & Hstart).
    destruct (startRead_spec _ _ _ _ _ _ _ _ Hwf Hidle Hstart)
      as (-> & _ & _ & _ & _ & _ & _ & Hch).
    exists indexes, timestamps, q'. split; [done |].
    intros chan Hchan.
    destruct (Hch chan Hchan) as (idx & ts & Hsess & Hidx & _ & _ & Hrs).
    destruct Hsess as (fifo & Hfifo & Hrest).
    destruct (chan_session_consumed q nMax chan idx ts fifo Hwf)
      as (_ & _ & _ & _ & Hfull); [by exists fifo | done |].
    exists fifo, idx. split_and!; try done; [lia |].
    rewrite Hrs. f_equal. lia.
Qed.

(** ** The idle invariant *)

Lemma fillTimestamps_frame channel index size timestamp q q' :
  fillTimestamps channel index size timestamp q = Some q' ->
  m_buffer q' = m_buffer q /\ m_fifos q' = m_fifos q /\
  m_lastReadTimestamps q' = m_lastReadTimestamps q /\
  m_readSamples q' = m_readSamples q /\ m_numChans q' = m_numChans q /\
  m_readInProgress q' = m_readInProgress q.
Proof.
  unfold fillTimestamps.
  destruct (m_blockSize q =? 0); [done |].
  destruct ((m_blockSize q <? 0) && (0 <? size)); [done |].
  destruct (size <=? 0).
  - intros Hq. by inversion Hq.
  - destruct (Array_get (m_timestamps q) channel); [| done].
    simpl. intros Hq. by inversion Hq.
Qed.

(** [writeChannel] never touches the session bookkeeping. *)
Lemma writeChannel_frame buffer channel nSamples timestamp q q' :
  writeChannel buffer channel nSamples timestamp q = Some q' ->
  m_lastReadTimestamps q' = m_lastReadTimestamps q /\
  m_readSamples q' = m_readSamples q /\ m_numChans q' = m_numChans q /\
  m_readInProgress q' = m_readInProgress q.
Proof.
  unfold writeChannel.
  destruct (Array_get (m_fifos q) channel) as [fifo |]; [| done]. simpl.
  destruct (AbstractFifo.prepareToWrite fifo nSamples) as [[[i1 s1] i2] s2].
  destruct (copyFrom (m_buffer q) channel i1 buffer channel 0 s1)
    as [buf1 |]; [| done]. simpl.
  destruct (fillTimestamps channel i1 s1 timestamp (with_buffer buf1 q))
    as [q1 |] eqn:Hfill1; [| done]. simpl.
  apply fillTimestamps_frame in Hfill1 as (_ & _ & Hl1 & Hr1 & Hn1 & Hp1).
  simpl in *.
  destruct (0 <? s2).
  - destruct (copyFrom (m_buffer q1) channel i2 buffer channel s1 s2)
      as [buf2 |]; [| done]. simpl.
    destruct (fillTimestamps channel i2 s2 (timestamp + s1) (with_buffer buf2 q1))
      as [q2 |] eqn:Hfill2; [| done]. simpl.
    apply fillTimestamps_frame in Hfill2 as (_ & _ & Hl2 & Hr2 & Hn2 & Hp2).
    simpl in *. intros Hq. inversion Hq; subst; simpl.
    split_and!; congruence.
  - simpl. intros Hq. inversion Hq; subst; simpl. done.
Qed.

Lemma startRead_sets_flag indexes0 timestamps0 nMax q ok indexes timestamps q' :
  m_readInProgress q = false ->
  startRead indexes0 timestamps0 nMax q = Some (ok, indexes, timestamps, q') ->
  m_readInProgress q' = true.
Proof.
  intros Hidle. unfold startRead. rewrite Hidle.
  destruct (for_chans _ _ _ _) as [[[q1 indexes1] timestamps1] |] eqn:Hloop;
    [| done].
  simpl. intros Hq. inversion Hq; subst; clear Hq.
  apply (for_chans_inv (fun _ st => m_readInProgress (fst (fst st)) = true))
    in Hloop; [done | done |].
  intros chan [[qa ia] ta] [[qb ib] tb] _ Hflag Hbody.
  destruct (startRead_chan_spec _ _ _ _ _ _ _ _ Hbody) as (? & ? & _ & _ & _ & ->).
  done.
Qed.

Lemma DataQueue_new_idle_inv blockSize nBlocks :
  idle_inv (DataQueue_new blockSize nBlocks).
Proof. intros _ chan Hchan. simpl in Hchan. lia. Qed.

(** C9.  The invariant "no session in progress implies every recorded
    consumed length is zero" is preserved by every call of [setChannels],
    [resize], [writeChannel], [startRead] and [stopRead]. *)
Theorem C9_idle_invariant_preserved op q r q' :
  idle_inv q ->
  exec op q = Some (r, q') ->
  idle_inv q'.
Proof.
  intros Hinv Hexec. destruct op as [nChans | nBlocks | buffer channel n ts | nMax |];
    simpl in Hexec.
  - inversion Hexec; subst; clear Hexec. unfold setChannels.
    destruct (m_readInProgress q) eqn:Hflag; [done |].
    intros _ chan Hchan. simpl in *. unfold Array_at.
    rewrite Array_get_lookup by lia.
    by rewrite lookup_replicate_2 by lia.
  - destruct (resize nBlocks q) as [q1 |] eqn:Hresize; [| done].
    simpl in Hexec. inversion Hexec; subst; clear Hexec.
    unfold resize in Hresize.
    destruct (m_readInProgress q) eqn:Hflag.
    { inversion Hresize; by subst. }
    destruct (for_chans _ _ _ _) as [q2 |] eqn:Hloop; [| done].
    simpl in Hresize. inversion Hresize; subst; clear Hresize.
    apply (for_chans_inv (zeroed_upto (m_numChans q))) in Hloop.
    + destruct Hloop as [Hn Hz]. intros _ chan Hchan. simpl in *.
      apply Hz. lia.
    + split; [done |]. intros ch Hch. lia.
    + intros chan s0 s1 _. apply resize_chan_zeroes.
  - destruct (writeChannel buffer channel n ts q) as [q1 |] eqn:Hwrite; [| done].
    simpl in Hexec. inversion Hexec; subst; clear Hexec.
    destruct (writeChannel_frame _ _ _ _ _ _ Hwrite) as (_ & Hr & Hn & Hp).
    unfold idle_inv. by rewrite Hr, Hn, Hp.
  - destruct (startRead [] [] nMax q) as [[[[ok indexes] timestamps] q1] |]
      eqn:Hstart; [| done].
    simpl in Hexec. inversion Hexec; subst; clear Hexec.
    destruct (m_readInProgress q) eqn:Hflag.
    + rewrite startRead_open in Hstart by done.
      inversion Hstart; by subst.
    + intros Hidle.
      rewrite (startRead_sets_flag _ _ _ _ _ _ _ _ Hflag Hstart) in Hidle.
      done.
  - destruct (stopRead q) as [q1 |] eqn:Hstop; [| done].
    simpl in Hexec. inversion Hexec; subst; clear Hexec.
    unfold stopRead in Hstop.
    destruct (m_readInProgress q) eqn:Hflag; simpl in Hstop.
    2:{ inversion Hstop; by subst. }
    destruct (for_chans _ _ _ _) as [q2 |] eqn:Hloop; [| done].
    simpl in Hstop. inversion Hstop; subst; clear Hstop.
    apply (for_chans_inv (zeroed_upto (m_numChans q))) in Hloop.
    + destruct Hloop as [Hn Hz]. intros _ chan Hchan. simpl in *.
      apply Hz. lia.
    + split; [done |]. intros ch Hch. lia.
    + intros chan s0 s1 _. apply stopRead_chan_zeroes.
Qed.

(** ** Successive sessions *)

Lemma chained_app blockSize l0 ss1 l1 ss2 l2 :
  chained blockSize l0 ss1 l1 -> chained blockSize l1 ss2 l2 ->
  chained blockSize l0 (ss1 ++ ss2) l2.
Proof.
  revert l0. induction ss1 as [| [idx ts] ss1 IH]; intros l0 H1 H2; simpl in *.
  - by subst.
  - destruct H1 as (? & ? & ?). split_and!; try done. by apply IH.
Qed.

Lemma chained_adjacent blockSize l0 before e1 e2 after l1 :
  chained blockSize l0 (before ++ [e1; e2] ++ after) l1 ->
  no_boundary blockSize (fst e2) ->
  snd e2 = snd e1 + consumed (fst e1) /\ snd e1 <= snd e2.
Proof.
  revert l0. induction before as [| [idx ts] before IH]; intros l0 Hch Hnb.
  - destruct e1 as [idx1 ts1], e2 as [idx2 ts2]. simpl in *.
    destruct Hch as (Hc1 & _ & _ & Hts2 & _).
    rewrite (Hts2 Hnb). lia.
  - simpl in Hch. destruct Hch as (_ & _ & Hch). by apply (IH _ Hch).
Qed.

(** One call of the steady state keeps the queue well formed and extends
    the chain of the channel. *)
Lemma exec_session_step chan op q r q' :
  queue_wf q -> 0 <= chan < m_numChans q -> session_op op = true ->
  exec op q = Some (r, q') ->
  queue_wf q' /\ m_numChans q' = m_numChans q /\
  m_blockSize q' = m_blockSize q /\
  chained (m_blockSize q)
    (Array_at 0 (m_lastReadTimestamps q) chan)
    (sessions chan [r])
    (Array_at 0 (m_lastReadTimestamps q') chan).
Proof.
  intros Hwf Hchan Hop Hexec.
  destruct op as [nChans | nBlocks | buffer channel n ts | nMax |];
    simpl in Hexec; try done.
  - destruct (writeChannel buffer channel n ts q) as [q1 |] eqn:Hwrite; [| done].
    simpl in Hexec. inversion Hexec; subst; clear Hexec.
    destruct (writeChannel_frame _ _ _ _ _ _ Hwrite) as (Hl & _ & Hn & _).
    pose proof (writeChannel_wf _ _ _ _ _ _ Hwf Hwrite) as Hwf'.
    destruct (writeChannel_inv _ _ _ _ _ _ Hwf Hwrite)
      as (? & ? & ? & ? & ? & ? & ? & ? & _ & _ & _ & _ & _ & ->).
    simpl. by split_and!.
  - destruct (startRead [] [] nMax q) as [[[[ok indexes] timestamps] q1] |]
      eqn:Hstart; [| done].
    simpl in Hexec. inversion Hexec; subst; clear Hexec.
    pose proof (startRead_wf _ _ _ _ _ _ _ _ Hwf Hstart) as Hwf'.
    destruct (m_readInProgress q) eqn:Hflag.
    + rewrite startRead_open in Hstart by done.
      inversion Hstart; subst. simpl. by split_and!.
    + destruct (startRead_spec _ _ _ _ _ _ _ _ Hwf Hflag Hstart)
        as (-> & _ & (_ & _ & _ & Hn & Hbs & _) & _ & _ & _ & _ & Hch).
      destruct (Hch chan Hchan)
        as (idx & ts & Hsess & Hidx & Hts & Hlast & _).
      split_and!; try done.
      unfold sessions. simpl. rewrite Hidx, Hts. simpl.
      destruct Hsess as (fifo & Hfifo & Hprep & Hin & Hout).
      destruct (chan_session_consumed q nMax chan idx ts fifo Hwf)
        as (_ & _ & _ & Hcons & _); [by exists fifo | done |].
      split_and!; [lia | done |].
      unfold Array_at. by rewrite Hlast.
  - destruct (stopRead q) as [q1 |] eqn:Hstop; [| done].
    simpl in Hexec. inversion Hexec; subst; clear Hexec.
    pose proof (stopRead_wf _ _ Hwf Hstop) as Hwf'.
    destruct (m_readInProgress q) eqn:Hflag.
    + destruct (stopRead_spec q Hwf Hflag)
        as (q'' & Hstop' & _ & _ & _ & Hl & Hn & Hbs & _).
      rewrite Hstop in Hstop'. inversion Hstop'; subst q''.
      simpl. rewrite Hl. by split_and!.
    + rewrite stopRead_idle in Hstop by done. inversion Hstop; subst.
      simpl. by split_and!.
Qed.

Lemma sessions_cons chan r rs :
  sessions chan (r :: rs) = sessions chan [r] ++ sessions chan rs.
Proof. unfold sessions. simpl. by destruct (session_of chan r). Qed.

(** A trace of the steady state keeps the queue well formed and chains all
    the sessions of a channel. *)
Lemma run_sessions chan ops q results q' :
  queue_wf q -> 0 <= chan < m_numChans q ->
  forallb session_op ops = true ->
  run ops q = Some (results, q') ->
  queue_wf q' /\ m_numChans q' = m_numChans q /\
  m_blockSize q' = m_blockSize q /\
  chained (m_blockSize q)
    (Array_at 0 (m_lastReadTimestamps q) chan)
    (sessions chan results)
    (Array_at 0 (m_lastReadTimestamps q') chan).
Proof.
  revert q results. induction ops as [| op ops IH]; intros q results Hwf Hchan Hops Hrun.
  - simpl in Hrun. inversion Hrun; subst. simpl. by split_and!.
  - simpl in Hrun, Hops. apply andb_true_iff in Hops as [Hop Hops].
    destruct (exec op q) as [[r q1] |] eqn:Hexec; [| done]. simpl in Hrun.
    destruct (run ops q1) as [[rs q2] |] eqn:Hrest; [| done]. simpl in Hrun.
    inversion Hrun; subst; clear Hrun.
    destruct (exec_session_step chan op q r q1 Hwf Hchan Hop Hexec)
      as (Hwf1 & Hn1 & Hbs1 & Hch1).
    destruct (IH q1 rs Hwf1 ltac:(lia) Hops Hrest) as (Hwf2 & Hn2 & Hbs2 & Hch2).
    split_and!; try congruence.
    rewrite sessions_cons. rewrite Hbs1 in Hch2.
    exact (chained_app _ _ _ _ _ _ Hch1 Hch2).
Qed.

(** X18.  In any sequence of [writeChannel], [startRead] and [stopRead]
    calls, whatever the writer stamps, whenever a session of a channel
    touches no block boundary its reconciled timestamp is the previous
    session's reconciled timestamp plus the previous session's consumed
    length, and so is not below it. *)
Theorem X18_sessions_continue_without_boundary chan ops q results q'
    before e1 e2 after :
  queue_wf q -> 0 <= chan < m_numChans q ->
  forallb session_op ops = true ->
  run ops q = Some (results, q') ->
  sessions chan results = before ++ [e1; e2] ++ after ->
  no_boundary (m_blockSize q) (fst e2) ->
  snd e2 = snd e1 + consumed (fst e1) /\ snd e1 <= snd e2.
Proof.
  intros Hwf Hchan Hops Hrun Hsess Hnb.
  destruct (run_sessions chan ops q results q' Hwf Hchan Hops Hrun)
    as (_ & _ & _ & Hch).
  rewrite Hsess in Hch. exact (chained_adjacent _ _ _ _ _ _ _ Hch Hnb).
Qed.

(** [writeChannel] returns on a well-formed queue, for a channel that exists
    and a source row that holds the announced samples. *)
Lemma writeChannel_total buffer channel nSamples timestamp q srow :
  queue_wf q -> 0 <= channel < m_numChans q ->
  Array_get buffer channel = Some srow ->
  nSamples <= Z.of_nat (length srow) ->
  exists q', writeChannel buffer channel nSamples timestamp q = Some q'.
Proof.
  intros Hwf Hchan Hsrow Hlen.
  destruct (Array_get_is_Some (m_fifos q) channel) as [fifo Hfifo].
  { rewrite (wf_len_fifos q Hwf). lia. }
  destruct (Array_get_is_Some (m_buffer q) channel) as [row Hrow].
  { rewrite (wf_len_buffer q Hwf). lia. }
  destruct (Array_get_is_Some (m_timestamps q) channel) as [tab Htab].
  { rewrite (wf_len_timestamps q Hwf). lia. }
  destruct (AbstractFifo.prepareToWrite fifo nSamples)
    as [[[i1 s1] i2] s2] eqn:Hprep.
  eexists.
  exact (writeChannel_spec buffer channel nSamples timestamp q fifo row tab
           srow i1 s1 i2 s2 Hwf Hfifo Hrow Htab Hsrow Hlen Hprep).
Qed.

(** ** Concrete queues *)

Lemma idle_queue_wf : queue_wf idle_queue.
Proof. apply DataQueue_new_setChannels_wf; lia. Qed.

Lemma open_queue_reached :
  startRead [] [] 0 idle_queue
  = Some (true, [mkIndexes 0 0 0 0], [0], open_queue).
Proof. reflexivity. Qed.

Lemma open_queue_wf : queue_wf open_queue.
Proof.
  exact (startRead_wf _ _ _ _ _ _ _ _ idle_queue_wf open_queue_reached).
Qed.

Lemma offset3_queue_reached :
  writeChannel (ramp 3) 0 3 97 idle_queue = Some offset3_queue.
Proof. reflexivity. Qed.

Lemma offset3_queue_wf : queue_wf offset3_queue.
Proof.
  exact (writeChannel_wf _ _ _ _ _ _ idle_queue_wf offset3_queue_reached).
Qed.

Lemma written10_queue_reached :
  writeChannel (ramp 10) 0 10 100 idle_queue = Some written10_queue.
Proof. reflexivity. Qed.

Lemma written10_queue_wf : queue_wf written10_queue.
Proof.
  exact (writeChannel_wf _ _ _ _ _ _ idle_queue_wf written10_queue_reached).
Qed.

(** ** The claims at concrete inputs *)

Lemma C8_misaligned_write_witness :
  AbstractFifo.prepareToWrite (AbstractFifo.mk 20 0 3) 10 = (3, 10, 0, 0) /\
  exists q' tab',
    writeChannel (ramp 10) 0 10 100 offset3_queue = Some q' /\
    Array_get (m_timestamps q') 0 = Some tab' /\
    Array_get tab' (Z.rem (Z.quot 10 10) 2) = Some 107.
Proof.
  apply (C8_misaligned_write_stamps_107 offset3_queue (ramp 10) 0
           (AbstractFifo.mk 20 0 3) (map Z.of_nat (seq 1 10))).
  - exact offset3_queue_wf.
  - reflexivity.
  - simpl. lia.
  - reflexivity.
  - reflexivity.
  - vm_compute. discriminate.
  - reflexivity.
  - simpl. lia.
Defined.

Lemma C4_overflow_write_witness :
  exists q' row' fifo',
    writeChannel (ramp 25) 0 25 100 idle_queue = Some q' /\
    Array_get (m_buffer q') 0 = Some row' /\
    Array_get (m_fifos q') 0 = Some fifo' /\
    (0 <= 19 /\ 0 <= 0 /\
     19 + 0 = AbstractFifo.getFreeSpace (AbstractFifo.create 20) /\
     19 + 0 < 25 /\
     19 + 0 < AbstractFifo.getTotalSize (AbstractFifo.create 20)) /\
    (forall k, 0 <= k < 19 ->
       Array_get row' (0 + k) = Array_get (map Z.of_nat (seq 1 25)) k) /\
    (forall k, 0 <= k < 0 ->
       Array_get row' (0 + k) = Array_get (map Z.of_nat (seq 1 25)) (19 + k)) /\
    (forall p, ~ in_window 0 19 p -> ~ in_window 0 0 p ->
       Array_get row' p = Array_get (replicate 20 0) p) /\
    (forall p, holds_unread (AbstractFifo.create 20) p ->
       Array_get row' p = Array_get (replicate 20 0) p) /\
    (forall c, c <> 0 ->
       Array_get (m_buffer q') c = Array_get (m_buffer idle_queue) c) /\
    fifo' = AbstractFifo.finishedWrite (AbstractFifo.create 20) (19 + 0) /\
    AbstractFifo.getNumReady fifo'
    = AbstractFifo.getNumReady (AbstractFifo.create 20) + (19 + 0) /\
    AbstractFifo.validStart fifo'
    = AbstractFifo.validStart (AbstractFifo.create 20) /\
    AbstractFifo.getFreeSpace fifo' = 0.
Proof.
  apply (C4_overflow_write_truncates idle_queue (ramp 25) 0 25 100
           (AbstractFifo.create 20) (replicate 20 0)
           (map Z.of_nat (seq 1 25)) 0 19 0 0).
  - exact idle_queue_wf.
  - reflexivity.
  - reflexivity.
  - reflexivity.
  - simpl. lia.
  - vm_compute. reflexivity.
  - reflexivity.
Defined.

Lemma C2_startRead_witness :
  exists idx ts,
    Array_get [mkIndexes 0 10 0 0] 0 = Some idx /\
    Array_get [100] 0 = Some ts /\
    Array_get [10] 0 = Some (consumed idx) /\
    (blockOffset 10 idx < consumed idx ->
     (exists tab stamp,
        Array_get [[100; 0]] 0 = Some tab /\
        Array_get tab (boundarySlot 10 2 idx) = Some stamp /\
        ts = stamp - blockOffset 10 idx) /\
     Array_at 0 [110] 0 = ts + consumed idx) /\
    (consumed idx <= blockOffset 10 idx ->
     ts = Array_at 0 [0] 0 /\
     Array_at 0 [110] 0 = Array_at 0 [0] 0 + consumed idx).
Proof.
  apply (C2_startRead_reconciles [] [] 0 written10_queue
           [mkIndexes 0 10 0 0] [100]
           (mkDataQueue (m_buffer written10_queue) (m_fifos written10_queue)
              (m_timestamps written10_queue) [110] [10] 1 10 true 2 20) 0).
  - exact written10_queue_wf.
  - reflexivity.
  - simpl. lia.
Defined.

Lemma C5_startRead_rejected_witness :
  startRead [] [] 0 open_queue = Some (false, [], [], open_queue).
Proof.
  apply (C5_startRead_rejected_while_open [] [] 0 open_queue). reflexivity.
Defined.

Lemma C6_reconfiguration_ignored_witness :
  setChannels 2 open_queue = open_queue /\
  resize 3 open_queue = Some open_queue /\
  exec (OpSetChannels 2) open_queue = Some (RVoid, open_queue) /\
  exec (OpResize 3) open_queue = Some (RVoid, open_queue).
Proof.
  apply (C6_reconfiguration_ignored_while_open 2 3 open_queue). reflexivity.
Defined.

(** C6, the part that does not hold: [setChannels 2] and [resize 3] are accepted on the
    idle queue (they change it) and rejected on the queue with an open
    session (they leave it alone), and the caller is handed the same
    [RVoid] in both cases, so nothing reports the rejection. *)
Lemma C6_rejection_not_reported :
  m_readInProgress open_queue = true /\
  m_readInProgress idle_queue = false /\
  (exec (OpSetChannels 2) open_queue = Some (RVoid, open_queue) /\
   exec (OpSetChannels 2) idle_queue = Some (RVoid, setChannels 2 idle_queue) /\
   m_numChans (setChannels 2 idle_queue) <> m_numChans idle_queue /\
   ~ reports_rejection (OpSetChannels 2) open_queue idle_queue) /\
  (exec (OpResize 3) open_queue = Some (RVoid, open_queue) /\
   (exists q', exec (OpResize 3) idle_queue = Some (RVoid, q') /\
               m_numBlocks q' <> m_numBlocks idle_queue) /\
   ~ reports_rejection (OpResize 3) open_queue idle_queue).
Proof.
  split_and!; try reflexivity.
  - vm_compute. discriminate.
  - intros (failed & Hrej & Hacc).
    specialize (Hrej RVoid open_queue eq_refl).
    specialize (Hacc RVoid (setChannels 2 idle_queue) eq_refl).
    congruence.
  - eexists. split; [vm_compute; reflexivity |]. vm_compute. discriminate.
  - intros (failed & Hrej & Hacc).
    specialize (Hrej RVoid open_queue eq_refl).
    assert (exists q', exec (OpResize 3) idle_queue = Some (RVoid, q'))
      as [q' Hq'] by (eexists; vm_compute; reflexivity).
    specialize (Hacc RVoid q' Hq'). congruence.
Qed.

Lemma reading3_queue_reached :
  startRead [] [] 3 written10_queue
  = Some (true, [mkIndexes 0 3 0 0], [100], reading3_queue).
Proof. reflexivity. Qed.

Lemma reading3_queue_wf : queue_wf reading3_queue.
Proof.
  exact (startRead_wf _ _ _ _ _ _ _ _ written10_queue_wf
           reading3_queue_reached).
Qed.

Lemma C7_stopRead_witness :
  stopRead idle_queue = Some idle_queue /\
  (exists q',
     stopRead reading3_queue = Some q' /\
     m_readInProgress q' = false /\
     forall chan, 0 <= chan < m_numChans reading3_queue ->
       exists f,
         Array_get (m_fifos reading3_queue) chan = Some f /\
         Array_get (m_fifos q') chan
         = Some (AbstractFifo.finishedRead f
                   (Array_at 0 (m_readSamples reading3_queue) chan)) /\
         Array_get (m_readSamples q') chan = Some 0) /\
  (exists q',
     stopRead reading3_queue = Some q' /\
     m_readInProgress q' = false /\
     forall chan, 0 <= chan < m_numChans written10_queue ->
       exists f idx,
         Array_get (m_fifos written10_queue) chan = Some f /\
         Array_get [mkIndexes 0 3 0 0] chan = Some idx /\
         Array_get (m_fifos q') chan
         = Some (AbstractFifo.finishedRead f (consumed idx)) /\
         Array_get (m_readSamples q') chan = Some 0) /\
  Array_at 0 (m_readSamples reading3_queue) 0 = 3 /\
  stopRead reading3_queue
  = Some (mkDataQueue (m_buffer written10_queue) [AbstractFifo.mk 20 3 10]
            [[100; 0]] [103] [0] 1 10 false 2 20).
Proof.
  split_and!.
  - apply (proj1 (C7_stopRead_commits idle_queue)). reflexivity.
  - apply (proj1 (proj2 (C7_stopRead_commits reading3_queue))).
    + exact reading3_queue_wf.
    + reflexivity.
  - apply (proj2 (proj2 (C7_stopRead_commits reading3_queue))
             [] [] 3 written10_queue [mkIndexes 0 3 0 0] [100]).
    + exact written10_queue_wf.
    + reflexivity.
  - reflexivity.
  - reflexivity.
Defined.

Lemma C9_idle_invariant_witness :
  idle_inv (setChannels 2 idle_queue).
Proof.
  apply (C9_idle_invariant_preserved (OpSetChannels 2) idle_queue RVoid
           (setChannels 2 idle_queue)).
  - intros _ chan Hchan. vm_compute in Hchan.
    assert (chan = 0) as -> by (destruct Hchan as [H0 H1]; destruct chan;
      [reflexivity | destruct p; discriminate H1 | contradiction H0; reflexivity]).
    reflexivity.
  - reflexivity.
Defined.

Lemma C10_negative_cap_witness :
  startRead [] [] (-1) written10_queue = startRead [] [] 0 written10_queue /\
  (m_readInProgress written10_queue = false ->
   exists indexes timestamps q',
     startRead [] [] (-1) written10_queue
     = Some (true, indexes, timestamps, q') /\
     forall chan, 0 <= chan < m_numChans written10_queue ->
       exists fifo idx,
         Array_get (m_fifos written10_queue) chan = Some fifo /\
         Array_get indexes chan = Some idx /\
         consumed idx = AbstractFifo.getNumReady fifo /\
         Array_get (m_readSamples q') chan
         = Some (AbstractFifo.getNumReady fifo)).
Proof.
  apply (C10_negative_cap_is_no_cap [] [] (-1) written10_queue).
  - reflexivity.
  - exact written10_queue_wf.
Defined.

Lemma X18_sessions_continue_witness :
  103 = 100 + consumed (mkIndexes 0 3 0 0) /\ 100 <= 103.
Proof.
  apply (X18_sessions_continue_without_boundary 0 capped_ops idle_queue
           [RVoid; RStartRead true [mkIndexes 0 3 0 0] [100]; RVoid;
            RStartRead true [mkIndexes 3 3 0 0] [103]]
           (mkDataQueue (m_buffer written10_queue)
              [AbstractFifo.mk 20 3 10] [[100; 0]] [106] [3] 1 10 true 2 20)
           [] (mkIndexes 0 3 0 0, 100) (mkIndexes 3 3 0 0, 103) []).
  - exact idle_queue_wf.
  - simpl. lia.
  - reflexivity.
  - reflexivity.
  - reflexivity.
  - vm_compute. discriminate.
Defined.

(** The queue hands on whatever the writer stamped: for a writer whose
    timestamps go back, on the trace [backwards_ops], the two successive
    sessions of channel 0 return the reconciled timestamps 100 and then
    50. *)
Lemma backwards_writer_is_read_backwards :
  queue_wf idle_queue /\
  forallb session_op backwards_ops = true /\
  exists results q',
    run backwards_ops idle_queue = Some (results, q') /\
    sessions 0 results
    = [(mkIndexes 0 10 0 0, 100); (mkIndexes 10 10 0 0, 50)] /\
    ~ (100 <= 50).
Proof.
  split; [exact idle_queue_wf |]. split; [reflexivity |].
  eexists. eexists. split; [vm_compute; reflexivity |].
  split; [reflexivity | lia].
Qed.

(** The order of the reconciled timestamps also breaks under a single,
    contiguous write when it spans two blocks: 20 samples stamped 100 are
    read back in two sessions whose timestamps are 200 and then 0. *)
Lemma two_block_write_breaks_order :
  exists results q',
    run two_block_ops (setChannels 1 (DataQueue_new 10 4)) = Some (results, q') /\
    sessions 0 results
    = [(mkIndexes 0 10 0 0, 200); (mkIndexes 10 10 0 0, 0)].
Proof. eexists. eexists. split; [vm_compute; reflexivity | reflexivity]. Qed.

Lemma wrap_queue_wf : queue_wf wrap_queue.
Proof. apply DataQueue_new_setChannels_wf; lia. Qed.

(** C3.  A writer whose timestamps never go back is read out of order.  With
    blocks of 4 samples and a ring of 2 blocks, 6 samples are written with
    timestamp 1000 and read, then 6 more are written with the next
    timestamp, [1000 + 6], and read.  The sessions of channel 0 should
    return 1000 and then 1006; they return 1016 and then 1006.  The first
    write is granted the single window [(0, 6)], which covers the block
    starts 0 and 4: the stamping loop of [fillTimestamps] sets slot 0 to
    1000 and then overwrites it with [1000 + 4 * 4], and never writes 1004
    to slot 1, so the first session, which starts at the block start 0,
    reads 1016 from slot 0. *)
Theorem C3_contiguous_writes_read_out_of_order :
  queue_wf wrap_queue /\
  forallb session_op wrap_ops = true /\
  disciplined (m_maxSize wrap_queue) 0
    (Array_at 0 (m_lastReadTimestamps wrap_queue) 0) wrap_ops /\
  AbstractFifo.prepareToWrite (AbstractFifo.create 8) 6 = (0, 6, 0, 0) /\
  (exists q1,
     writeChannel (ramp 6) 0 6 1000 wrap_queue = Some q1 /\
     m_timestamps q1 = [[1016; 0]]) /\
  exists results q',
    run wrap_ops wrap_queue = Some (results, q') /\
    sessions 0 results
    = [(mkIndexes 0 6 0 0, 1016); (mkIndexes 6 2 0 4, 1006)] /\
    ~ (1016 <= 1006).
Proof.
  split; [exact wrap_queue_wf |]. split; [reflexivity |].
  split; [vm_compute; repeat split; discriminate |].
  split; [reflexivity |].
  split; [eexists; split; [vm_compute; reflexivity | reflexivity] |].
  eexists. eexists. split; [vm_compute; reflexivity |].
  split; [reflexivity | lia].
Qed.

(** ** Further properties: block timestamps *)

(** A window of at most one block stamps the block start it covers: the slot
    of an aligned position [p] of the window receives the timestamp of the
    sample at [p]. *)
Lemma fill_table_stamps_position blockSize numBlocks index size timestamp tab p :
  0 < blockSize -> 0 <= index -> index + size <= blockSize * numBlocks ->
  Z.of_nat (length tab) = numBlocks ->
  0 < size <= blockSize ->
  index <= p < index + size -> Z.rem p blockSize = 0 ->
  Z.rem (Z.quot p blockSize) numBlocks = Z.quot p blockSize /\
  Array_get (fill_table blockSize index size timestamp tab) (Z.quot p blockSize)
  = Some (timestamp + (p - index)).
Proof.
  intros Hbs Hidx Hwin Hlen Hsize Hp Hal.
  rewrite fill_table_single_block by done.
  rewrite Z.rem_mod_nonneg in Hal by lia.
  rewrite (Z.rem_mod_nonneg index), (Z.quot_div_nonneg index),
    (Z.quot_div_nonneg p) by lia.
  pose proof (Z.div_mod index blockSize ltac:(lia)) as Hdi.
  pose proof (Z.mod_pos_bound index blockSize Hbs) as Hmi.
  pose proof (Z.div_mod p blockSize ltac:(lia)) as Hdp.
  assert (0 <= index `div` blockSize) as Hqi by (apply Z.div_pos; lia).
  assert (0 <= p `div` blockSize < numBlocks) as Hqp.
  { split; [apply Z.div_pos; lia |]. apply Z.div_lt_upper_bound; lia. }
  split.
  { apply Z.rem_small. lia. }
  destruct (Z.eqb_spec (index `mod` blockSize) 0) as [Hz | Hnz].
  - assert (p `div` blockSize = index `div` blockSize) as Heq by nia.
    rewrite Heq. rewrite Array_get_set_eq by lia. f_equal. nia.
  - assert (p `div` blockSize = index `div` blockSize + 1) as Heq by nia.
    destruct (Z.ltb_spec (index + (blockSize - index `mod` blockSize))
                (index + size)) as [Hin | Hout]; [| nia].
    rewrite Heq. rewrite Array_get_set_eq by lia. f_equal. nia.
Qed.

(** X1.  [fillTimestamps] on a window of at most [blockSize] samples that
    lies inside the ring: every block-aligned position [p] of the window is
    stamped, in slot [(p / blockSize) mod numBlocks], with the timestamp of
    the sample at [p] (the window's timestamp plus [p - index]), and the
    table keeps its length. *)
Theorem X1_single_block_window_stamped channel index size timestamp q tab p :
  queue_wf q ->
  Array_get (m_timestamps q) channel = Some tab ->
  0 <= index -> index + size <= m_maxSize q ->
  0 < size <= m_blockSize q ->
  index <= p < index + size -> Z.rem p (m_blockSize q) = 0 ->
  exists q' tab',
    fillTimestamps channel index size timestamp q = Some q' /\
    Array_get (m_timestamps q') channel = Some tab' /\
    length tab' = length tab /\
    Array_get tab' (Z.rem (Z.quot p (m_blockSize q)) (m_numBlocks q))
    = Some (timestamp + (p - index)).
Proof.
  intros Hwf Htab Hidx Hwin Hsize Hp Hal.
  pose proof (wf_blockSize q Hwf) as Hbs.
  pose proof (wf_maxSize q Hwf) as Hmax.
  pose proof (wf_tab_at _ _ _ Hwf Htab) as Hlen.
  pose proof (Array_get_Some_range _ _ _ Htab) as Hc.
  rewrite (fillTimestamps_spec _ _ _ _ _ tab) by done.
  eexists. eexists. split; [done |]. simpl.
  split; [apply Array_get_insert_eq; lia |].
  destruct (fill_table_stamps_position (m_blockSize q) (m_numBlocks q) index
              size timestamp tab p) as [Hslot Hget]; try done; try lia.
  split.
  - apply (fill_table_length _ (m_numBlocks q)); lia.
  - by rewrite Hslot.
Qed.

(** X2.  For a window that lies inside the ring ([0 <= index] and
    [index + size <= maxSize]), however many blocks it covers,
    [fillTimestamps] writes at most one slot of the table: every slot other
    than the one of the first block start at or after [index] keeps its
    entry, the table keeps its length, and the tables of the other channels
    are untouched. *)
Theorem X2_fillTimestamps_touches_one_slot channel index size timestamp q tab :
  queue_wf q ->
  Array_get (m_timestamps q) channel = Some tab ->
  0 <= index -> index + size <= m_maxSize q ->
  exists q' tab',
    fillTimestamps channel index size timestamp q = Some q' /\
    Array_get (m_timestamps q') channel = Some tab' /\
    length tab' = length tab /\
    (forall j,
       j <> (if Z.rem index (m_blockSize q) =? 0
             then Z.quot index (m_blockSize q)
             else Z.quot index (m_blockSize q) + 1) ->
       Array_get tab' j = Array_get tab j) /\
    (forall c, c <> channel ->
       Array_get (m_timestamps q') c = Array_get (m_timestamps q) c).
Proof.
  intros Hwf Htab Hidx Hwin.
  pose proof (wf_blockSize q Hwf) as Hbs.
  pose proof (wf_maxSize q Hwf) as Hmax.
  pose proof (wf_tab_at _ _ _ Hwf Htab) as Hlen.
  pose proof (Array_get_Some_range _ _ _ Htab) as Hc.
  rewrite (fillTimestamps_spec _ _ _ _ _ tab) by done.
  eexists. eexists. split; [done |]. simpl.
  split; [apply Array_get_insert_eq; lia |].
  split_and!.
  - apply (fill_table_length _ (m_numBlocks q)); lia.
  - intros j Hj. apply (fill_table_other_slots _ (m_numBlocks q)); (done || lia).
  - intros c Hne. apply Array_get_insert_ne; lia.
Qed.

(** ** Further properties: the write path *)

(** What a write does to the row of its channel: the granted windows receive
    the leading source samples, every other position keeps its sample. *)
Lemma write_row_outcome q channel fifo row srow nSamples i1 s1 i2 s2 :
  queue_wf q ->
  Array_get (m_fifos q) channel = Some fifo ->
  Array_get (m_buffer q) channel = Some row ->
  nSamples <= Z.of_nat (length srow) ->
  AbstractFifo.prepareToWrite fifo nSamples = (i1, s1, i2, s2) ->
  let row' :=
    copy_range (copy_range row (Z.to_nat i1) srow 0 (Z.to_nat s1))
      (Z.to_nat i2) srow (Z.to_nat s1) (Z.to_nat s2) in
  length row' = length row /\
  (forall k, 0 <= k < s1 -> Array_get row' (i1 + k) = Array_get srow k) /\
  (forall k, 0 <= k < s2 -> Array_get row' (i2 + k) = Array_get srow (s1 + k)) /\
  (forall p, ~ in_window i1 s1 p -> ~ in_window i2 s2 p ->
     Array_get row' p = Array_get row p) /\
  (forall p, holds_unread fifo p -> Array_get row' p = Array_get row p).
Proof.
  intros Hwf Hfifo Hrow Hlen Hprep row'.
  pose proof (Array_get_Some_range _ _ _ Hfifo) as Hc.
  destruct (wf_fifo_at _ _ _ Hwf Hfifo) as [Hfwf Hfsize].
  pose proof (wf_len_buffer q Hwf) as Hlb.
  assert (Z.of_nat (length row) = m_maxSize q) as Hrowlen.
  { rewrite Array_get_lookup in Hrow by lia.
    exact (Forall_lookup_1 _ _ _ _ (wf_rows q Hwf) Hrow). }
  destruct (fifo_prepareToWrite_spec _ _ _ _ _ _ Hfwf Hprep)
    as (Hs1 & Hs2 & Htot & Hi1 & Hw1 & Hi2 & Hw2 & Hfirst & Hwrap).
  pose proof (fifo_freeSpace_range _ Hfwf) as Hfree.
  set (row1 := copy_range row (Z.to_nat i1) srow 0 (Z.to_nat s1)) in *.
  assert (length row1 = length row) as Hrow1len
    by (apply copy_range_length; lia).
  assert (forall p, ~ in_window i1 s1 p -> ~ in_window i2 s2 p ->
            Array_get row' p = Array_get row p) as Hout.
  { intros p Hp1 Hp2. subst row'.
    rewrite copy_range_get_out by (done || lia).
    apply (copy_range_get_out row i1 srow 0 s1 p); (done || lia). }
  split_and!; try done.
  - subst row'. rewrite copy_range_length by lia. done.
  - intros k Hk. subst row'.
    rewrite copy_range_get_out by (unfold in_window; lia).
    apply (copy_range_get_in row i1 srow 0 s1 k); lia.
  - intros k Hk. subst row'. apply copy_range_get_in; lia.
  - intros p Hp. apply Hout; intros Hin;
      eapply (fifo_prepareToWrite_free fifo nSamples); eauto.
Qed.

(** X3.  A write that fits (the request is at most the free space) stores
    every sample: the granted total is the request, the source samples are
    in the granted windows in order, no other position of the sample store
    changes, and the ready count of the channel grows by the request. *)
Theorem X3_fitting_write_stores_all q buffer channel nSamples timestamp
    fifo row srow i1 s1 i2 s2 :
  queue_wf q ->
  Array_get (m_fifos q) channel = Some fifo ->
  Array_get (m_buffer q) channel = Some row ->
  Array_get buffer channel = Some srow ->
  nSamples <= Z.of_nat (length srow) ->
  0 <= nSamples <= AbstractFifo.getFreeSpace fifo ->
  AbstractFifo.prepareToWrite fifo nSamples = (i1, s1, i2, s2) ->
  exists q' row' fifo',
    writeChannel buffer channel nSamples timestamp q = Some q' /\
    Array_get (m_buffer q') channel = Some row' /\
    Array_get (m_fifos q') channel = Some fifo' /\
    s1 + s2 = nSamples /\
    (forall k, 0 <= k < s1 -> Array_get row' (i1 + k) = Array_get srow k) /\
    (forall k, 0 <= k < s2 -> Array_get row' (i2 + k) = Array_get srow (s1 + k)) /\
    (forall p, ~ in_window i1 s1 p -> ~ in_window i2 s2 p ->
       Array_get row' p = Array_get row p) /\
    AbstractFifo.getNumReady fifo' = AbstractFifo.getNumReady fifo + nSamples /\
    AbstractFifo.getFreeSpace fifo' = AbstractFifo.getFreeSpace fifo - nSamples.
Proof.
  intros Hwf Hfifo Hrow Hsrow Hlen Hfit Hprep.
  pose proof (Array_get_Some_range _ _ _ Hfifo) as Hc.
  destruct (wf_fifo_at _ _ _ Hwf Hfifo) as [Hfwf Hfsize].
  pose proof (wf_len_buffer q Hwf) as Hlb.
  pose proof (wf_len_timestamps q Hwf) as Hlt.
  pose proof (wf_len_fifos q Hwf) as Hlf.
  destruct (Array_get_is_Some (m_timestamps q) channel) as [tab Htab]; [lia |].
  destruct (fifo_prepareToWrite_spec _ _ _ _ _ _ Hfwf Hprep)
    as (Hs1 & Hs2 & Htot & _).
  destruct (fifo_finishedWrite_spec fifo (s1 + s2) Hfwf ltac:(lia))
    as (_ & Hready & _ & Hsize').
  destruct (write_row_outcome q channel fifo row srow nSamples i1 s1 i2 s2
              Hwf Hfifo Hrow Hlen Hprep) as (_ & Hin1 & Hin2 & Hout & _).
  rewrite (writeChannel_spec buffer channel nSamples timestamp q
             fifo row tab srow i1 s1 i2 s2) by done.
  eexists. eexists. eexists. split; [done |]. unfold written. simpl.
  split; [apply Array_get_insert_eq; lia |].
  split; [apply Array_get_insert_eq; lia |].
  split_and!; try done; try lia.
  unfold AbstractFifo.getFreeSpace. rewrite Hready, Hsize'. lia.
Qed.

(** X4.  A write of nothing, or a write into a full ring, leaves the whole
    queue as it was; the source buffer is not even looked at. *)
Theorem X4_empty_or_refused_write_is_noop q buffer channel nSamples timestamp
    fifo :
  queue_wf q ->
  Array_get (m_fifos q) channel = Some fifo ->
  nSamples <= 0 \/ AbstractFifo.getFreeSpace fifo = 0 ->
  writeChannel buffer channel nSamples timestamp q = Some q.
Proof.
  intros Hwf Hfifo Hnone.
  pose proof (Array_get_Some_range _ _ _ Hfifo) as Hc.
  destruct (wf_fifo_at _ _ _ Hwf Hfifo) as [Hfwf Hfsize].
  pose proof (wf_blockSize q Hwf) as Hbs.
  assert (AbstractFifo.prepareToWrite fifo nSamples = (0, 0, 0, 0)) as Hprep.
  { revert Hnone Hfwf. clear.
    unfold AbstractFifo.prepareToWrite, AbstractFifo.getFreeSpace,
      AbstractFifo.getNumReady, AbstractFifo.wf.
    intros Hnone Hfwf. fifo_cases; try done; lia. }
  unfold writeChannel. rewrite Hfifo. simpl. rewrite Hprep.
  unfold copyFrom, fillTimestamps. simpl.
  destruct (Z.eqb_spec (m_blockSize q) 0); [lia |].
  destruct (Z.ltb_spec (m_blockSize q) 0); [lia |]. simpl.
  assert (AbstractFifo.finishedWrite fifo (0 + 0) = fifo) as ->.
  { revert Hfwf. clear. unfold AbstractFifo.finishedWrite, AbstractFifo.wf.
    destruct fifo as [size vs ve]. simpl. intros Hfwf.
    rewrite Z.add_0_r. destruct (Z.leb_spec size ve); [lia | done]. }
  rewrite list_insert_id by (by rewrite <- Array_get_lookup by lia).
  by destruct q.
Qed.

(** X5.  A write to one channel touches nothing of the other channels (their
    rows, allocators and tables are the same) and nothing of the session
    bookkeeping or the geometry of the queue. *)
Theorem X5_write_leaves_the_rest buffer channel nSamples timestamp q q' :
  queue_wf q ->
  writeChannel buffer channel nSamples timestamp q = Some q' ->
  (forall c, c <> channel ->
     Array_get (m_buffer q') c = Array_get (m_buffer q) c /\
     Array_get (m_fifos q') c = Array_get (m_fifos q) c /\
     Array_get (m_timestamps q') c = Array_get (m_timestamps q) c) /\
  m_lastReadTimestamps q' = m_lastReadTimestamps q /\
  m_readSamples q' = m_readSamples q /\
  m_readInProgress q' = m_readInProgress q /\
  m_numChans q' = m_numChans q /\ m_blockSize q' = m_blockSize q /\
  m_numBlocks q' = m_numBlocks q /\ m_maxSize q' = m_maxSize q.
Proof.
  intros Hwf Hw.
  destruct (writeChannel_inv _ _ _ _ _ _ Hwf Hw)
    as (fifo & row & tab & row' & i1 & s1 & i2 & s2
        & Hfifo & _ & _ & _ & _ & ->).
  pose proof (Array_get_Some_range _ _ _ Hfifo) as Hc.
  unfold written. simpl. split_and!; try done.
  intros c Hne. rewrite !Array_get_insert_ne by lia. done.
Qed.

(** X6.  Writes to two different channels are independent: done in either
    order they succeed and give the same queue. *)
Theorem X6_writes_to_distinct_channels_commute q
    buffer1 channel1 nSamples1 timestamp1 srow1
    buffer2 channel2 nSamples2 timestamp2 srow2 :
  queue_wf q ->
  channel1 <> channel2 ->
  0 <= channel1 < m_numChans q -> 0 <= channel2 < m_numChans q ->
  Array_get buffer1 channel1 = Some srow1 ->
  nSamples1 <= Z.of_nat (length srow1) ->
  Array_get buffer2 channel2 = Some srow2 ->
  nSamples2 <= Z.of_nat (length srow2) ->
  exists qa qb qab,
    writeChannel buffer1 channel1 nSamples1 timestamp1 q = Some qa /\
    writeChannel buffer2 channel2 nSamples2 timestamp2 qa = Some qab /\
    writeChannel buffer2 channel2 nSamples2 timestamp2 q = Some qb /\
    writeChannel buffer1 channel1 nSamples1 timestamp1 qb = Some qab.
Proof.
  intros Hwf Hne Hc1 Hc2 Hs1 Hl1 Hs2 Hl2.
  pose proof (wf_len_buffer q Hwf) as Hlb.
  pose proof (wf_len_timestamps q Hwf) as Hlt.
  pose proof (wf_len_fifos q Hwf) as Hlf.
  destruct (Array_get_is_Some (m_fifos q) channel1) as [f1 Hf1]; [lia |].
  destruct (Array_get_is_Some (m_fifos q) channel2) as [f2 Hf2]; [lia |].
  destruct (Array_get_is_Some (m_buffer q) channel1) as [r1 Hr1]; [lia |].
  destruct (Array_get_is_Some (m_buffer q) channel2) as [r2 Hr2]; [lia |].
  destruct (Array_get_is_Some (m_timestamps q) channel1) as [t1 Ht1]; [lia |].
  destruct (Array_get_is_Some (m_timestamps q) channel2) as [t2 Ht2]; [lia |].
  destruct (AbstractFifo.prepareToWrite f1 nSamples1)
    as [[[a1 b1] c1] d1] eqn:Hp1.
  destruct (AbstractFifo.prepareToWrite f2 nSamples2)
    as [[[a2 b2] c2] d2] eqn:Hp2.
  pose proof (writeChannel_spec buffer1 channel1 nSamples1 timestamp1 q
                f1 r1 t1 srow1 a1 b1 c1 d1 Hwf Hf1 Hr1 Ht1 Hs1 Hl1 Hp1) as Ha.
  pose proof (writeChannel_spec buffer2 channel2 nSamples2 timestamp2 q
                f2 r2 t2 srow2 a2 b2 c2 d2 Hwf Hf2 Hr2 Ht2 Hs2 Hl2 Hp2) as Hb.
  pose proof (writeChannel_wf _ _ _ _ _ _ Hwf Ha) as Hwfa.
  pose proof (writeChannel_wf _ _ _ _ _ _ Hwf Hb) as Hwfb.
  eexists. eexists. eexists.
  split; [exact Ha |]. split; [| split; [exact Hb |]].
  - apply (writeChannel_spec buffer2 channel2 nSamples2 timestamp2 _
             f2 r2 t2 srow2 a2 b2 c2 d2); try done;
      unfold written; simpl; by rewrite Array_get_insert_ne by lia.
  - rewrite (writeChannel_spec buffer1 channel1 nSamples1 timestamp1 _
               f1 r1 t1 srow1 a1 b1 c1 d1); try done;
      try (unfold written; simpl; by rewrite Array_get_insert_ne by lia).
    unfold written. simpl. f_equal. f_equal; apply list_insert_insert_ne; lia.
Qed.

(** ** Further properties: read sessions *)

(** X7.  A session on a channel with nothing ready returns the empty window
    [(0, 0, 0, 0)] and the current [lastReadTimestamp] of the channel, and
    leaves that timestamp as it was: polling an empty channel never moves
    its timestamps. *)
Theorem X7_startRead_on_empty_channel indexes0 timestamps0 nMax q
    indexes timestamps q' chan fifo :
  queue_wf q ->
  startRead indexes0 timestamps0 nMax q = Some (true, indexes, timestamps, q') ->
  Array_get (m_fifos q) chan = Some fifo ->
  AbstractFifo.getNumReady fifo = 0 ->
  Array_get indexes chan = Some (mkIndexes 0 0 0 0) /\
  Array_get timestamps chan
  = Some (Array_at 0 (m_lastReadTimestamps q) chan) /\
  Array_at 0 (m_lastReadTimestamps q') chan
  = Array_at 0 (m_lastReadTimestamps q) chan /\
  Array_get (m_readSamples q') chan = Some 0.
Proof.
  intros Hwf Hstart Hfifo Hempty.
  pose proof (Array_get_Some_range _ _ _ Hfifo) as Hc.
  pose proof (wf_len_fifos q Hwf) as Hlf.
  pose proof (wf_blockSize q Hwf) as Hbs.
  pose proof (startRead_ok_idle _ _ _ _ _ _ _ Hstart) as Hidle.
  destruct (startRead_spec _ _ _ _ _ _ _ _ Hwf Hidle Hstart)
    as (_ & _ & _ & _ & _ & _ & _ & Hch).
  destruct (Hch chan ltac:(lia))
    as (idx & ts & (fifo' & Hfifo' & Hprep & _ & Hout) & Hidx & Hts & Hlast & Hrs).
  rewrite Hfifo in Hfifo'. inversion Hfifo'; subst fifo'. clear Hfifo'.
  assert (idx = mkIndexes 0 0 0 0) as ->.
  { revert Hprep Hempty. clear.
    unfold AbstractFifo.prepareToRead, AbstractFifo.getNumReady. simpl.
    intros Hprep Hempty. rewrite Hempty in Hprep.
    match type of Hprep with
    | (if ?c then _ else _) = _ => destruct c eqn:Hc'
    end.
    - destruct idx; simpl in Hprep. by inversion Hprep.
    - apply Z.leb_gt in Hc'. destruct (_ && _) in Hc'; lia. }
  assert (ts = Array_at 0 (m_lastReadTimestamps q) chan) as ->.
  { apply Hout. unfold consumed, blockOffset. simpl. lia. }
  split_and!; try done.
  unfold Array_at at 1. rewrite Hlast. unfold consumed. simpl. lia.
Qed.

(** X8.  A positive [nMax] caps every channel separately: the consumed
    length of a channel is the smaller of [nMax] and its ready count. *)
Theorem X8_positive_cap_limits_each_channel indexes0 timestamps0 nMax q
    indexes timestamps q' chan :
  queue_wf q -> 0 < nMax ->
  startRead indexes0 timestamps0 nMax q = Some (true, indexes, timestamps, q') ->
  0 <= chan < m_numChans q ->
  exists fifo idx,
    Array_get (m_fifos q) chan = Some fifo /\
    Array_get indexes chan = Some idx /\
    consumed idx = Z.min nMax (AbstractFifo.getNumReady fifo) /\
    Array_get (m_readSamples q') chan
    = Some (Z.min nMax (AbstractFifo.getNumReady fifo)).
Proof.
  intros Hwf Hpos Hstart Hchan.
  pose proof (startRead_ok_idle _ _ _ _ _ _ _ Hstart) as Hidle.
  destruct (startRead_spec _ _ _ _ _ _ _ _ Hwf Hidle Hstart)
    as (_ & _ & _ & _ & _ & _ & _ & Hch).
  destruct (Hch chan Hchan) as (idx & ts & Hsess & Hidx & _ & _ & Hrs).
  pose proof Hsess as (fifo & Hfifo & _).
  pose proof (chan_session_cap q nMax chan idx ts fifo Hwf Hsess Hfifo) as Hcap.
  assert (consumed idx = Z.min nMax (AbstractFifo.getNumReady fifo)) as Hmin.
  { rewrite Hcap.
    destruct (Z.ltb_spec nMax (AbstractFifo.getNumReady fifo));
      destruct (Z.ltb_spec 0 nMax); simpl; lia. }
  exists fifo, idx. split_and!; try done. by rewrite Hrs, Hmin.
Qed.

(** X9.  A whole session, [startRead] then [stopRead]: the sample store and
    the timestamp tables are as before, the queue is idle and well formed
    again, and on every channel the ready count has dropped by exactly the
    consumed length, which the free space has gained; a session without a
    cap leaves every channel empty. *)
Theorem X9_session_releases_what_it_consumed indexes0 timestamps0 nMax q
    indexes timestamps q1 :
  queue_wf q ->
  startRead indexes0 timestamps0 nMax q = Some (true, indexes, timestamps, q1) ->
  exists q2,
    stopRead q1 = Some q2 /\
    m_readInProgress q2 = false /\ queue_wf q2 /\
    m_buffer q2 = m_buffer q /\ m_timestamps q2 = m_timestamps q /\
    forall chan, 0 <= chan < m_numChans q ->
      exists fifo idx fifo2,
        Array_get (m_fifos q) chan = Some fifo /\
        Array_get indexes chan = Some idx /\
        Array_get (m_fifos q2) chan = Some fifo2 /\
        AbstractFifo.getNumReady fifo2
        = AbstractFifo.getNumReady fifo - consumed idx /\
        AbstractFifo.getFreeSpace fifo2
        = AbstractFifo.getFreeSpace fifo + consumed idx /\
        AbstractFifo.validEnd fifo2 = AbstractFifo.validEnd fifo /\
        (nMax <= 0 -> AbstractFifo.getNumReady fifo2 = 0).
Proof.
  intros Hwf Hstart.
  pose proof (startRead_ok_idle _ _ _ _ _ _ _ Hstart) as Hidle.
  pose proof (startRead_wf _ _ _ _ _ _ _ _ Hwf Hstart) as Hwf1.
  destruct (startRead_spec _ _ _ _ _ _ _ _ Hwf Hidle Hstart)
    as (_ & Hopen & (Hb & Hf & Ht & Hn & _) & _ & _ & _ & _ & Hsess).
  destruct (stopRead_spec q1 Hwf1 Hopen)
    as (q2 & Hstop & Hflag & Hb2 & Ht2 & _ & _ & _ & _ & _ & _ & _ & Hch).
  exists q2. split_and!; try done; try congruence.
  - by apply (stopRead_wf q1).
  - intros chan Hchan.
    destruct (Hch chan ltac:(lia)) as (f & Hfq & Hfq' & _).
    destruct (Hsess chan Hchan) as (idx & ts & Hs & Hidx & _ & _ & Hrs).
    rewrite Hf in Hfq.
    destruct (chan_session_consumed q nMax chan idx ts f Hwf Hs Hfq)
      as (_ & _ & _ & Hcons & Hfull).
    destruct (wf_fifo_at _ _ _ Hwf Hfq) as [Hfwf _].
    destruct (fifo_finishedRead_spec f (consumed idx) Hfwf Hcons)
      as (_ & Hready & Hend & Hsize).
    assert (Array_at 0 (m_readSamples q1) chan = consumed idx) as Hrs'
      by (unfold Array_at; by rewrite Hrs).
    rewrite Hrs' in Hfq'.
    exists f, idx, (AbstractFifo.finishedRead f (consumed idx)).
    split_and!; try done.
    + unfold AbstractFifo.getFreeSpace. rewrite Hready, Hsize. lia.
    + intros HnMax. rewrite Hready, (Hfull HnMax). lia.
Qed.

(** ** Further properties: writing and reading back *)

(** On an empty channel, a fitting write is read back through the very
    windows it was written through. *)
Lemma fifo_read_back_windows f n i1 s1 i2 s2 nWanted :
  AbstractFifo.wf f ->
  AbstractFifo.validStart f = AbstractFifo.validEnd f ->
  0 < n <= AbstractFifo.getFreeSpace f ->
  AbstractFifo.prepareToWrite f n = (i1, s1, i2, s2) ->
  n <= nWanted ->
  AbstractFifo.getNumReady (AbstractFifo.finishedWrite f n) = n /\
  AbstractFifo.prepareToRead (AbstractFifo.finishedWrite f n) nWanted
  = (i1, s1, i2, s2) /\
  i1 = AbstractFifo.validStart f /\
  s1 = Z.min (AbstractFifo.bufferSize f - i1) n /\ i2 = 0 /\ s2 = n - s1.
Proof.
  destruct f as [size vs ve]. fifo_unfold. intros Hwf <- Hn Hprep Hwant.
  fifo_cases; inversion Hprep; subst; clear Hprep;
    split_and!; try lia;
    repeat match goal with
      | |- (_, _) = (_, _) => apply pair_equal_spec; split
      end; lia.
Qed.

(** The table after a write of at most one block through the windows
    [(p, s1)] and [(0, s2)] of an empty channel: the slot of the first
    block boundary at or after [p], when the write reaches it, holds the
    timestamp of the sample at that boundary. *)
Lemma two_window_stamp blockSize numBlocks p n timestamp tab :
  0 < blockSize -> 0 < numBlocks ->
  0 <= p < blockSize * numBlocks ->
  0 < n <= blockSize -> n <= blockSize * numBlocks - 1 ->
  Z.of_nat (length tab) = numBlocks ->
  let s1 := Z.min (blockSize * numBlocks - p) n in
  let s2 := n - s1 in
  let idx := mkIndexes p s1 0 s2 in
  blockOffset blockSize idx < n ->
  Array_get
    (fill_table blockSize 0 s2 (timestamp + s1)
       (fill_table blockSize p s1 timestamp tab))
    (boundarySlot blockSize numBlocks idx)
  = Some (timestamp + blockOffset blockSize idx).
Proof.
  intros Hbs Hnb Hp Hn Hfit Hlen s1 s2 idx Hoff.
  unfold boundarySlot. unfold blockOffset in *. simpl in *.
  rewrite (Z.rem_mod_nonneg p blockSize) by lia.
  rewrite (Z.rem_mod_nonneg p blockSize) in Hoff by lia.
  pose proof (Z.div_mod p blockSize ltac:(lia)) as Hdp.
  pose proof (Z.mod_pos_bound p blockSize Hbs) as Hmp.
  assert (0 <= p `div` blockSize < numBlocks) as Hqp.
  { split; [apply Z.div_pos; lia |]. apply Z.div_lt_upper_bound; lia. }
  set (off := if p `mod` blockSize =? 0 then 0
              else blockSize - p `mod` blockSize) in *.
  assert (0 <= off < blockSize) as Hoffr
    by (subst off; destruct (Z.eqb_spec (p `mod` blockSize) 0); lia).
  assert (exists k, p + off = k * blockSize /\ 0 <= k <= numBlocks) as (k & Hk & Hkr).
  { subst off. destruct (Z.eqb_spec (p `mod` blockSize) 0).
    - exists (p `div` blockSize). split; lia.
    - exists (p `div` blockSize + 1). split; lia. }
  assert (Z.rem (p + off) blockSize = 0) as Hal.
  { rewrite Z.rem_mod_nonneg by lia. rewrite Hk. apply Z.mod_mul. lia. }
  assert (Z.of_nat (length (fill_table blockSize p s1 timestamp tab)) = numBlocks)
    as Hlen1.
  { rewrite (fill_table_length _ numBlocks); (done || lia). }
  destruct (Z.lt_ge_cases (p + off) (blockSize * numBlocks)) as [Hin | Hend].
  - destruct (fill_table_stamps_position blockSize numBlocks p s1 timestamp
                tab (p + off)) as [Hslot Hget]; try done; try lia.
    rewrite Hslot.
    destruct (Z.le_gt_cases s2 0) as [Hz | Hpos].
    + rewrite fill_table_empty by done. rewrite Hget. f_equal. lia.
    + rewrite (fill_table_other_slots _ numBlocks); try done; try lia.
      * rewrite Hget. f_equal. lia.
      * simpl. rewrite (Z.quot_div_nonneg (p + off)) by lia.
        rewrite Hk, Z.div_mul, Z.quot_0_l by lia.
        intros ->. subst s2 s1. lia.
  - assert (p + off = blockSize * numBlocks) as Hwrap by nia.
    assert (s1 = off) as Hs1 by lia.
    assert (p `mod` blockSize <> 0) as Hnz.
    { intros Hz. subst off. rewrite Hz in *. simpl in *. lia. }
    assert (off = blockSize - p `mod` blockSize) as Hoffv.
    { subst off. destruct (Z.eqb_spec (p `mod` blockSize) 0); [done | lia]. }
    assert (fill_table blockSize p s1 timestamp tab = tab) as ->.
    { rewrite fill_table_single_block by lia.
      rewrite Z.rem_mod_nonneg by lia.
      destruct (Z.eqb_spec (p `mod` blockSize) 0); [done |].
      destruct (Z.ltb_spec (p + (blockSize - p `mod` blockSize)) (p + s1));
        [lia | done]. }
    destruct (fill_table_stamps_position blockSize numBlocks 0 s2
                (timestamp + s1) tab 0) as [_ Hget]; try done; try lia.
    rewrite Hwrap, Z.mul_comm, Z.quot_mul by lia.
    rewrite Z.rem_same by lia.
    rewrite Z.quot_0_l in Hget by lia. rewrite Hget. f_equal. lia.
Qed.

(** X10.  Write, then read back.  On an idle queue, a write of at most one
    block that fits into an empty channel, followed by a session whose cap
    does not cut it, returns windows of total length [nSamples] that start at
    the write cursor and hold the source samples in order; when the windows
    reach a block boundary the reconciled timestamp is the timestamp given
    to the write, otherwise it is the channel's [lastReadTimestamp]. *)
Theorem X10_write_then_read_round_trip q buffer channel nSamples timestamp
    fifo srow nMax :
  queue_wf q -> m_readInProgress q = false ->
  Array_get (m_fifos q) channel = Some fifo ->
  AbstractFifo.validStart fifo = AbstractFifo.validEnd fifo ->
  Array_get buffer channel = Some srow ->
  nSamples <= Z.of_nat (length srow) ->
  0 < nSamples <= m_blockSize q ->
  nSamples <= AbstractFifo.getFreeSpace fifo ->
  nMax <= 0 \/ nSamples <= nMax ->
  exists q1 indexes timestamps q2 idx ts row,
    writeChannel buffer channel nSamples timestamp q = Some q1 /\
    startRead [] [] nMax q1 = Some (true, indexes, timestamps, q2) /\
    Array_get indexes channel = Some idx /\
    Array_get timestamps channel = Some ts /\
    index1 idx = AbstractFifo.validEnd fifo /\
    consumed idx = nSamples /\
    Array_get (m_buffer q2) channel = Some row /\
    (forall k, 0 <= k < size1 idx ->
       Array_get row (index1 idx + k) = Array_get srow k) /\
    (forall k, 0 <= k < size2 idx ->
       Array_get row (index2 idx + k) = Array_get srow (size1 idx + k)) /\
    (blockOffset (m_blockSize q) idx < nSamples -> ts = timestamp) /\
    (nSamples <= blockOffset (m_blockSize q) idx ->
     ts = Array_at 0 (m_lastReadTimestamps q) channel).
Proof.
  intros Hwf Hidle Hfifo Hempty Hsrow Hlen Hn Hfit Hcap.
  pose proof (Array_get_Some_range _ _ _ Hfifo) as Hc.
  destruct (wf_fifo_at _ _ _ Hwf Hfifo) as [Hfwf Hfsize].
  pose proof (wf_blockSize q Hwf) as Hbs.
  pose proof (wf_numBlocks q Hwf) as Hnb.
  pose proof (wf_maxSize q Hwf) as Hmax.
  pose proof (wf_len_buffer q Hwf) as Hlb.
  pose proof (wf_len_timestamps q Hwf) as Hlt.
  pose proof (wf_len_fifos q Hwf) as Hlf.
  pose proof (fifo_freeSpace_range _ Hfwf) as Hfree.
  destruct (Array_get_is_Some (m_buffer q) channel) as [row Hrow]; [lia |].
  destruct (Array_get_is_Some (m_timestamps q) channel) as [tab Htab]; [lia |].
  pose proof (wf_tab_at _ _ _ Hwf Htab) as Htablen.
  destruct (AbstractFifo.prepareToWrite fifo nSamples)
    as [[[i1 s1] i2] s2] eqn:Hprep.
  destruct (fifo_read_back_windows fifo nSamples i1 s1 i2 s2 nSamples
              Hfwf Hempty ltac:(lia) Hprep ltac:(lia))
    as (Hready & Hback & Hi1 & Hs1 & Hi2 & Hs2).
  pose proof (writeChannel_spec buffer channel nSamples timestamp q fifo row
                tab srow i1 s1 i2 s2 Hwf Hfifo Hrow Htab Hsrow Hlen Hprep)
    as Hwrite.
  pose proof (writeChannel_wf _ _ _ _ _ _ Hwf Hwrite) as Hwf1.
  set (q1 := written q channel _ _ _) in *.
  assert (m_readInProgress q1 = false) as Hidle1 by done.
  destruct (startRead_total [] [] nMax q1 Hwf1)
    as (ok & indexes & timestamps & q2 & Hstart).
  destruct (startRead_spec _ _ _ _ _ _ _ _ Hwf1 Hidle1 Hstart)
    as (-> & _ & (Hb2 & _) & _ & _ & _ & _ & Hch).
  destruct (Hch channel ltac:(simpl; lia))
    as (idx & ts & (fifo1 & Hfifo1 & Hread & Hin & Hout) & Hidx & Hts & _ & _).
  assert (fifo1 = AbstractFifo.finishedWrite fifo nSamples) as ->.
  { subst q1. unfold written in Hfifo1. simpl in Hfifo1.
    rewrite Array_get_insert_eq in Hfifo1 by lia.
    inversion Hfifo1. f_equal. lia. }
  assert (idx = mkIndexes i1 s1 i2 s2) as ->.
  { simpl in Hread. rewrite Hready in Hread.
    assert ((if (nMax <? nSamples) && (0 <? nMax) then nMax else nSamples)
            = nSamples) as Hsamples.
    { destruct (Z.ltb_spec nMax nSamples); destruct (Z.ltb_spec 0 nMax);
        simpl; lia. }
    rewrite Hsamples, Hback in Hread.
    destruct idx. simpl in Hread. by inversion Hread. }
  assert (consumed (mkIndexes i1 s1 i2 s2) = nSamples) as Hcons
    by (unfold consumed; simpl; lia).
  destruct (write_row_outcome q channel fifo row srow nSamples i1 s1 i2 s2
              Hwf Hfifo Hrow Hlen Hprep) as (_ & Hin1 & Hin2 & _ & _).
  exists q1, indexes, timestamps, q2, (mkIndexes i1 s1 i2 s2), ts.
  eexists. split_and!; try done.
  - simpl. lia.
  - rewrite Hb2. subst q1. unfold written. simpl.
    apply Array_get_insert_eq. lia.
  - intros Hoff. rewrite Hcons in Hin.
    change (m_blockSize q1) with (m_blockSize q) in Hin.
    change (m_numBlocks q1) with (m_numBlocks q) in Hin.
    destruct (Hin Hoff) as (tab1 & stamp & Htab1 & Hstamp & ->).
    subst q1. unfold written in Htab1. simpl in Htab1.
    rewrite Array_get_insert_eq in Htab1 by lia.
    inversion Htab1; subst tab1. clear Htab1.
    pose proof (two_window_stamp (m_blockSize q) (m_numBlocks q) i1 nSamples
                  timestamp tab Hbs Hnb) as Hstamped.
    simpl in Hstamped.
    rewrite <- Hmax, <- Hfsize, <- Hs1 in Hstamped.
    replace (nSamples - s1) with s2 in Hstamped by lia.
    rewrite <- Hi2 in Hstamped.
    unfold AbstractFifo.wf in Hfwf.
    rewrite Hstamped in Hstamp; try done; try lia.
    inversion Hstamp. lia.
  - intros Hoff. rewrite Hcons in Hout.
    change (m_blockSize q1) with (m_blockSize q) in Hout.
    rewrite (Hout Hoff). done.
Qed.

(** ** Further properties: the timestamp query *)

Lemma getTimestampsForBlock_spec idx q :
  queue_wf q ->
  exists timestamps,
    getTimestampsForBlock idx q = Some timestamps /\
    Z.of_nat (length timestamps) = m_numChans q /\
    forall chan, 0 <= chan < m_numChans q ->
      exists tab,
        Array_get (m_timestamps q) chan = Some tab /\
        Array_get timestamps chan = Some (Array_at 0 tab idx).
Proof.
  intros Hwf. unfold getTimestampsForBlock.
  pose proof (wf_len_timestamps q Hwf) as Hlt.
  destruct (for_chans_total
              (fun chan tss =>
                 Z.of_nat (length tss) = chan /\
                 forall ch, 0 <= ch < chan ->
                   exists tab,
                     Array_get (m_timestamps q) ch = Some tab /\
                     Array_get tss ch = Some (Array_at 0 tab idx))
              (getTimestampsForBlock_chan idx q)
              (Z.to_nat (m_numChans q)) 0 []) as (tss & Hrun & Hlen & Hall).
  - split; [done |]. intros ch Hch. lia.
  - intros chan tss Hchan [Hlen Hall].
    destruct (Array_get_is_Some (m_timestamps q) chan) as [tab Htab]; [lia |].
    unfold getTimestampsForBlock_chan. rewrite Htab. simpl.
    eexists. split; [done |]. split.
    + rewrite length_app. simpl. lia.
    + intros ch Hch. destruct (decide (ch = chan)) as [-> | Hne].
      * exists tab. split; [done |]. apply Array_get_snoc. lia.
      * destruct (Hall ch ltac:(lia)) as (tab' & ? & ?).
        exists tab'. split; [done |]. by rewrite Array_get_app_l by lia.
  - exists tss. rewrite Z.add_0_l, Z2Nat.id in * by lia. by split_and!.
Qed.

(** X11.  [getTimestampsForBlock] returns one entry per channel, the raw
    table entry of the asked slot; a slot outside the table reads as 0
    instead of failing. *)
Theorem X11_getTimestampsForBlock_reads_every_table idx q :
  queue_wf q ->
  exists timestamps,
    getTimestampsForBlock idx q = Some timestamps /\
    Z.of_nat (length timestamps) = m_numChans q /\
    forall chan, 0 <= chan < m_numChans q ->
      exists tab,
        Array_get (m_timestamps q) chan = Some tab /\
        Array_get timestamps chan = Some (Array_at 0 tab idx) /\
        (idx < 0 \/ m_numBlocks q <= idx -> Array_get timestamps chan = Some 0).
Proof.
  intros Hwf.
  destruct (getTimestampsForBlock_spec idx q Hwf) as (tss & Hrun & Hlen & Hall).
  exists tss. split_and!; try done.
  intros chan Hchan. destruct (Hall chan Hchan) as (tab & Htab & Hget).
  exists tab. split_and!; try done.
  intros Hout. rewrite Hget. f_equal.
  pose proof (wf_tab_at _ _ _ Hwf Htab) as Hlen'.
  unfold Array_at. by rewrite Array_get_None by lia.
Qed.

(** X12.  A write of at most one block that fits and starts at a
    block-aligned write cursor is seen by the query: the slot of that block
    then holds the timestamp given to the write. *)
Theorem X12_aligned_write_then_query q buffer channel nSamples timestamp
    fifo srow :
  queue_wf q ->
  Array_get (m_fifos q) channel = Some fifo ->
  Z.rem (AbstractFifo.validEnd fifo) (m_blockSize q) = 0 ->
  Array_get buffer channel = Some srow ->
  nSamples <= Z.of_nat (length srow) ->
  0 < nSamples <= m_blockSize q ->
  nSamples <= AbstractFifo.getFreeSpace fifo ->
  exists q' timestamps,
    writeChannel buffer channel nSamples timestamp q = Some q' /\
    getTimestampsForBlock
      (Z.quot (AbstractFifo.validEnd fifo) (m_blockSize q)) q'
    = Some timestamps /\
    Array_get timestamps channel = Some timestamp.
Proof.
  intros Hwf Hfifo Hal Hsrow Hlen Hn Hfit.
  pose proof (Array_get_Some_range _ _ _ Hfifo) as Hc.
  destruct (wf_fifo_at _ _ _ Hwf Hfifo) as [Hfwf Hfsize].
  pose proof (wf_blockSize q Hwf) as Hbs.
  pose proof (wf_numBlocks q Hwf) as Hnb.
  pose proof (wf_maxSize q Hwf) as Hmax.
  pose proof (wf_len_buffer q Hwf) as Hlb.
  pose proof (wf_len_timestamps q Hwf) as Hlt.
  pose proof (wf_len_fifos q Hwf) as Hlf.
  destruct (Array_get_is_Some (m_buffer q) channel) as [row Hrow]; [lia |].
  destruct (Array_get_is_Some (m_timestamps q) channel) as [tab Htab]; [lia |].
  pose proof (wf_tab_at _ _ _ Hwf Htab) as Htablen.
  destruct (AbstractFifo.prepareToWrite fifo nSamples)
    as [[[i1 s1] i2] s2] eqn:Hprep.
  destruct (fifo_prepareToWrite_spec _ _ _ _ _ _ Hfwf Hprep)
    as (Hs1 & Hs2 & Htot & Hi1 & Hw1 & Hi2 & Hw2 & Hfirst & Hwrap).
  destruct (Hfirst ltac:(lia)) as [Hi1e Hs1pos].
  assert (s2 = 0) as ->.
  { destruct (Z.le_gt_cases s2 0) as [| Hpos]; [lia |].
    specialize (Hwrap Hpos). unfold AbstractFifo.wf in Hfwf.
    rewrite Z.rem_mod_nonneg in Hal by lia.
    pose proof (Z.div_mod (AbstractFifo.validEnd fifo) (m_blockSize q)
                  ltac:(lia)) as Hdm.
    rewrite Hal in Hdm.
    assert (s1 + s2 = nSamples) as Hsum by lia.
    assert (AbstractFifo.validEnd fifo `div` m_blockSize q < m_numBlocks q)
      as Hk by (apply Z.div_lt_upper_bound; lia).
    clear Htot. nia. }
  assert (s1 = nSamples) as -> by lia.
  pose proof (writeChannel_spec buffer channel nSamples timestamp q fifo row
                tab srow i1 nSamples i2 0 Hwf Hfifo Hrow Htab Hsrow Hlen Hprep)
    as Hwrite.
  pose proof (writeChannel_wf _ _ _ _ _ _ Hwf Hwrite) as Hwf'.
  rewrite Hwrite.
  destruct (getTimestampsForBlock_spec
              (Z.quot (AbstractFifo.validEnd fifo) (m_blockSize q)) _ Hwf')
    as (tss & Hquery & _ & Hall).
  eexists. exists tss. split; [done |]. split; [done |].
  destruct (Hall channel ltac:(simpl; lia)) as (tab' & Htab' & Hget).
  unfold written in Htab'. simpl in Htab'.
  rewrite Array_get_insert_eq in Htab' by lia. inversion Htab'; subst tab'.
  rewrite Hget. f_equal. rewrite fill_table_empty by lia.
  destruct (fill_table_stamps_position (m_blockSize q) (m_numBlocks q) i1
              nSamples timestamp tab i1) as [_ Hstamp]; try done; try lia.
  { by rewrite Hi1e. }
  unfold Array_at. rewrite <- Hi1e, Hstamp. simpl. lia.
Qed.

(** ** Further properties: configuration *)

Lemma chan_session_empty q nMax chan idx ts fifo :
  queue_wf q -> chan_session q nMax chan idx ts ->
  Array_get (m_fifos q) chan = Some fifo ->
  AbstractFifo.getNumReady fifo = 0 ->
  idx = mkIndexes 0 0 0 0 /\ ts = Array_at 0 (m_lastReadTimestamps q) chan.
Proof.
  intros Hwf (fifo' & Hfifo' & Hprep & _ & Hout) Hfifo Hempty.
  rewrite Hfifo in Hfifo'. inversion Hfifo'; subst fifo'. clear Hfifo'.
  assert (idx = mkIndexes 0 0 0 0) as ->.
  { revert Hprep Hempty. clear.
    unfold AbstractFifo.prepareToRead, AbstractFifo.getNumReady. simpl.
    intros Hprep Hempty. rewrite Hempty in Hprep.
    match type of Hprep with
    | (if ?c then _ else _) = _ => destruct c eqn:Hc'
    end.
    - destruct idx; simpl in Hprep. by inversion Hprep.
    - apply Z.leb_gt in Hc'. destruct (_ && _) in Hc'; lia. }
  split; [done |]. apply Hout. unfold consumed, blockOffset. simpl. lia.
Qed.

(** X13.  A freshly configured queue: after [setChannels nChans] on an idle
    queue with a positive geometry the channel count is [nChans], every
    channel has nothing ready, and a session returns, for each of the
    [nChans] channels, the empty window and the timestamp 0, whatever the
    queue held before. *)
Theorem X13_fresh_channels_read_back_nothing nChans nMax q :
  m_readInProgress q = false ->
  0 < m_blockSize q -> 0 < m_numBlocks q ->
  m_maxSize q = m_blockSize q * m_numBlocks q ->
  0 <= nChans ->
  getNumChannels (setChannels nChans q) = nChans /\
  (forall chan, 0 <= chan < nChans ->
     exists fifo,
       Array_get (m_fifos (setChannels nChans q)) chan = Some fifo /\
       AbstractFifo.getNumReady fifo = 0 /\
       AbstractFifo.getTotalSize fifo = m_maxSize q) /\
  exists indexes timestamps q',
    startRead [] [] nMax (setChannels nChans q)
    = Some (true, indexes, timestamps, q') /\
    Z.of_nat (length indexes) = nChans /\
    forall chan, 0 <= chan < nChans ->
      Array_get indexes chan = Some (mkIndexes 0 0 0 0) /\
      Array_get timestamps chan = Some 0.
Proof.
  intros Hidle Hbs Hnb Hmax Hn.
  pose proof (setChannels_wf nChans q Hn Hidle Hbs Hnb Hmax) as Hwf.
  set (q1 := setChannels nChans q) in *.
  assert (m_numChans q1 = nChans) as Hn1
    by (subst q1; unfold setChannels; by rewrite Hidle).
  assert (m_readInProgress q1 = false) as Hidle1
    by (subst q1; unfold setChannels; by rewrite Hidle).
  assert (forall chan, 0 <= chan < nChans ->
            Array_get (m_fifos q1) chan
            = Some (AbstractFifo.create (m_maxSize q)) /\
            Array_at 0 (m_lastReadTimestamps q1) chan = 0) as Hfresh.
  { intros chan Hchan. subst q1. unfold setChannels. rewrite Hidle. simpl.
    unfold Array_at. rewrite !Array_get_lookup by lia.
    rewrite !lookup_replicate_2 by lia. done. }
  split; [done |]. split.
  { intros chan Hchan. destruct (Hfresh chan Hchan) as [Hf _].
    eexists. split; [exact Hf |]. done. }
  destruct (startRead_total [] [] nMax q1 Hwf)
    as (ok & indexes & timestamps & q' & Hstart).
  destruct (startRead_spec _ _ _ _ _ _ _ _ Hwf Hidle1 Hstart)
    as (-> & _ & _ & _ & _ & Hli & _ & Hch).
  exists indexes, timestamps, q'. split_and!; try done; try lia.
  intros chan Hchan.
  destruct (Hch chan ltac:(lia)) as (idx & ts & Hsess & Hidx & Hts & _).
  destruct (Hfresh chan Hchan) as [Hf Hl].
  destruct (chan_session_empty q1 nMax chan idx ts _ Hwf Hsess Hf)
    as [-> ->]; [done |].
  by rewrite Hl in Hts.
Qed.

Lemma resize_exact_inv_step size nBlocks q0 chan q :
  0 <= chan < Z.of_nat (length (m_fifos q0)) ->
  chan < Z.of_nat (length (m_timestamps q0)) ->
  chan < Z.of_nat (length (m_lastReadTimestamps q0)) ->
  chan < Z.of_nat (length (m_readSamples q0)) ->
  resize_exact_inv size nBlocks q0 chan q ->
  exists q1, resize_chan size nBlocks chan q = Some q1 /\
             resize_exact_inv size nBlocks q0 (chan + 1) q1.
Proof.
  intros Hcf Hct Hcl Hcr
    (Hb & Hn & Hbs & Hflag & Hnbs & Hmax & Hlf & Hlt & Hll & Hlr & Hrest & Hdone).
  destruct (Array_get_is_Some (m_fifos q0) chan Hcf) as [f Hf].
  destruct (Array_get_is_Some (m_timestamps q0) chan ltac:(lia)) as [tab Htab].
  destruct (Hrest chan ltac:(lia)) as [Hfc Htc].
  unfold resize_chan. rewrite Hfc, Hf. simpl. rewrite Htc, Htab. simpl.
  eexists. split; [done |].
  unfold resize_exact_inv. simpl. split_and!; try done.
  - by rewrite length_insert.
  - by rewrite length_insert.
  - rewrite Array_set_length; [done | lia].
  - rewrite Array_set_length; [done | lia].
  - intros j Hj. rewrite !Array_get_insert_ne by lia. apply Hrest. lia.
  - intros ch Hch. destruct (decide (ch = chan)) as [-> | Hne].
    + split_and!.
      * rewrite Array_get_insert_eq by lia. done.
      * by rewrite Array_get_set_eq by lia.
      * by rewrite Array_get_set_eq by lia.
      * exists tab. split; [done |]. apply Array_get_insert_eq. lia.
    + destruct (Hdone ch ltac:(lia)) as (? & ? & ? & tab' & ? & ?).
      split_and!.
      * by rewrite Array_get_insert_ne by lia.
      * by rewrite Array_get_set_ne by lia.
      * by rewrite Array_get_set_ne by lia.
      * exists tab'. by rewrite Array_get_insert_ne by lia.
Qed.

Lemma Array_resize_get_kept {A : Type} (d : A) (a : list A) n j :
  0 <= j < Z.min n (Z.of_nat (length a)) ->
  Array_get (Array_resize d a n) j = Array_get a j.
Proof.
  intros Hj. unfold Array_resize. rewrite !Array_get_lookup by lia.
  rewrite lookup_app_l by (rewrite length_take; lia).
  apply lookup_take_lt. lia.
Qed.

Lemma Array_resize_get_padded {A : Type} (d : A) (a : list A) n j :
  Z.of_nat (length a) <= j < n ->
  Array_get (Array_resize d a n) j = Some d.
Proof.
  intros Hj. unfold Array_resize. rewrite !Array_get_lookup by lia.
  rewrite lookup_app_r by (rewrite length_take; lia).
  apply lookup_replicate_2. rewrite length_take. lia.
Qed.

(** X14.  [resize] on an idle queue empties every channel without clearing
    its timestamps: the channel count stays, every allocator is reset to the
    new capacity [blockSize * nBlocks] with nothing ready, the recorded
    lengths and last-read timestamps are 0, and every table has [nBlocks]
    slots of which those that existed before keep their old stamps and the
    new ones are 0. *)
Theorem X14_resize_resets_channels_keeps_stamps nBlocks q :
  queue_wf q -> 0 < nBlocks -> m_readInProgress q = false ->
  exists q',
    resize nBlocks q = Some q' /\
    m_numChans q' = m_numChans q /\ m_blockSize q' = m_blockSize q /\
    m_numBlocks q' = nBlocks /\ m_maxSize q' = m_blockSize q * nBlocks /\
    m_readInProgress q' = false /\
    forall chan, 0 <= chan < m_numChans q ->
      Array_get (m_fifos q') chan
      = Some (AbstractFifo.create (m_blockSize q * nBlocks)) /\
      Array_get (m_readSamples q') chan = Some 0 /\
      Array_get (m_lastReadTimestamps q') chan = Some 0 /\
      exists tab tab',
        Array_get (m_timestamps q) chan = Some tab /\
        Array_get (m_timestamps q') chan = Some tab' /\
        Z.of_nat (length tab') = nBlocks /\
        (forall j, 0 <= j < Z.min nBlocks (m_numBlocks q) ->
           Array_get tab' j = Array_get tab j) /\
        (forall j, m_numBlocks q <= j < nBlocks -> Array_get tab' j = Some 0).
Proof.
  intros Hwf Hnb Hidle. unfold resize. rewrite Hidle.
  pose proof (wf_len_fifos q Hwf) as Hlf.
  pose proof (wf_len_timestamps q Hwf) as Hlt.
  pose proof (wf_len_last q Hwf) as Hll.
  pose proof (wf_len_readSamples q Hwf) as Hlr.
  set (size := m_blockSize q * nBlocks).
  set (q0 := mkDataQueue _ _ _ _ _ _ _ _ _ _).
  destruct (for_chans_total (resize_exact_inv size nBlocks q0)
              (resize_chan size nBlocks) (Z.to_nat (m_numChans q0)) 0 q0)
    as (q1 & Hloop & Hinv).
  - unfold resize_exact_inv. split_and!; try done. intros ch Hch. lia.
  - intros chan s0 Hchan. subst q0. simpl in *.
    apply resize_exact_inv_step; simpl; lia.
  - rewrite Hloop. simpl. eexists. split; [done |].
    change (m_numChans q0) with (m_numChans q) in *.
    rewrite Z.add_0_l, Z2Nat.id in Hinv by lia.
    destruct Hinv as (Hb & Hn & Hbs' & Hflag & Hnbs & Hmax & _ & _ & _ & _
                      & _ & Hdone).
    subst q0. simpl in *. split_and!; try done.
    intros chan Hchan.
    destruct (Hdone chan Hchan) as (Hf & Hrs & Hl & tab & Htab & Htab').
    pose proof (wf_tab_at _ _ _ Hwf Htab) as Htablen.
    split_and!; try done.
    exists tab, (Array_resize 0 tab nBlocks). split_and!; try done.
    + apply Array_resize_length. lia.
    + intros j Hj. apply Array_resize_get_kept. lia.
    + intros j Hj. apply Array_resize_get_padded. lia.
Qed.

(** ** Further properties: writer and reader together *)



Lemma DataQueue_new_wf blockSize nBlocks :
  0 < blockSize -> 0 < nBlocks -> queue_wf (DataQueue_new blockSize nBlocks).
Proof.
  intros Hbs Hnb. split; simpl; try done.
  intros chan f Hf. unfold Array_get in Hf.
  destruct (chan <? 0); [done |]. by rewrite lookup_nil in Hf.
Qed.

Lemma stopRead_total q :
  queue_wf q -> exists q', stopRead q = Some q'.
Proof.
  intros Hwf. destruct (m_readInProgress q) eqn:Hflag.
  - destruct (stopRead_spec q Hwf Hflag) as (q' & Hstop & _). eauto.
  - exists q. by apply stopRead_idle.
Qed.

(** X16.  Every queue reached from the constructor (with a positive block
    size and depth) by calls with valid arguments is well formed: the five
    per-channel arrays have one entry per channel, every allocator's cursors
    lie inside a ring of [blockSize * numBlocks] positions, every table has
    [numBlocks] slots, and no recorded length exceeds what is ready.  On
    such a queue [startRead], [stopRead] and [getTimestampsForBlock] always
    return. *)
Theorem X16_reachable_queues_are_well_formed blockSize nBlocks ops results q'
    nMax idx :
  0 < blockSize -> 0 < nBlocks ->
  Forall valid_op ops ->
  run ops (DataQueue_new blockSize nBlocks) = Some (results, q') ->
  queue_wf q' /\
  (exists r, startRead [] [] nMax q' = Some r) /\
  (exists q'', stopRead q' = Some q'') /\
  (exists timestamps, getTimestampsForBlock idx q' = Some timestamps).
Proof.
  intros Hbs Hnb Hvalid Hrun.
  pose proof (run_wf ops _ results q' (DataQueue_new_wf _ _ Hbs Hnb) Hvalid Hrun)
    as Hwf.
  split_and!; try done.
  - destruct (startRead_total [] [] nMax q' Hwf) as (ok & i & t & q'' & Hs).
    eauto.
  - by apply stopRead_total.
  - destruct (getTimestampsForBlock_spec idx q' Hwf) as (tss & Hq & _). eauto.
Qed.

(** ** The further properties at concrete inputs *)

Lemma two_channel_queue_wf : queue_wf two_channel_queue.
Proof. apply DataQueue_new_setChannels_wf; lia. Qed.

Lemma X1_single_block_window_witness :
  exists q' tab',
    fillTimestamps 0 3 10 100 idle_queue = Some q' /\
    Array_get (m_timestamps q') 0 = Some tab' /\
    length tab' = length [0; 0] /\
    Array_get tab' (Z.rem (Z.quot 10 10) 2) = Some (100 + (10 - 3)).
Proof.
  apply (X1_single_block_window_stamped 0 3 10 100 idle_queue [0; 0] 10).
  - exact idle_queue_wf.
  - reflexivity.
  - lia.
  - simpl. lia.
  - simpl. lia.
  - lia.
  - reflexivity.
Defined.

Lemma X2_fillTimestamps_one_slot_witness :
  exists q' tab',
    fillTimestamps 0 0 20 100 idle_queue = Some q' /\
    Array_get (m_timestamps q') 0 = Some tab' /\
    length tab' = length [0; 0] /\
    (forall j, j <> 0 -> Array_get tab' j = Array_get [0; 0] j) /\
    (forall c, c <> 0 ->
       Array_get (m_timestamps q') c = Array_get (m_timestamps idle_queue) c).
Proof.
  apply (X2_fillTimestamps_touches_one_slot 0 0 20 100 idle_queue [0; 0]).
  - exact idle_queue_wf.
  - reflexivity.
  - lia.
  - simpl. lia.
Defined.

Lemma X3_fitting_write_witness :
  exists q' row' fifo',
    writeChannel (ramp 10) 0 10 100 idle_queue = Some q' /\
    Array_get (m_buffer q') 0 = Some row' /\
    Array_get (m_fifos q') 0 = Some fifo' /\
    10 + 0 = 10 /\
    (forall k, 0 <= k < 10 ->
       Array_get row' (0 + k) = Array_get (map Z.of_nat (seq 1 10)) k) /\
    (forall k, 0 <= k < 0 ->
       Array_get row' (0 + k) = Array_get (map Z.of_nat (seq 1 10)) (10 + k)) /\
    (forall p, ~ in_window 0 10 p -> ~ in_window 0 0 p ->
       Array_get row' p = Array_get (replicate 20 0) p) /\
    AbstractFifo.getNumReady fifo'
    = AbstractFifo.getNumReady (AbstractFifo.create 20) + 10 /\
    AbstractFifo.getFreeSpace fifo'
    = AbstractFifo.getFreeSpace (AbstractFifo.create 20) - 10.
Proof.
  apply (X3_fitting_write_stores_all idle_queue (ramp 10) 0 10 100
           (AbstractFifo.create 20) (replicate 20 0)
           (map Z.of_nat (seq 1 10)) 0 10 0 0).
  - exact idle_queue_wf.
  - reflexivity.
  - reflexivity.
  - reflexivity.
  - simpl. lia.
  - vm_compute. split; discriminate.
  - reflexivity.
Defined.

Lemma X4_empty_write_witness :
  writeChannel [] 0 0 100 idle_queue = Some idle_queue.
Proof.
  apply (X4_empty_or_refused_write_is_noop idle_queue [] 0 0 100
           (AbstractFifo.create 20)).
  - exact idle_queue_wf.
  - reflexivity.
  - left. lia.
Defined.

Lemma X5_write_leaves_the_rest_witness :
  (forall c, c <> 0 ->
     Array_get (m_buffer written10_queue) c = Array_get (m_buffer idle_queue) c /\
     Array_get (m_fifos written10_queue) c = Array_get (m_fifos idle_queue) c /\
     Array_get (m_timestamps written10_queue) c
     = Array_get (m_timestamps idle_queue) c) /\
  m_lastReadTimestamps written10_queue = m_lastReadTimestamps idle_queue /\
  m_readSamples written10_queue = m_readSamples idle_queue /\
  m_readInProgress written10_queue = m_readInProgress idle_queue /\
  m_numChans written10_queue = m_numChans idle_queue /\
  m_blockSize written10_queue = m_blockSize idle_queue /\
  m_numBlocks written10_queue = m_numBlocks idle_queue /\
  m_maxSize written10_queue = m_maxSize idle_queue.
Proof.
  apply (X5_write_leaves_the_rest (ramp 10) 0 10 100 idle_queue written10_queue).
  - exact idle_queue_wf.
  - reflexivity.
Defined.

Lemma X6_writes_commute_witness :
  exists qa qb qab,
    writeChannel (ramp 5) 0 5 100 two_channel_queue = Some qa /\
    writeChannel second_source 1 3 200 qa = Some qab /\
    writeChannel second_source 1 3 200 two_channel_queue = Some qb /\
    writeChannel (ramp 5) 0 5 100 qb = Some qab.
Proof.
  apply (X6_writes_to_distinct_channels_commute two_channel_queue
           (ramp 5) 0 5 100 (map Z.of_nat (seq 1 5))
           second_source 1 3 200 [7; 8; 9]).
  - exact two_channel_queue_wf.
  - discriminate.
  - simpl. lia.
  - simpl. lia.
  - reflexivity.
  - simpl. lia.
  - reflexivity.
  - simpl. lia.
Defined.

Lemma X7_startRead_on_empty_channel_witness :
  Array_get [mkIndexes 0 0 0 0] 0 = Some (mkIndexes 0 0 0 0) /\
  Array_get [0] 0 = Some (Array_at 0 (m_lastReadTimestamps idle_queue) 0) /\
  Array_at 0 (m_lastReadTimestamps open_queue) 0
  = Array_at 0 (m_lastReadTimestamps idle_queue) 0 /\
  Array_get (m_readSamples open_queue) 0 = Some 0.
Proof.
  apply (X7_startRead_on_empty_channel [] [] 0 idle_queue
           [mkIndexes 0 0 0 0] [0] open_queue 0 (AbstractFifo.create 20)).
  - exact idle_queue_wf.
  - reflexivity.
  - reflexivity.
  - reflexivity.
Defined.

Lemma X8_positive_cap_witness :
  exists indexes timestamps q' fifo idx,
    startRead [] [] 3 written10_queue = Some (true, indexes, timestamps, q') /\
    Array_get (m_fifos written10_queue) 0 = Some fifo /\
    Array_get indexes 0 = Some idx /\
    consumed idx = Z.min 3 (AbstractFifo.getNumReady fifo) /\
    Array_get (m_readSamples q') 0
    = Some (Z.min 3 (AbstractFifo.getNumReady fifo)).
Proof.
  eexists. eexists. eexists.
  assert (startRead [] [] 3 written10_queue = Some (true, _, _, _)) as Hstart
    by (vm_compute; reflexivity).
  destruct (X8_positive_cap_limits_each_channel [] [] 3 written10_queue
              _ _ _ 0 written10_queue_wf ltac:(lia) Hstart ltac:(simpl; lia))
    as (fifo & idx & H).
  exists fifo, idx. split; [exact Hstart | exact H].
Defined.

Lemma X9_session_releases_witness :
  exists indexes timestamps q1 q2,
    startRead [] [] 3 written10_queue = Some (true, indexes, timestamps, q1) /\
    stopRead q1 = Some q2 /\
    m_readInProgress q2 = false /\ queue_wf q2 /\
    m_buffer q2 = m_buffer written10_queue /\
    m_timestamps q2 = m_timestamps written10_queue.
Proof.
  eexists. eexists. eexists.
  assert (startRead [] [] 3 written10_queue = Some (true, _, _, _)) as Hstart
    by (vm_compute; reflexivity).
  destruct (X9_session_releases_what_it_consumed [] [] 3 written10_queue
              _ _ _ written10_queue_wf Hstart)
    as (q2 & Hstop & Hflag & Hwf & Hb & Ht & _).
  exists q2. split; [exact Hstart |]. split; [exact Hstop |].
  split; [exact Hflag |]. split; [exact Hwf |]. split; [exact Hb | exact Ht].
Defined.

Lemma X10_round_trip_witness :
  exists q1 indexes timestamps q2 idx ts row,
    writeChannel (ramp 10) 0 10 100 idle_queue = Some q1 /\
    startRead [] [] 0 q1 = Some (true, indexes, timestamps, q2) /\
    Array_get indexes 0 = Some idx /\
    Array_get timestamps 0 = Some ts /\
    index1 idx = AbstractFifo.validEnd (AbstractFifo.create 20) /\
    consumed idx = 10 /\
    Array_get (m_buffer q2) 0 = Some row /\
    (forall k, 0 <= k < size1 idx ->
       Array_get row (index1 idx + k)
       = Array_get (map Z.of_nat (seq 1 10)) k) /\
    (forall k, 0 <= k < size2 idx ->
       Array_get row (index2 idx + k)
       = Array_get (map Z.of_nat (seq 1 10)) (size1 idx + k)) /\
    (blockOffset (m_blockSize idle_queue) idx < 10 -> ts = 100) /\
    (10 <= blockOffset (m_blockSize idle_queue) idx ->
     ts = Array_at 0 (m_lastReadTimestamps idle_queue) 0).
Proof.
  apply (X10_write_then_read_round_trip idle_queue (ramp 10) 0 10 100
           (AbstractFifo.create 20) (map Z.of_nat (seq 1 10)) 0).
  - exact idle_queue_wf.
  - reflexivity.
  - reflexivity.
  - reflexivity.
  - reflexivity.
  - simpl. lia.
  - simpl. lia.
  - vm_compute. discriminate.
  - left. lia.
Defined.

Lemma X11_getTimestampsForBlock_witness :
  exists timestamps,
    getTimestampsForBlock 0 written10_queue = Some timestamps /\
    Z.of_nat (length timestamps) = m_numChans written10_queue /\
    forall chan, 0 <= chan < m_numChans written10_queue ->
      exists tab,
        Array_get (m_timestamps written10_queue) chan = Some tab /\
        Array_get timestamps chan = Some (Array_at 0 tab 0) /\
        (0 < 0 \/ m_numBlocks written10_queue <= 0 ->
         Array_get timestamps chan = Some 0).
Proof.
  apply (X11_getTimestampsForBlock_reads_every_table 0 written10_queue).
  exact written10_queue_wf.
Defined.

Lemma X12_aligned_write_then_query_witness :
  exists q' timestamps,
    writeChannel (ramp 10) 0 10 100 idle_queue = Some q' /\
    getTimestampsForBlock
      (Z.quot (AbstractFifo.validEnd (AbstractFifo.create 20))
         (m_blockSize idle_queue)) q'
    = Some timestamps /\
    Array_get timestamps 0 = Some 100.
Proof.
  apply (X12_aligned_write_then_query idle_queue (ramp 10) 0 10 100
           (AbstractFifo.create 20) (map Z.of_nat (seq 1 10))).
  - exact idle_queue_wf.
  - reflexivity.
  - reflexivity.
  - reflexivity.
  - simpl. lia.
  - simpl. lia.
  - vm_compute. discriminate.
Defined.

Lemma X13_fresh_channels_witness :
  getNumChannels (setChannels 2 (DataQueue_new 10 2)) = 2 /\
  (forall chan, 0 <= chan < 2 ->
     exists fifo,
       Array_get (m_fifos (setChannels 2 (DataQueue_new 10 2))) chan
       = Some fifo /\
       AbstractFifo.getNumReady fifo = 0 /\
       AbstractFifo.getTotalSize fifo = m_maxSize (DataQueue_new 10 2)) /\
  exists indexes timestamps q',
    startRead [] [] 0 (setChannels 2 (DataQueue_new 10 2))
    = Some (true, indexes, timestamps, q') /\
    Z.of_nat (length indexes) = 2 /\
    forall chan, 0 <= chan < 2 ->
      Array_get indexes chan = Some (mkIndexes 0 0 0 0) /\
      Array_get timestamps chan = Some 0.
Proof.
  apply (X13_fresh_channels_read_back_nothing 2 0 (DataQueue_new 10 2)).
  - reflexivity.
  - simpl. lia.
  - simpl. lia.
  - reflexivity.
  - lia.
Defined.

Lemma X14_resize_witness :
  exists q',
    resize 3 written10_queue = Some q' /\
    m_numChans q' = m_numChans written10_queue /\
    m_blockSize q' = m_blockSize written10_queue /\
    m_numBlocks q' = 3 /\
    m_maxSize q' = m_blockSize written10_queue * 3 /\
    m_readInProgress q' = false /\
    forall chan, 0 <= chan < m_numChans written10_queue ->
      Array_get (m_fifos q') chan
      = Some (AbstractFifo.create (m_blockSize written10_queue * 3)) /\
      Array_get (m_readSamples q') chan = Some 0 /\
      Array_get (m_lastReadTimestamps q') chan = Some 0 /\
      exists tab tab',
        Array_get (m_timestamps written10_queue) chan = Some tab /\
        Array_get (m_timestamps q') chan = Some tab' /\
        Z.of_nat (length tab') = 3 /\
        (forall j, 0 <= j < Z.min 3 (m_numBlocks written10_queue) ->
           Array_get tab' j = Array_get tab j) /\
        (forall j, m_numBlocks written10_queue <= j < 3 ->
           Array_get tab' j = Some 0).
Proof.
  apply (X14_resize_resets_channels_keeps_stamps 3 written10_queue).
  - exact written10_queue_wf.
  - lia.
  - reflexivity.
Defined.


Lemma X16_reachable_queues_witness :
  exists q',
    queue_wf q' /\
    (exists r, startRead [] [] 0 q' = Some r) /\
    (exists q'', stopRead q' = Some q'') /\
    (exists timestamps, getTimestampsForBlock 0 q' = Some timestamps).
Proof.
  eexists.
  eapply (X16_reachable_queues_are_well_formed 10 2 setup_ops).
  - lia.
  - lia.
  - repeat constructor. simpl. lia.
  - vm_compute. reflexivity.
Defined.

(** ** Further properties: a writer whose timestamps never go back *)

Ltac ring_unfold :=
  unfold ring_dist, AbstractFifo.wf, AbstractFifo.getFreeSpace,
    AbstractFifo.getNumReady, AbstractFifo.prepareToWrite,
    AbstractFifo.prepareToRead, AbstractFifo.finishedWrite,
    AbstractFifo.finishedRead, holds_unread, in_window in *;
  simpl in *.

Lemma ring_dist_unread f p :
  AbstractFifo.wf f -> holds_unread f p ->
  0 <= p < AbstractFifo.bufferSize f /\
  0 <= ring_dist f p < AbstractFifo.getNumReady f.
Proof. ring_unfold. intros Hwf Hp. fifo_cases; lia. Qed.

Lemma ring_dist_inj f p p' :
  AbstractFifo.wf f -> holds_unread f p -> holds_unread f p' ->
  ring_dist f p = ring_dist f p' -> p = p'.
Proof. ring_unfold. intros Hwf Hp Hp'. fifo_cases; lia. Qed.

(** The ring after a committed write: the unread positions are the old ones
    and the written ones, the written ones lying behind all the old ones in
    write order. *)
Lemma fifo_write_geometry f n i1 s1 i2 s2 :
  AbstractFifo.wf f ->
  AbstractFifo.prepareToWrite f n = (i1, s1, i2, s2) ->
  let f' := AbstractFifo.finishedWrite f (s1 + s2) in
  let ready := AbstractFifo.getNumReady f in
  AbstractFifo.getNumReady f' = ready + (s1 + s2) /\
  (forall p, holds_unread f' p <->
             holds_unread f p \/ in_window i1 s1 p \/ in_window i2 s2 p) /\
  (forall p, ring_dist f' p = ring_dist f p) /\
  (forall p, in_window i1 s1 p ->
     ring_dist f p = ready + (p - i1) /\ ~ in_window i2 s2 p /\
     ~ holds_unread f p) /\
  (forall p, in_window i2 s2 p ->
     ring_dist f p = ready + s1 + (p - i2) /\ ~ holds_unread f p).
Proof.
  destruct f as [size vs ve]. ring_unfold. intros Hwf Hprep.
  split_and!.
  - fifo_cases; inversion Hprep; subst; clear Hprep; lia.
  - intros p. fifo_cases; inversion Hprep; subst; clear Hprep; lia.
  - done.
  - intros p Hp. fifo_cases; inversion Hprep; subst; clear Hprep; lia.
  - intros p Hp. fifo_cases; inversion Hprep; subst; clear Hprep; lia.
Qed.

(** The ring after a committed read of [n] samples: the first [n] unread
    positions are released, the others come [n] nearer to the read cursor. *)
Lemma fifo_read_geometry f n :
  AbstractFifo.wf f -> 0 <= n <= AbstractFifo.getNumReady f ->
  let f' := AbstractFifo.finishedRead f n in
  AbstractFifo.getNumReady f' = AbstractFifo.getNumReady f - n /\
  (forall p, holds_unread f' p <-> holds_unread f p /\ n <= ring_dist f p) /\
  (forall p, holds_unread f' p -> ring_dist f' p = ring_dist f p - n).
Proof.
  destruct f as [size vs ve]. ring_unfold. intros Hwf Hn.
  split_and!.
  - fifo_cases; lia.
  - intros p. fifo_cases; lia.
  - intros p. fifo_cases; lia.
Qed.

Lemma write_tau_first tau timestamp i1 s1 i2 s2 p :
  in_window i1 s1 p ->
  write_tau tau timestamp i1 s1 i2 s2 p = timestamp + (p - i1).
Proof. unfold write_tau, in_window. intros Hp. fifo_cases; simpl; lia. Qed.

Lemma write_tau_second tau timestamp i1 s1 i2 s2 p :
  ~ in_window i1 s1 p -> in_window i2 s2 p ->
  write_tau tau timestamp i1 s1 i2 s2 p = timestamp + s1 + (p - i2).
Proof.
  unfold write_tau, in_window. intros Hn1 Hp. fifo_cases; simpl; lia.
Qed.

Lemma write_tau_old tau timestamp i1 s1 i2 s2 p :
  ~ in_window i1 s1 p -> ~ in_window i2 s2 p ->
  write_tau tau timestamp i1 s1 i2 s2 p = tau p.
Proof.
  unfold write_tau, in_window. intros Hn1 Hn2.
  fifo_cases; simpl; (lia || done).
Qed.

(** Stamping a window of at most one block leaves alone the slot of every
    block start outside the window. *)
Lemma fill_table_spares_position blockSize numBlocks index size timestamp tab p :
  0 < blockSize -> 0 <= index -> index + size <= blockSize * numBlocks ->
  Z.of_nat (length tab) = numBlocks ->
  size <= blockSize ->
  0 <= p -> Z.rem p blockSize = 0 -> ~ in_window index size p ->
  Array_get (fill_table blockSize index size timestamp tab) (Z.quot p blockSize)
  = Array_get tab (Z.quot p blockSize).
Proof.
  intros Hbs Hidx Hwin Hlen Hsize Hp Hal Hout. unfold in_window in Hout.
  destruct (Z.le_gt_cases size 0) as [Hs | Hs].
  { by rewrite fill_table_empty. }
  rewrite fill_table_single_block by lia.
  rewrite Z.rem_mod_nonneg in Hal by lia.
  rewrite (Z.rem_mod_nonneg index), (Z.quot_div_nonneg index),
    (Z.quot_div_nonneg p) by lia.
  pose proof (Z.div_mod index blockSize ltac:(lia)) as Hdi.
  pose proof (Z.mod_pos_bound index blockSize Hbs) as Hmi.
  pose proof (Z.div_mod p blockSize ltac:(lia)) as Hdp.
  assert (0 <= index `div` blockSize) as Hqi by (apply Z.div_pos; lia).
  assert (index `div` blockSize < numBlocks) as Hqi'.
  { apply Z.div_lt_upper_bound; lia. }
  destruct (Z.eqb_spec (index `mod` blockSize) 0) as [Hz | Hnz].
  - apply Array_get_set_ne; [lia |]. intros Heq. rewrite <- Heq in Hdp. lia.
  - destruct (Z.ltb_spec (index + (blockSize - index `mod` blockSize))
                (index + size)) as [Hin | Hno]; [| done].
    apply Array_get_set_ne; [nia |]. intros Heq. rewrite <- Heq in Hdp. nia.
Qed.

(** The block start that a read window reaches first, when the data ready
    go that far: it holds unread data, lies [blockOffset] samples behind the
    read cursor, and its slot is the one [startRead] looks up. *)
Lemma boundary_position blockSize numBlocks f idx :
  AbstractFifo.wf f -> 0 < blockSize -> 0 < numBlocks ->
  AbstractFifo.bufferSize f = blockSize * numBlocks ->
  index1 idx = AbstractFifo.validStart f ->
  blockOffset blockSize idx < AbstractFifo.getNumReady f ->
  exists b,
    holds_unread f b /\ ring_dist f b = blockOffset blockSize idx /\
    Z.rem b blockSize = 0 /\
    boundarySlot blockSize numBlocks idx = Z.quot b blockSize.
Proof.
  intros Hwf Hbs Hnb Hsize Hi1 Hoff.
  unfold boundarySlot. revert Hoff. unfold blockOffset. rewrite Hi1.
  destruct f as [size vs ve]. ring_unfold. subst size.
  rewrite (Z.rem_mod_nonneg vs) by lia.
  pose proof (Z.div_mod vs blockSize ltac:(lia)) as Hdv.
  pose proof (Z.mod_pos_bound vs blockSize Hbs) as Hmv.
  assert (0 <= vs `div` blockSize < numBlocks) as Hqv.
  { split; [apply Z.div_pos; lia | apply Z.div_lt_upper_bound; lia]. }
  set (off := if vs `mod` blockSize =? 0 then 0
              else blockSize - vs `mod` blockSize).
  assert (exists k, vs + off = blockSize * k /\ 0 <= k <= numBlocks /\
                    0 <= off < blockSize) as (k & Hk & Hkr & Hoffr).
  { unfold off. destruct (Z.eqb_spec (vs `mod` blockSize) 0).
    - exists (vs `div` blockSize). lia.
    - exists (vs `div` blockSize + 1). lia. }
  rewrite Hk. rewrite (Z.mul_comm blockSize k), Z.quot_mul by lia.
  intros Hoff.
  destruct (Z.eq_dec k numBlocks) as [-> | Hne].
  - exists 0. rewrite Z.rem_same by lia.
    rewrite Z.rem_0_l, Z.quot_0_l by lia.
    split_and!; try done; fifo_cases; nia.
  - exists (k * blockSize). rewrite Z.rem_mul, Z.quot_mul by lia.
    rewrite Z.rem_small by lia.
    split_and!; try done; fifo_cases; nia.
Qed.

(** An empty idle channel meets the invariant, with its last-read timestamp
    as frontier. *)
Lemma stamps_inv_empty chan q fifo :
  queue_wf q -> m_readInProgress q = false ->
  Array_get (m_fifos q) chan = Some fifo ->
  AbstractFifo.getNumReady fifo = 0 ->
  stamps_inv chan q (fun _ => 0) (Array_at 0 (m_lastReadTimestamps q) chan).
Proof.
  intros Hwf Hidle Hfifo Hempty.
  destruct (wf_fifo_at _ _ _ Hwf Hfifo) as [Hfwf _].
  pose proof (Array_get_Some_range _ _ _ Hfifo) as Hc.
  pose proof (wf_len_fifos q Hwf) as Hlf.
  pose proof (wf_len_timestamps q Hwf) as Hlt.
  pose proof (wf_reads q Hwf chan fifo Hfifo) as Hrs.
  destruct (Array_get_is_Some (m_timestamps q) chan) as [tab Htab]; [lia |].
  exists fifo, tab. cbv zeta. rewrite Hempty.
  assert (forall p, ~ holds_unread fifo p) as Hnone.
  { intros p Hp. destruct (ring_dist_unread _ _ Hfwf Hp). lia. }
  split_and!; try done.
  - lia.
  - intros p p' Hp. by destruct (Hnone p).
  - intros p Hp. by destruct (Hnone p).
  - intros p Hp. by destruct (Hnone p).
  - intros p Hp. by destruct (Hnone p).
  - lia.
Qed.

(** A write of at most one block to the channel, stamped at or after the
    frontier, keeps the invariant and moves the frontier to the end of the
    write. *)
Lemma stamps_inv_write buffer chan n timestamp q q' tau frontier :
  queue_wf q -> stamps_inv chan q tau frontier ->
  frontier <= timestamp -> 0 <= n <= m_blockSize q ->
  writeChannel buffer chan n timestamp q = Some q' ->
  exists tau', stamps_inv chan q' tau' (timestamp + n).
Proof.
  intros Hwf Hinv HF Hn Hw. unfold stamps_inv in Hinv. cbv zeta in Hinv.
  destruct Hinv as (fifo & tab & Hfifo & Htab & H0 & H1 & H2 & H3 & H4 & H5).
  destruct (writeChannel_inv _ _ _ _ _ _ Hwf Hw)
    as (fifo' & row & tab' & row' & i1 & s1 & i2 & s2
        & Hfifo' & Hrow & Htab' & Hprep & Hlen & ->).
  rewrite Hfifo in Hfifo'. inversion Hfifo'; subst fifo'; clear Hfifo'.
  rewrite Htab in Htab'. inversion Htab'; subst tab'; clear Htab'.
  destruct (wf_fifo_at _ _ _ Hwf Hfifo) as [Hfwf Hsize].
  pose proof (wf_tab_at _ _ _ Hwf Htab) as Hlt.
  pose proof (wf_blockSize q Hwf) as Hbs.
  pose proof (wf_maxSize q Hwf) as Hmax.
  pose proof (Array_get_Some_range _ _ _ Hfifo) as Hc.
  pose proof (Array_get_Some_range _ _ _ Htab) as Hc'.
  destruct (fifo_prepareToWrite_spec _ _ _ _ _ _ Hfwf Hprep)
    as (Hs1 & Hs2 & Htot & Hi1 & Hw1in & Hi2 & Hw2in & _ & _).
  destruct (fifo_write_geometry fifo n i1 s1 i2 s2 Hfwf Hprep)
    as (Hready & Hun & Hdist & Hg1 & Hg2).
  assert (s1 + s2 <= n) as Hg by lia.
  set (tab1 := fill_table (m_blockSize q) i1 s1 timestamp tab) in *.
  assert (Z.of_nat (length tab1) = m_numBlocks q) as Hlt1.
  { unfold tab1.
    rewrite (fill_table_length _ (m_numBlocks q)); [done | done | done | lia | done]. }
  set (tab2 := fill_table (m_blockSize q) i2 s2 (timestamp + s1) tab1) in *.
  set (f' := AbstractFifo.finishedWrite fifo (s1 + s2)) in *.
  set (tau' := write_tau tau timestamp i1 s1 i2 s2).
  set (ready := AbstractFifo.getNumReady fifo) in *.
  assert (forall p, holds_unread f' p ->
            (holds_unread fifo p /\ tau' p = tau p /\
             (Z.rem p (m_blockSize q) = 0 ->
              Array_get tab2 (Z.quot p (m_blockSize q))
              = Array_get tab (Z.quot p (m_blockSize q))))
            \/ (ready <= ring_dist fifo p < ready + (s1 + s2) /\
                tau' p = timestamp + (ring_dist fifo p - ready) /\
                (Z.rem p (m_blockSize q) = 0 ->
                 Array_get tab2 (Z.quot p (m_blockSize q)) = Some (tau' p))))
    as Hclass.
  { intros p Hp. apply Hun in Hp. destruct Hp as [Hold | [Hin1 | Hin2]].
    - left.
      assert (~ in_window i1 s1 p) as Hn1.
      { intros Hin. by destruct (Hg1 p Hin) as (_ & _ & Hno). }
      assert (~ in_window i2 s2 p) as Hn2.
      { intros Hin. by destruct (Hg2 p Hin) as (_ & Hno). }
      split_and!; [done | by apply write_tau_old |].
      intros Hal.
      destruct (ring_dist_unread _ _ Hfwf Hold) as [Hrange _].
      unfold tab2.
      rewrite (fill_table_spares_position _ (m_numBlocks q));
        [| done | lia | lia | done | lia | lia | done | done].
      unfold tab1.
      apply (fill_table_spares_position _ (m_numBlocks q));
        [done | lia | lia | done | lia | lia | done | done].
    - right. destruct (Hg1 p Hin1) as (Hd & Hn2 & _).
      assert (tau' p = timestamp + (p - i1)) as Htau
        by (by apply write_tau_first).
      unfold in_window in Hin1.
      split_and!; [lia | lia | lia |].
      intros Hal. rewrite Htau. unfold tab2.
      rewrite (fill_table_spares_position _ (m_numBlocks q));
        [| done | lia | lia | done | lia | lia | done | done].
      unfold tab1.
      by destruct (fill_table_stamps_position (m_blockSize q) (m_numBlocks q)
                     i1 s1 timestamp tab p) as [_ Hst]; [done | lia | lia | done | lia | lia | done |].
    - right. destruct (Hg2 p Hin2) as (Hd & _).
      assert (~ in_window i1 s1 p) as Hn1.
      { intros Hin. by destruct (Hg1 p Hin) as (_ & Hno & _). }
      assert (tau' p = timestamp + s1 + (p - i2)) as Htau
        by (by apply write_tau_second).
      unfold in_window in Hin2.
      split_and!; [lia | lia | lia |].
      intros Hal. rewrite Htau. unfold tab2.
      by destruct (fill_table_stamps_position (m_blockSize q) (m_numBlocks q)
                     i2 s2 (timestamp + s1) tab1 p) as [_ Hst]; [done | lia | lia | done | lia | lia | done |]. }
  exists tau'. exists f', tab2. cbv zeta. unfold written.
  cbn [m_fifos m_timestamps m_readSamples m_lastReadTimestamps
       m_readInProgress m_blockSize].
  split; [apply Array_get_insert_eq; lia |].
  split; [apply Array_get_insert_eq; lia |].
  fold ready in Hready. rewrite Hready.
  split_and!.
  - exact H0.
  - intros p p' Hp Hp' Hle. rewrite (Hdist p), (Hdist p') in Hle |- *.
    destruct (Hclass p Hp) as [(Ho & Ht & _) | (Hr & Ht & _)],
      (Hclass p' Hp') as [(Ho' & Ht' & _) | (Hr' & Ht' & _)];
      rewrite Ht, Ht'.
    + by apply H1.
    + pose proof (H4 p Ho). lia.
    + pose proof (ring_dist_unread _ _ Hfwf Ho'). unfold ready in *. lia.
    + lia.
  - intros p Hp Hal.
    destruct (Hclass p Hp) as [(Ho & Ht & Htb) | (Hr & Ht & Htb)].
    + rewrite Htb, Ht by done. by apply H2.
    + by apply Htb.
  - intros p Hp Hle. rewrite (Hdist p) in Hle |- *.
    destruct (Hclass p Hp) as [(Ho & Ht & _) | (Hr & Ht & _)]; rewrite Ht.
    + by apply H3.
    + lia.
  - intros p Hp. rewrite (Hdist p).
    destruct (Hclass p Hp) as [(Ho & Ht & _) | (Hr & Ht & _)]; rewrite Ht.
    + pose proof (H4 p Ho). lia.
    + lia.
  - lia.
Qed.

(** A write to another channel does not touch the invariant. *)
Lemma stamps_inv_write_other buffer channel chan n timestamp q q' tau frontier :
  queue_wf q -> stamps_inv chan q tau frontier -> channel <> chan ->
  writeChannel buffer channel n timestamp q = Some q' ->
  stamps_inv chan q' tau frontier.
Proof.
  intros Hwf Hinv Hne Hw.
  destruct (writeChannel_inv _ _ _ _ _ _ Hwf Hw)
    as (fifo' & row & tab' & row' & i1 & s1 & i2 & s2
        & Hfifo' & _ & _ & _ & _ & ->).
  pose proof (Array_get_Some_range _ _ _ Hfifo') as Hc.
  unfold stamps_inv in *. unfold written.
  cbn [m_fifos m_timestamps m_readSamples m_lastReadTimestamps
       m_readInProgress m_blockSize].
  by rewrite !Array_get_insert_ne by lia.
Qed.

(** A session opened on the idle queue keeps the invariant; its timestamp is
    not below the last-read timestamp it found. *)
Lemma stamps_inv_startRead chan indexes0 timestamps0 nMax q ok indexes
    timestamps q' tau frontier :
  queue_wf q -> 0 <= chan < m_numChans q -> m_readInProgress q = false ->
  stamps_inv chan q tau frontier ->
  startRead indexes0 timestamps0 nMax q = Some (ok, indexes, timestamps, q') ->
  stamps_inv chan q' tau frontier /\
  exists idx ts,
    Array_get indexes chan = Some idx /\
    Array_get timestamps chan = Some ts /\
    Array_at 0 (m_lastReadTimestamps q) chan <= ts /\
    0 <= consumed idx /\
    Array_at 0 (m_lastReadTimestamps q') chan = ts + consumed idx.
Proof.
  intros Hwf Hchan Hidle Hinv Hstart.
  unfold stamps_inv in Hinv. cbv zeta in Hinv.
  destruct Hinv as (fifo & tab & Hfifo & Htab & H0 & H1 & H2 & H3 & H4 & H5).
  destruct (startRead_spec _ _ _ _ _ _ _ _ Hwf Hidle Hstart)
    as (_ & Hflag' & (_ & Hf & Ht & _ & Hbs' & _ & _) & _ & _ & _ & _ & Hch).
  destruct (Hch chan Hchan) as (idx & ts & Hsess & Hidx & Hts & Hlast' & Hrs').
  destruct (wf_fifo_at _ _ _ Hwf Hfifo) as [Hfwf Hsize].
  pose proof (wf_blockSize q Hwf) as Hbs.
  pose proof (wf_numBlocks q Hwf) as Hnb.
  pose proof (wf_maxSize q Hwf) as Hmax.
  destruct (chan_session_consumed q nMax chan idx ts fifo Hwf Hsess Hfifo)
    as (_ & _ & _ & Hcons & _).
  destruct Hsess as (fifo' & Hfifo' & Hprep & Hin & Hout).
  rewrite Hfifo in Hfifo'. inversion Hfifo'; subst fifo'; clear Hfifo'.
  cbv zeta in Hprep.
  destruct (fifo_prepareToRead_spec _ _ _ _ _ _ Hfwf Hprep)
    as (_ & _ & _ & _ & _ & _ & _ & Hvs & _).
  fold (consumed idx) in Hvs.
  specialize (H0 Hidle).
  set (last := Array_at 0 (m_lastReadTimestamps q) chan) in *.
  set (ready := AbstractFifo.getNumReady fifo) in *.
  assert (0 <= blockOffset (m_blockSize q) idx) as Hoff0.
  { unfold blockOffset.
    destruct (Z.eqb_spec (Z.rem (index1 idx) (m_blockSize q)) 0); [lia |].
    pose proof (Z.rem_bound_abs (index1 idx) (m_blockSize q) ltac:(lia)).
    lia. }
  assert (last <= ts /\
          (forall p, holds_unread fifo p -> consumed idx <= ring_dist fifo p ->
                     ts + ring_dist fifo p <= tau p) /\
          ts + ready <= frontier) as (Hk1 & Hk2 & Hk3).
  { destruct (Z.lt_ge_cases (blockOffset (m_blockSize q) idx) (consumed idx))
      as [Hb | Hnb'].
    - destruct (Hin Hb) as (tab' & stamp & Htab' & Hslot & ->).
      rewrite Htab in Htab'. inversion Htab'; subst tab'; clear Htab'.
      destruct (boundary_position (m_blockSize q) (m_numBlocks q) fifo idx)
        as (b & Hbu & Hbd & Hbal & Hbslot);
        [done | done | done | congruence | apply Hvs; lia | unfold ready in *; lia |].
      rewrite Hbslot, (H2 b Hbu Hbal) in Hslot.
      inversion Hslot; subst stamp; clear Hslot.
      split_and!.
      + pose proof (H3 b Hbu ltac:(lia)). lia.
      + intros p Hp Hle. pose proof (H1 b p Hbu Hp ltac:(lia)). lia.
      + pose proof (H4 b Hbu). lia.
    - rewrite (Hout ltac:(lia)). fold last.
      split_and!.
      + lia.
      + intros p Hp Hle. destruct (ring_dist_unread _ _ Hfwf Hp) as [_ Hd].
        pose proof (H3 p Hp ltac:(lia)). lia.
      + lia. }
  assert (Array_at 0 (m_readSamples q') chan = consumed idx) as Hrs.
  { unfold Array_at. by rewrite Hrs'. }
  assert (Array_at 0 (m_lastReadTimestamps q') chan = ts + consumed idx)
    as Hlast.
  { unfold Array_at. by rewrite Hlast'. }
  split.
  - exists fifo, tab. cbv zeta. rewrite Hf, Ht, Hbs', Hrs, Hlast.
    split_and!; try done.
    + intros Hfalse. congruence.
    + intros p Hp Hle. pose proof (Hk2 p Hp Hle). lia.
    + fold ready. lia.
  - exists idx, ts. split_and!; try done. lia.
Qed.

(** Closing the session keeps the invariant: the consumed positions are
    released and the others come nearer to the read cursor. *)
Lemma stamps_inv_stopRead chan q q' tau frontier :
  queue_wf q -> 0 <= chan < m_numChans q -> m_readInProgress q = true ->
  stamps_inv chan q tau frontier ->
  stopRead q = Some q' ->
  stamps_inv chan q' tau frontier /\
  m_lastReadTimestamps q' = m_lastReadTimestamps q.
Proof.
  intros Hwf Hchan Hopen Hinv Hstop.
  unfold stamps_inv in Hinv. cbv zeta in Hinv.
  destruct Hinv as (fifo & tab & Hfifo & Htab & H0 & H1 & H2 & H3 & H4 & H5).
  destruct (stopRead_spec q Hwf Hopen)
    as (q'' & Hstop' & Hflag' & _ & Ht & Hl & _ & Hbs' & _ & _ & _ & _ & Hch).
  rewrite Hstop in Hstop'. inversion Hstop'; subst q''; clear Hstop'.
  destruct (Hch chan Hchan) as (f & Hf & Hf' & Hrs').
  rewrite Hfifo in Hf. inversion Hf; subst f; clear Hf.
  destruct (wf_fifo_at _ _ _ Hwf Hfifo) as [Hfwf Hsize].
  pose proof (wf_reads q Hwf chan fifo Hfifo) as Hrs.
  set (rs := Array_at 0 (m_readSamples q) chan) in *.
  destruct (fifo_read_geometry fifo rs Hfwf Hrs) as (Hready & Hun & Hdist).
  assert (Array_at 0 (m_readSamples q') chan = 0) as Hrs0.
  { unfold Array_at. by rewrite Hrs'. }
  split; [| done].
  exists (AbstractFifo.finishedRead fifo rs), tab. cbv zeta.
  rewrite Ht, Hl, Hbs', Hrs0, Hready.
  split_and!; try done.
  - intros p p' Hp Hp' Hle.
    rewrite (Hdist p Hp), (Hdist p' Hp') in Hle |- *.
    apply Hun in Hp as [Hp _]. apply Hun in Hp' as [Hp' _].
    pose proof (H1 p p' Hp Hp' ltac:(lia)). lia.
  - intros p Hp Hal. apply Hun in Hp as [Hp _]. by apply H2.
  - intros p Hp Hle. rewrite (Hdist p Hp).
    apply Hun in Hp as [Hp Hd]. pose proof (H3 p Hp Hd). lia.
  - intros p Hp. rewrite (Hdist p Hp).
    apply Hun in Hp as [Hp Hd]. pose proof (H4 p Hp). lia.
  - lia.
Qed.

Lemma ordered_app l0 ss1 l1 ss2 l2 :
  ordered l0 ss1 l1 -> ordered l1 ss2 l2 -> ordered l0 (ss1 ++ ss2) l2.
Proof.
  revert l0. induction ss1 as [| [idx ts] ss1 IH]; intros l0 H1 H2; simpl in *.
  - by subst l1.
  - destruct H1 as (Hle & Hc & Hrest). split_and!; [done | done |].
    by apply IH.
Qed.

Lemma ordered_bounds l0 ss l1 :
  ordered l0 ss l1 ->
  l0 <= l1 /\ forall e, e ∈ ss -> l0 <= e.2 /\ e.2 + consumed e.1 <= l1.
Proof.
  revert l0. induction ss as [| [idx ts] ss IH]; intros l0 Hord; simpl in *.
  - subst l1. split; [lia |]. intros e He. by apply elem_of_nil in He.
  - destruct Hord as (Hle & Hc & Hrest).
    destruct (IH _ Hrest) as (Hl1 & Hall).
    split; [lia |]. intros e He. apply elem_of_cons in He as [-> | He].
    + simpl. lia.
    + destruct (Hall e He). lia.
Qed.

Lemma ordered_adjacent l0 before e1 e2 after l1 :
  ordered l0 (before ++ e1 :: e2 :: after) l1 ->
  e1.2 + consumed e1.1 <= e2.2.
Proof.
  revert l0. induction before as [| [idx ts] before IH]; intros l0 Hord;
    simpl in *.
  - destruct e1 as [idx1 ts1], e2 as [idx2 ts2]. simpl in *.
    destruct Hord as (_ & _ & Hle & _). exact Hle.
  - destruct Hord as (_ & _ & Hrest). by apply (IH _ Hrest).
Qed.

(** A trace of the steady state with a writer whose timestamps never go
    back keeps the sessions of the channel in order. *)
Lemma run_ordered chan ops q results q' tau frontier :
  queue_wf q -> 0 <= chan < m_numChans q ->
  stamps_inv chan q tau frontier ->
  forallb session_op ops = true ->
  disciplined (m_blockSize q) chan frontier ops ->
  run ops q = Some (results, q') ->
  ordered (Array_at 0 (m_lastReadTimestamps q) chan)
    (sessions chan results)
    (Array_at 0 (m_lastReadTimestamps q') chan).
Proof.
  revert q results tau frontier.
  induction ops as [| op ops IH];
    intros q results tau frontier Hwf Hchan Hinv Hops Hdisc Hrun.
  { simpl in Hrun. inversion Hrun; subst. by simpl. }
  simpl in Hrun, Hops. apply andb_true_iff in Hops as [Hop Hops].
  destruct (exec op q) as [[r q1] |] eqn:Hexec; [| done]. simpl in Hrun.
  destruct (run ops q1) as [[rs q2] |] eqn:Hrest; [| done]. simpl in Hrun.
  inversion Hrun; subst; clear Hrun.
  destruct (exec_session_step chan op q r q1 Hwf Hchan Hop Hexec)
    as (Hwf1 & Hn1 & Hbs1 & _).
  rewrite sessions_cons.
  destruct op as [nChans | nBlocks | buffer channel n ts | nMax |];
    simpl in Hexec, Hdisc; try done.
  - destruct (writeChannel buffer channel n ts q) as [q1' |] eqn:Hwrite;
      [| done].
    simpl in Hexec. inversion Hexec; subst; clear Hexec.
    destruct (writeChannel_frame _ _ _ _ _ _ Hwrite) as (Hl & _).
    rewrite <- Hl. simpl. rewrite <- Hbs1 in Hdisc.
    destruct (Z.eqb_spec channel chan) as [-> | Hne].
    + destruct Hdisc as (HF & Hn & Hdisc). rewrite Hbs1 in Hn.
      destruct (stamps_inv_write _ _ _ _ _ _ _ _ Hwf Hinv HF Hn Hwrite)
        as (tau' & Hinv').
      apply (IH q1 rs tau' (ts + n)); [done | lia | done | done | done | done].
    + pose proof (stamps_inv_write_other _ _ _ _ _ _ _ _ _ Hwf Hinv Hne Hwrite)
        as Hinv'.
      apply (IH q1 rs tau frontier); [done | lia | done | done | done | done].
  - destruct (startRead [] [] nMax q) as [[[[ok indexes] timestamps] q1'] |]
      eqn:Hstart; [| done].
    simpl in Hexec. inversion Hexec; subst; clear Hexec.
    rewrite <- Hbs1 in Hdisc.
    destruct (m_readInProgress q) eqn:Hflag.
    + rewrite startRead_open in Hstart by done.
      inversion Hstart; subst. simpl.
      by apply (IH q1 rs tau frontier).
    + destruct (startRead_spec _ _ _ _ _ _ _ _ Hwf Hflag Hstart) as (-> & _).
      destruct (stamps_inv_startRead _ _ _ _ _ _ _ _ _ _ _
                  Hwf Hchan Hflag Hinv Hstart)
        as (Hinv' & idx & t & Hidx & Hts & Hle & Hc & Hlast).
      unfold sessions at 1. simpl. rewrite Hidx, Hts. simpl.
      split_and!; [done | done |]. rewrite <- Hlast.
      apply (IH q1 rs tau frontier); [done | lia | done | done | done | done].
  - destruct (stopRead q) as [q1' |] eqn:Hstop; [| done].
    simpl in Hexec. inversion Hexec; subst; clear Hexec.
    rewrite <- Hbs1 in Hdisc. simpl.
    destruct (m_readInProgress q) eqn:Hflag.
    + destruct (stamps_inv_stopRead _ _ _ _ _ Hwf Hchan Hflag Hinv Hstop)
        as (Hinv' & Hl).
      rewrite <- Hl.
      apply (IH q1 rs tau frontier); [done | lia | done | done | done | done].
    + rewrite stopRead_idle in Hstop by done. inversion Hstop; subst.
      by apply (IH q1 rs tau frontier).
Qed.

(** X17.  A writer whose timestamps never go back is read back in order.
    Take a channel that is empty, on an idle queue, and any sequence of
    [writeChannel], [startRead] and [stopRead] calls in which every write to
    that channel has at most [blockSize] samples and a timestamp at or after
    the end of the previous write to it (the first one at or after the
    channel's last-read timestamp).  Then every session of the channel
    returns a timestamp at or after the initial last-read timestamp, each
    session's timestamp is at or after the previous session's timestamp
    plus its consumed length, and the last-read timestamp never ends below
    where it started. *)
Theorem X17_steady_writer_is_read_in_order chan ops q fifo results q' :
  queue_wf q -> m_readInProgress q = false ->
  Array_get (m_fifos q) chan = Some fifo ->
  AbstractFifo.getNumReady fifo = 0 ->
  forallb session_op ops = true ->
  disciplined (m_blockSize q) chan
    (Array_at 0 (m_lastReadTimestamps q) chan) ops ->
  run ops q = Some (results, q') ->
  (forall e, e ∈ sessions chan results ->
     Array_at 0 (m_lastReadTimestamps q) chan <= e.2) /\
  (forall before e1 e2 after,
     sessions chan results = before ++ e1 :: e2 :: after ->
     e1.2 + consumed e1.1 <= e2.2) /\
  Array_at 0 (m_lastReadTimestamps q) chan
  <= Array_at 0 (m_lastReadTimestamps q') chan.
Proof.
  intros Hwf Hidle Hfifo Hempty Hops Hdisc Hrun.
  pose proof (Array_get_Some_range _ _ _ Hfifo) as Hc.
  pose proof (wf_len_fifos q Hwf) as Hlf.
  pose proof (stamps_inv_empty chan q fifo Hwf Hidle Hfifo Hempty) as Hinv.
  pose proof (run_ordered chan ops q results q' _ _ Hwf ltac:(lia) Hinv Hops
                Hdisc Hrun) as Hord.
  destruct (ordered_bounds _ _ _ Hord) as (Hend & Hall).
  split_and!.
  - intros e He. by destruct (Hall e He).
  - intros before e1 e2 after Heq. rewrite Heq in Hord.
    exact (ordered_adjacent _ _ _ _ _ _ Hord).
  - exact Hend.
Qed.

Lemma X17_steady_writer_witness :
  (forall e,
     e ∈ sessions 0
           [RVoid; RStartRead true [mkIndexes 0 7 0 0] [100]; RVoid;
            RVoid; RStartRead true [mkIndexes 7 8 0 0] [107]; RVoid] ->
     Array_at 0 (m_lastReadTimestamps idle_queue) 0 <= e.2) /\
  (forall before e1 e2 after,
     sessions 0
       [RVoid; RStartRead true [mkIndexes 0 7 0 0] [100]; RVoid;
        RVoid; RStartRead true [mkIndexes 7 8 0 0] [107]; RVoid]
     = before ++ e1 :: e2 :: after ->
     e1.2 + consumed e1.1 <= e2.2) /\
  Array_at 0 (m_lastReadTimestamps idle_queue) 0 <= 115.
Proof.
  apply (X17_steady_writer_is_read_in_order 0 steady_ops idle_queue
           (AbstractFifo.create 20)
           [RVoid; RStartRead true [mkIndexes 0 7 0 0] [100]; RVoid;
            RVoid; RStartRead true [mkIndexes 7 8 0 0] [107]; RVoid]
           (mkDataQueue
              [[1; 2; 3; 4; 5; 6; 7; 1; 2; 3; 4; 5; 6; 7; 8; 0; 0; 0; 0; 0]]
              [AbstractFifo.mk 20 15 15] [[100; 110]] [115] [0] 1 10 false
              2 20)).
  - exact idle_queue_wf.
  - reflexivity.
  - reflexivity.
  - reflexivity.
  - reflexivity.
  - vm_compute. repeat split; discriminate.
  - reflexivity.
Defined.
